(** * Scheduler core of the agent: task store, dispatcher, event bus,
      workflow engine and snapshot persistence

    Shallow embedding of [src/agent/core/scheduler.py].  The engine object
    [SchedulerModule] becomes a record [State] that every operation threads
    explicitly; in-place mutation of a task object is an [alter] of the
    task table at the task's id.

    Recursive entry points ([_execute_task], [run_workflow]) take a [fuel]
    argument: the Python code recurses without a bound (retry by self-call,
    dependency execution, cyclic workflows), and the model returns [None]
    when the fuel runs out.

    Outside the model: what action handlers do besides returning or raising
    (they do not touch the engine), failures of the snapshot write, the
    interpreter's recursion limit, and exceptions that are not [Exception]s
    (cancellation). *)

From stdpp Require Import gmap strings list fin_maps.
From Stdlib Require Import ZArith Lia DecimalString DecimalNat.

Set Warnings "-register-all".
Set Default Proof Using "Type".

Open Scope Z_scope.

(** ** Dynamic values

    [Dict[str, Any]] payloads (trigger configuration, action parameters,
    event data, snapshot entries) hold JSON-shaped values. *)

Inductive Value :=
| VNone
| VBool (b : bool)
| VInt (z : Z)
| VStr (s : string)
| VList (l : list Value)
| VDict (d : gmap string Value).

(** ** Enumerations *)

Inductive TaskStatus := PENDING | RUNNING | COMPLETED | FAILED | CANCELLED.

Inductive TriggerType := CRON | INTERVAL | DATE | EVENT | CONDITION | STARTUP.

Global Instance TaskStatus_eq_dec : EqDecision TaskStatus.
Proof. solve_decision. Defined.

Global Instance TriggerType_eq_dec : EqDecision TriggerType.
Proof. solve_decision. Defined.

(** [TaskStatus.value] and [TriggerType.value]. *)
Definition status_value (s : TaskStatus) : string :=
  match s with
  | PENDING => "pending" | RUNNING => "running" | COMPLETED => "completed"
  | FAILED => "failed" | CANCELLED => "cancelled"
  end.

Definition trigger_value (t : TriggerType) : string :=
  match t with
  | CRON => "cron" | INTERVAL => "interval" | DATE => "date"
  | EVENT => "event" | CONDITION => "condition" | STARTUP => "startup"
  end.

(** ** Records

    A [datetime] is a reading of the engine clock. *)

Definition datetime := nat.

Record TaskResult := {
  res_task_id : string;
  status : TaskStatus;
  start_time : datetime;
  end_time : option datetime;
  result : Value;
  error : option string;
  duration : Z
}.

Record ScheduledTask := {
  id : string;
  name : string;
  description : string;
  trigger_type : TriggerType;
  trigger_config : gmap string Value;
  action : string;
  action_params : gmap string Value;
  enabled : bool;
  created_at : datetime;
  last_run : option datetime;
  next_run : option datetime;
  run_count : Z;
  max_runs : option Z;
  retry_on_fail : bool;
  retry_count : Z;
  retry_delay : Z;
  tags : list string;
  dependencies : list string
}.

(** In-place field assignments on a task object. *)

Definition set_enabled (b : bool) (t : ScheduledTask) : ScheduledTask :=
  {| id := id t; name := name t; description := description t;
     trigger_type := trigger_type t; trigger_config := trigger_config t;
     action := action t; action_params := action_params t; enabled := b;
     created_at := created_at t; last_run := last_run t;
     next_run := next_run t; run_count := run_count t;
     max_runs := max_runs t; retry_on_fail := retry_on_fail t;
     retry_count := retry_count t; retry_delay := retry_delay t;
     tags := tags t; dependencies := dependencies t |}.

Definition set_next_run (n : option datetime) (t : ScheduledTask) : ScheduledTask :=
  {| id := id t; name := name t; description := description t;
     trigger_type := trigger_type t; trigger_config := trigger_config t;
     action := action t; action_params := action_params t;
     enabled := enabled t; created_at := created_at t;
     last_run := last_run t; next_run := n; run_count := run_count t;
     max_runs := max_runs t; retry_on_fail := retry_on_fail t;
     retry_count := retry_count t; retry_delay := retry_delay t;
     tags := tags t; dependencies := dependencies t |}.

Definition set_retry_count (n : Z) (t : ScheduledTask) : ScheduledTask :=
  {| id := id t; name := name t; description := description t;
     trigger_type := trigger_type t; trigger_config := trigger_config t;
     action := action t; action_params := action_params t;
     enabled := enabled t; created_at := created_at t;
     last_run := last_run t; next_run := next_run t;
     run_count := run_count t; max_runs := max_runs t;
     retry_on_fail := retry_on_fail t; retry_count := n;
     retry_delay := retry_delay t; tags := tags t;
     dependencies := dependencies t |}.

Definition set_action_params (p : gmap string Value) (t : ScheduledTask) : ScheduledTask :=
  {| id := id t; name := name t; description := description t;
     trigger_type := trigger_type t; trigger_config := trigger_config t;
     action := action t; action_params := p; enabled := enabled t;
     created_at := created_at t; last_run := last_run t;
     next_run := next_run t; run_count := run_count t;
     max_runs := max_runs t; retry_on_fail := retry_on_fail t;
     retry_count := retry_count t; retry_delay := retry_delay t;
     tags := tags t; dependencies := dependencies t |}.

(** [task.last_run = start_time; task.run_count += 1] *)
Definition mark_run (start : datetime) (t : ScheduledTask) : ScheduledTask :=
  {| id := id t; name := name t; description := description t;
     trigger_type := trigger_type t; trigger_config := trigger_config t;
     action := action t; action_params := action_params t;
     enabled := enabled t; created_at := created_at t;
     last_run := Some start; next_run := next_run t;
     run_count := run_count t + 1; max_runs := max_runs t;
     retry_on_fail := retry_on_fail t; retry_count := retry_count t;
     retry_delay := retry_delay t; tags := tags t;
     dependencies := dependencies t |}.

Arguments set_enabled _ _ /.
Arguments set_next_run _ _ /.
Arguments set_retry_count _ _ /.
Arguments set_action_params _ _ /.
Arguments mark_run _ _ /.

(** Workflow steps are dictionaries read through [.get]; the selector and
    name entries are taken at their documented types (a string, an integer,
    or absent). *)

Inductive Selector :=
| SelStr (s : string)
| SelInt (i : Z).

Record Step := {
  step_task_id : option string;
  on_success : option Selector;
  on_failure : option Selector;
  step_name : option string
}.

Record Workflow := {
  wf_id : string;
  wf_name : string;
  wf_description : string;
  steps : list Step;
  wf_enabled : bool;
  wf_created_at : datetime
}.

(** ** Actions

    A handler is an opaque callable: it receives the keyword arguments and
    either returns a value or raises.  Handlers may be stateful, so the
    model also passes the number of handler calls the engine has made so
    far.  Handlers do not touch the scheduler's own state. *)

Inductive Outcome :=
| Returned (v : Value)
| Raised (e : string).

Abbreviation Handler := (nat -> gmap string Value -> Outcome).

(** ** Observable effects

    The trace records, in order, what an execution did to the outside
    world: handler invocations (with the task table as it stood at that
    moment), retry back-off sleeps, finalised results and snapshot
    writes. *)

Inductive Effect :=
| EvInvoke (task_id : string) (params : gmap string Value)
           (store : gmap string ScheduledTask)
| EvSleep (task_id : string) (seconds : Z)
| EvFinal (r : TaskResult)
| EvSave (store : gmap string ScheduledTask).

(** ** Engine state *)

Record State := {
  tasks : gmap string ScheduledTask;            (* self._tasks *)
  workflows : gmap string Workflow;             (* self._workflows *)
  actions : gmap string Handler;                (* self._actions *)
  event_handlers : gmap string (list string);   (* self._event_handlers *)
  results : list TaskResult;                    (* self._results *)
  jobs : gset string;                           (* job ids held by APScheduler *)
  next_fire : TriggerType -> gmap string Value -> datetime -> option datetime;
                                                (* APScheduler: a job's next_run_time *)
  now : datetime;                               (* datetime.now() *)
  calls : nat;                                  (* handler calls made so far *)
  trace : list Effect
}.

Definition with_tasks (f : gmap string ScheduledTask -> gmap string ScheduledTask)
    (st : State) : State :=
  {| tasks := f (tasks st); workflows := workflows st; actions := actions st;
     event_handlers := event_handlers st; results := results st;
     jobs := jobs st; next_fire := next_fire st; now := now st;
     calls := calls st; trace := trace st |}.

Definition with_results (f : list TaskResult -> list TaskResult) (st : State) : State :=
  {| tasks := tasks st; workflows := workflows st; actions := actions st;
     event_handlers := event_handlers st; results := f (results st);
     jobs := jobs st; next_fire := next_fire st; now := now st;
     calls := calls st; trace := trace st |}.

Definition with_jobs (f : gset string -> gset string) (st : State) : State :=
  {| tasks := tasks st; workflows := workflows st; actions := actions st;
     event_handlers := event_handlers st; results := results st;
     jobs := f (jobs st); next_fire := next_fire st; now := now st;
     calls := calls st; trace := trace st |}.

Definition with_event_handlers
    (f : gmap string (list string) -> gmap string (list string)) (st : State) : State :=
  {| tasks := tasks st; workflows := workflows st; actions := actions st;
     event_handlers := f (event_handlers st); results := results st;
     jobs := jobs st; next_fire := next_fire st; now := now st;
     calls := calls st; trace := trace st |}.

Definition with_actions (f : gmap string Handler -> gmap string Handler) (st : State) : State :=
  {| tasks := tasks st; workflows := workflows st; actions := f (actions st);
     event_handlers := event_handlers st; results := results st;
     jobs := jobs st; next_fire := next_fire st; now := now st;
     calls := calls st; trace := trace st |}.

(** Appends one effect to the trace. *)
Definition emit (e : Effect) (st : State) : State :=
  {| tasks := tasks st; workflows := workflows st; actions := actions st;
     event_handlers := event_handlers st; results := results st;
     jobs := jobs st; next_fire := next_fire st; now := now st;
     calls := calls st; trace := trace st ++ [e] |}.

(** [await asyncio.sleep(seconds)]: the clock moves on. *)
Definition sleep (task_id : string) (seconds : Z) (st : State) : State :=
  emit (EvSleep task_id seconds)
    {| tasks := tasks st; workflows := workflows st; actions := actions st;
       event_handlers := event_handlers st; results := results st;
       jobs := jobs st; next_fire := next_fire st;
       now := (now st + Z.to_nat seconds)%nat;
       calls := calls st; trace := trace st |}.

(** One more handler call has been made. *)
Definition count_call (st : State) : State :=
  {| tasks := tasks st; workflows := workflows st; actions := actions st;
     event_handlers := event_handlers st; results := results st;
     jobs := jobs st; next_fire := next_fire st; now := now st;
     calls := S (calls st); trace := trace st |}.

Arguments with_tasks _ _ /.
Arguments with_results _ _ /.
Arguments with_jobs _ _ /.
Arguments with_event_handlers _ _ /.
Arguments with_actions _ _ /.
Arguments emit _ _ /.
Arguments sleep _ _ _ /.
Arguments count_call _ /.

(** ** Persistence hook and trigger engine *)

(** [_save_tasks]: writes the snapshot of the whole task table.  The write
    is recorded as an effect; disk failures are outside the model. *)
Definition _save_tasks (st : State) : State := emit (EvSave (tasks st)) st.

Arguments _save_tasks _ /.

(** [_create_trigger]: only CRON, INTERVAL and DATE produce a trigger. *)
Definition _create_trigger (task : ScheduledTask) : bool :=
  match trigger_type task with
  | CRON | INTERVAL | DATE => true
  | EVENT | CONDITION | STARTUP => false
  end.

(** [_schedule_task]: nothing for a disabled task or one without a
    trigger; otherwise the job is added (replacing an old one) and
    [task.next_run] takes the job's [next_run_time]. *)
Definition _schedule_task (task_id : string) (st : State) : State :=
  match tasks st !! task_id with
  | None => st
  | Some task =>
    if negb (enabled task) then st
    else if negb (_create_trigger task) then st
    else
      with_tasks
        (alter (set_next_run
                  (next_fire st (trigger_type task) (trigger_config task) (now st)))
           task_id)
        (with_jobs (fun js => {[task_id]} ∪ js) st)
  end.

(** [self._scheduler.remove_job(task_id)] with its exception swallowed. *)
Definition remove_job (task_id : string) (st : State) : State :=
  with_jobs (fun js => js ∖ {[task_id]}) st.

Arguments remove_job _ _ /.

(** ** Task store operations *)

Definition add_task (task : ScheduledTask) (st : State) : State * string :=
  let st1 := with_tasks (insert (id task) task) st in
  let st2 := if enabled task then _schedule_task (id task) st1 else st1 in
  (_save_tasks st2, id task).

Definition remove_task (task_id : string) (st : State) : State * bool :=
  match tasks st !! task_id with
  | None => (st, false)
  | Some _ =>
    (_save_tasks (remove_job task_id (with_tasks (delete task_id) st)), true)
  end.

Definition get_task (task_id : string) (st : State) : option ScheduledTask :=
  tasks st !! task_id.

Definition enable_task (task_id : string) (st : State) : State * bool :=
  match tasks st !! task_id with
  | None => (st, false)
  | Some _ =>
    (_save_tasks
       (_schedule_task task_id (with_tasks (alter (set_enabled true) task_id) st)),
     true)
  end.

Definition disable_task (task_id : string) (st : State) : State * bool :=
  match tasks st !! task_id with
  | None => (st, false)
  | Some _ =>
    (_save_tasks
       (remove_job task_id (with_tasks (alter (set_enabled false) task_id) st)),
     true)
  end.

Definition register_action (name : string) (func : Handler) (st : State) : State :=
  with_actions (insert name func) st.

(** ** Result log *)

(** [self._results.append(result)] followed by the overflow trim
    [self._results = self._results[-500:]] when the length exceeds 1000. *)
Definition append_result (r : TaskResult) (log : list TaskResult) : list TaskResult :=
  let log' := log ++ [r] in
  if (1000 <? length log')%nat then drop (length log' - 500)%nat log' else log'.

(** ** Dispatcher *)

(** [task.max_runs and task.run_count >= task.max_runs]: [None] and [0]
    are both falsy. *)
Definition max_runs_reached (task : ScheduledTask) : bool :=
  match max_runs task with
  | None => false
  | Some m => negb (m =? 0) && (m <=? run_count task)
  end.

(** The dependency loop of [_execute_task]; [exec] is the recursive call. *)
Fixpoint run_dependencies
    (exec : string -> State -> option (State * option TaskResult))
    (deps : list string) (st : State) : option State :=
  match deps with
  | [] => Some st
  | dep_id :: rest =>
    match tasks st !! dep_id with
    | Some dep_task =>
      match last_run dep_task with
      | None =>
        match exec dep_id st with
        | Some (st', _) => run_dependencies exec rest st'
        | None => None
        end
      | Some _ => run_dependencies exec rest st
      end
    | None => run_dependencies exec rest st
    end
  end.

(** The tail of [_execute_task] after the [try] block: stamp the result,
    update the task, append to the log, save, return the result. *)
Definition finalize (task_id : string) (start : datetime) (s : TaskStatus)
    (v : Value) (err : option string) (st : State) : State * option TaskResult :=
  let r := {| res_task_id := task_id; status := s; start_time := start;
              end_time := Some (now st); result := v; error := err;
              duration := Z.of_nat (now st) - Z.of_nat start |} in
  let st1 := with_tasks (alter (mark_run start) task_id) st in
  let st2 := emit (EvFinal r) (with_results (append_result r) st1) in
  (_save_tasks st2, Some r).

(** The state in which a failed attempt is retried:
    [task.retry_count -= 1; await asyncio.sleep(task.retry_delay)]. *)
Definition retry_state (task_id : string) (task : ScheduledTask) (st : State) : State :=
  sleep task_id (retry_delay task)
    (with_tasks (alter (set_retry_count (retry_count task - 1)) task_id) st).

(** The state right after the handler of [task] was awaited. *)
Definition invoked (task_id : string) (task : ScheduledTask) (st : State) : State :=
  count_call (emit (EvInvoke task_id (action_params task) (tasks st)) st).

(** The task object behind the local variable [task]: the store entry, as
    nested executions may have mutated it in the meantime. *)
Definition task_object (task_id : string) (task : ScheduledTask) (st : State)
    : ScheduledTask :=
  default task (tasks st !! task_id).

(** The [try] body after the dependency loop, the [except] clause and the
    finalisation; [exec] is the recursive call used for the retry. *)
Definition action_phase
    (exec : string -> State -> option (State * option TaskResult))
    (task_id : string) (task0 : ScheduledTask) (start : datetime) (st : State)
    : option (State * option TaskResult) :=
  let task := task_object task_id task0 st in
  match actions st !! action task with
  | Some action_func =>
    let st' := invoked task_id task st in
    match action_func (calls st) (action_params task) with
    | Returned v => Some (finalize task_id start COMPLETED v None st')
    | Raised e =>
      if retry_on_fail task && (0 <? retry_count task)
      then exec task_id (retry_state task_id task st')
      else Some (finalize task_id start FAILED VNone (Some e) st')
    end
  | None =>
    Some (finalize task_id start FAILED VNone
            (Some ("Nieznana akcja: " +:+ action task)) st)
  end.

(** [_execute_task].  The inner [option] is the Python return value
    ([None] when the task is unknown or run-capped). *)
Fixpoint _execute_task (fuel : nat) (task_id : string) (st : State)
    : option (State * option TaskResult) :=
  match fuel with
  | O => None
  | S fuel =>
    match tasks st !! task_id with
    | None => Some (st, None)
    | Some task =>
      if max_runs_reached task then Some ((disable_task task_id st).1, None)
      else
        let start_time := now st in
        match run_dependencies (_execute_task fuel) (dependencies task) st with
        | None => None
        | Some st1 => action_phase (_execute_task fuel) task_id task start_time st1
        end
    end
  end.

(** ** Event bus *)

Definition on_event (event_name task_id : string) (st : State) : State :=
  with_event_handlers
    (fun h => <[event_name := default [] (h !! event_name) ++ [task_id]]> h) st.

(** [task.action_params["event_data"] = data] *)
Definition inject_event_data (task_id : string) (data : Value) (st : State) : State :=
  with_tasks
    (alter (fun t => set_action_params (<["event_data" := data]> (action_params t)) t)
       task_id) st.

(** The loop of [emit_event] over the subscriber list.  The Python code
    discards what the dispatcher returns; the model keeps, for every
    dispatcher call the loop makes, the task id and the returned value. *)
Fixpoint emit_loop (fuel : nat) (data : Value) (task_ids : list string) (st : State)
    : option (State * list (string * option TaskResult)) :=
  match task_ids with
  | [] => Some (st, [])
  | task_id :: rest =>
    match tasks st !! task_id with
    | Some task =>
      if enabled task then
        match _execute_task fuel task_id (inject_event_data task_id data st) with
        | Some (st', r) =>
          match emit_loop fuel data rest st' with
          | Some (st'', fired) => Some (st'', (task_id, r) :: fired)
          | None => None
          end
        | None => None
        end
      else emit_loop fuel data rest st
    | None => emit_loop fuel data rest st
    end
  end.

Definition emit_event (fuel : nat) (event_name : string) (data : Value) (st : State)
    : option (State * list (string * option TaskResult)) :=
  emit_loop fuel data (default [] (event_handlers st !! event_name)) st.

(** ** Workflow engine *)

(** Exceptions that escape [run_workflow]. *)
Inductive Raise :=
| AttributeError (msg : string)
| IndexError (msg : string).

(** [workflow.steps[current_step]] under the loop condition
    [current_step < len(workflow.steps)]: negative indices count from the
    end, and raise when they fall off the front. *)
Definition step_at (steps : list Step) (current_step : Z) : option Step :=
  if 0 <=? current_step then steps !! Z.to_nat current_step
  else if 0 <=? Z.of_nat (length steps) + current_step
       then steps !! Z.to_nat (Z.of_nat (length steps) + current_step)
       else None.

(** Where the branch selector sends the step pointer ([None]: [break]). *)
Definition next_pointer (steps : list Step) (current_step : Z)
    (next_step : option Selector) : option Z :=
  match next_step with
  | None => None
  | Some (SelInt i) => Some i
  | Some (SelStr s) =>
    if decide (s = "stop") then None
    else if decide (s = "next") then Some (current_step + 1)
    else
      match list_find (fun st => step_name st = Some s) steps with
      | Some (i, _) => Some (Z.of_nat i)
      | None => None
      end
  end.

(** [self._execute_task(step.get("task_id"))]: a step without a task id
    looks up [None], which no task is registered under. *)
Definition execute_step (fuel : nat) (step : Step) (st : State)
    : option (State * option TaskResult) :=
  match step_task_id step with
  | Some task_id => _execute_task fuel task_id st
  | None => Some (st, None)
  end.

(** The [while] loop of [run_workflow]. *)
Fixpoint workflow_loop (fuel : nat) (steps : list Step) (current_step : Z)
    (acc : list TaskResult) (st : State)
    : option (State * (Raise + list TaskResult)) :=
  match fuel with
  | O => None
  | S fuel =>
    if current_step <? Z.of_nat (length steps) then
      match step_at steps current_step with
      | None => Some (st, inl (IndexError "list index out of range"))
      | Some step =>
        match execute_step fuel step st with
        | None => None
        | Some (st', None) =>
          Some (st', inl (AttributeError
                           "'NoneType' object has no attribute 'status'"))
        | Some (st', Some r) =>
          let acc' := acc ++ [r] in
          let next_step :=
            if decide (status r = COMPLETED) then on_success step
            else on_failure step in
          match next_pointer steps current_step next_step with
          | None => Some (st', inr acc')
          | Some current_step' => workflow_loop fuel steps current_step' acc' st'
          end
        end
      end
    else Some (st, inr acc)
  end.

Definition run_workflow (fuel : nat) (workflow_id : string) (st : State)
    : option (State * (Raise + list TaskResult)) :=
  match workflows st !! workflow_id with
  | None => Some (st, inr [])
  | Some workflow => workflow_loop fuel (steps workflow) 0 [] st
  end.

(** ** Snapshot persistence

    [datetime.isoformat] and [datetime.fromisoformat] belong to the Python
    standard library; the snapshot code is parametrised by them.  The JSON
    text layer ([json.dumps] / [json.loads]) is the identity on [Value]. *)

Definition as_str (v : Value) : option string :=
  match v with VStr s => Some s | _ => None end.

Definition as_int (v : Value) : option Z :=
  match v with VInt z => Some z | _ => None end.

Definition as_bool (v : Value) : option bool :=
  match v with VBool b => Some b | _ => None end.

Definition as_dict (v : Value) : option (gmap string Value) :=
  match v with VDict d => Some d | _ => None end.

Definition as_str_list (v : Value) : option (list string) :=
  match v with VList l => mapM as_str l | _ => None end.

(** Python truthiness of a JSON value. *)
Definition truthy (v : Value) : bool :=
  match v with
  | VNone => false
  | VBool b => b
  | VInt z => negb (z =? 0)
  | VStr s => negb (String.eqb s EmptyString)
  | VList l => negb (Nat.eqb (length l) 0)
  | VDict d => negb (Nat.eqb (size d) 0)
  end.

(** [TriggerType(value)]: lookup of an enum member by value. *)
Definition TriggerType_of_value (s : string) : option TriggerType :=
  if decide (s = "cron") then Some CRON
  else if decide (s = "interval") then Some INTERVAL
  else if decide (s = "date") then Some DATE
  else if decide (s = "event") then Some EVENT
  else if decide (s = "condition") then Some CONDITION
  else if decide (s = "startup") then Some STARTUP
  else None.

(** [data.get(key, default)] read at the field's type: an absent key gives
    the default; an entry of another JSON type does not fit the typed
    record and is reported as a failure. *)
Definition get_or {A} (conv : Value -> option A) (data : gmap string Value)
    (key : string) (dflt : A) : option A :=
  match data !! key with
  | None => Some dflt
  | Some v => conv v
  end.

(** [data[key]] read at the field's type; an absent key raises. *)
Definition get_req {A} (conv : Value -> option A) (data : gmap string Value)
    (key : string) : option A :=
  match data !! key with
  | None => None
  | Some v => conv v
  end.

(** [TriggerType(data["trigger_type"])] *)
Definition as_trigger_type (v : Value) : option TriggerType :=
  match as_str v with
  | Some s => TriggerType_of_value s
  | None => None
  end.

Section Persistence.
Variable isoformat : datetime -> string.
Variable fromisoformat : string -> option datetime.

(** [ScheduledTask.to_dict] *)
Definition to_dict (t : ScheduledTask) : gmap string Value :=
  list_to_map
    [ ("id", VStr (id t));
      ("name", VStr (name t));
      ("description", VStr (description t));
      ("trigger_type", VStr (trigger_value (trigger_type t)));
      ("trigger_config", VDict (trigger_config t));
      ("action", VStr (action t));
      ("action_params", VDict (action_params t));
      ("enabled", VBool (enabled t));
      ("created_at", VStr (isoformat (created_at t)));
      ("last_run", match last_run t with
                   | Some d => VStr (isoformat d)
                   | None => VNone
                   end);
      ("run_count", VInt (run_count t));
      ("max_runs", match max_runs t with
                   | Some m => VInt m
                   | None => VNone
                   end);
      ("tags", VList (VStr <$> tags t));
      ("dependencies", VList (VStr <$> dependencies t)) ].

(** [datetime.fromisoformat(data["created_at"]) if "created_at" in data
    else datetime.now()] *)
Definition read_created_at (current : datetime) (data : gmap string Value)
    : option datetime :=
  match data !! "created_at" with
  | None => Some current
  | Some (VStr s) => fromisoformat s
  | Some _ => None
  end.

(** [datetime.fromisoformat(data["last_run"]) if data.get("last_run")
    else None] *)
Definition read_last_run (data : gmap string Value) : option (option datetime) :=
  match data !! "last_run" with
  | None => Some None
  | Some v =>
    if truthy v then
      match v with
      | VStr s => Some <$> fromisoformat s
      | _ => None
      end
    else Some None
  end.

(** [data.get("max_runs")] *)
Definition read_max_runs (data : gmap string Value) : option (option Z) :=
  match data !! "max_runs" with
  | None | Some VNone => Some None
  | Some v => Some <$> as_int v
  end.

(** [ScheduledTask.from_dict]; [current] is [datetime.now()].  The fields
    the dictionary never carries ([next_run], [retry_on_fail],
    [retry_count], [retry_delay]) take the dataclass defaults.  [None]
    stands for a raised [KeyError] / [ValueError] / [TypeError]. *)
Definition from_dict (current : datetime) (data : gmap string Value)
    : option ScheduledTask :=
  id_ ← get_req as_str data "id";
  name_ ← get_req as_str data "name";
  description_ ← get_or as_str data "description" EmptyString;
  trigger_type_ ← get_req as_trigger_type data "trigger_type";
  trigger_config_ ← get_req as_dict data "trigger_config";
  action_ ← get_req as_str data "action";
  action_params_ ← get_or as_dict data "action_params" ∅;
  enabled_ ← get_or as_bool data "enabled" true;
  created_at_ ← read_created_at current data;
  last_run_ ← read_last_run data;
  run_count_ ← get_or as_int data "run_count" 0;
  max_runs_ ← read_max_runs data;
  tags_ ← get_or as_str_list data "tags" [];
  dependencies_ ← get_or as_str_list data "dependencies" [];
  Some {| id := id_; name := name_; description := description_;
          trigger_type := trigger_type_; trigger_config := trigger_config_;
          action := action_; action_params := action_params_;
          enabled := enabled_; created_at := created_at_;
          last_run := last_run_; next_run := None;
          run_count := run_count_; max_runs := max_runs_;
          retry_on_fail := true; retry_count := 3; retry_delay := 60;
          tags := tags_; dependencies := dependencies_ |}.

(** The snapshot file: [{"tasks": [...], "saved_at": ...}]. *)
Record Snapshot := {
  snap_tasks : list (gmap string Value);
  saved_at : string
}.

(** What [_save_tasks] writes.  ([map_to_list] fixes an order of the
    entries; Python writes them in insertion order.) *)
Definition save (st : State) : Snapshot :=
  {| snap_tasks := to_dict <$> (map_to_list (tasks st)).*2;
     saved_at := isoformat (now st) |}.

(** The loop of [_load_tasks]: entries are inserted one by one under
    their own id; the first entry that fails to deserialise ends the
    load, the entries before it stay. *)
Fixpoint load_entries (current : datetime) (entries : list (gmap string Value))
    (store : gmap string ScheduledTask) : gmap string ScheduledTask :=
  match entries with
  | [] => store
  | task_data :: rest =>
    match from_dict current task_data with
    | Some task => load_entries current rest (<[id task := task]> store)
    | None => store
    end
  end.

Definition load (snap : Snapshot) (st : State) : State :=
  with_tasks (load_entries (now st) (snap_tasks snap)) st.
End Persistence.

(** What a task looks like after a save / load cycle: the four fields the
    snapshot does not carry are back at their defaults. *)
Definition reloaded (t : ScheduledTask) : ScheduledTask :=
  {| id := id t; name := name t; description := description t;
     trigger_type := trigger_type t; trigger_config := trigger_config t;
     action := action t; action_params := action_params t;
     enabled := enabled t; created_at := created_at t;
     last_run := last_run t; next_run := None; run_count := run_count t;
     max_runs := max_runs t; retry_on_fail := true; retry_count := 3;
     retry_delay := 60; tags := tags t; dependencies := dependencies t |}.

(** ** Vocabulary of the statements *)

(** The task an effect was performed for. *)
Definition subject (e : Effect) : option string :=
  match e with
  | EvInvoke task_id _ _ => Some task_id
  | EvSleep task_id _ => Some task_id
  | EvFinal r => Some (res_task_id r)
  | EvSave _ => None
  end.

(** What the dispatcher did on behalf of one task, payloads dropped: a
    handler call, a back-off sleep, a finalised result. *)
Inductive Own :=
| OwnAttempt
| OwnSleep (seconds : Z)
| OwnFinal (s : TaskStatus).

Definition own_step (task_id : string) (e : Effect) : option Own :=
  match e with
  | EvInvoke t _ _ => if decide (t = task_id) then Some OwnAttempt else None
  | EvSleep t s => if decide (t = task_id) then Some (OwnSleep s) else None
  | EvFinal r =>
    if decide (res_task_id r = task_id) then Some (OwnFinal (status r)) else None
  | EvSave _ => None
  end.

Definition own_steps (task_id : string) (tr : list Effect) : list Own :=
  omap (own_step task_id) tr.

(** [k] failed attempts, each followed by its back-off sleep. *)
Fixpoint retries (k : nat) (seconds : Z) : list Own :=
  match k with
  | O => []
  | S k => OwnAttempt :: OwnSleep seconds :: retries k seconds
  end.

(** The dependency relation is well founded on the tasks that still have
    to run: [rk] decreases along every edge to a registered dependency that
    has never run.  (The dispatcher has no cycle detection; on a cycle of
    never-run tasks it recurses forever.) *)
Definition ranked (rk : string -> nat) (st : State) : Prop :=
  forall t task d dep_task,
    tasks st !! t = Some task -> d ∈ dependencies task ->
    tasks st !! d = Some dep_task -> last_run dep_task = None ->
    (rk d < rk t)%nat.

Definition acyclic (st : State) : Prop := exists rk, ranked rk st.

(** The handler raises whatever it is called with. *)
Definition always_raises (h : Handler) : Prop :=
  forall n params, exists e, h n params = Raised e.

(** A task that has been run at least once. *)
Definition has_run (store : gmap string ScheduledTask) (task_id : string) : Prop :=
  exists t d, store !! task_id = Some t /\ last_run t = Some d.

(** [n] successive firings of one task. *)
Fixpoint fire_times (fuel n : nat) (task_id : string) (st : State)
    : option (State * list (option TaskResult)) :=
  match n with
  | O => Some (st, [])
  | S n =>
    match _execute_task fuel task_id st with
    | Some (st1, r) =>
      match fire_times fuel n task_id st1 with
      | Some (st2, rs) => Some (st2, r :: rs)
      | None => None
      end
    | None => None
    end
  end.

(** One completed operation of the engine's public surface. *)
Inductive engine_op (st : State) : State -> Prop :=
| op_add_task task : engine_op st (add_task task st).1
| op_remove_task task_id : engine_op st (remove_task task_id st).1
| op_enable_task task_id : engine_op st (enable_task task_id st).1
| op_disable_task task_id : engine_op st (disable_task task_id st).1
| op_register_action name func : engine_op st (register_action name func st)
| op_on_event event_name task_id : engine_op st (on_event event_name task_id st)
| op_execute_task fuel task_id st' r :
    _execute_task fuel task_id st = Some (st', r) -> engine_op st st'
| op_emit_event fuel event_name data st' fired :
    emit_event fuel event_name data st = Some (st', fired) -> engine_op st st'
| op_run_workflow fuel workflow_id st' out :
    run_workflow fuel workflow_id st = Some (st', out) -> engine_op st st'.

(** The states an engine can be in: it starts with an empty result log and
    then performs operations. *)
Inductive reachable : State -> Prop :=
| reach_init st : results st = [] -> reachable st
| reach_op st st' : reachable st -> engine_op st st' -> reachable st'.

(** The event fan-out in the words of the specification: subscribers are
    visited in subscription order; one that is missing or disabled when its
    turn comes is passed over; otherwise the event data is stored under
    ["event_data"] and the dispatcher is invoked, and whatever it returns
    the remaining subscribers follow. *)
Inductive fan_out (data : Value)
    : list string -> State -> list (string * option TaskResult) -> State -> Prop :=
| fan_out_nil st : fan_out data [] st [] st
| fan_out_missing task_id rest st fired st' :
    tasks st !! task_id = None ->
    fan_out data rest st fired st' ->
    fan_out data (task_id :: rest) st fired st'
| fan_out_disabled task_id task rest st fired st' :
    tasks st !! task_id = Some task -> enabled task = false ->
    fan_out data rest st fired st' ->
    fan_out data (task_id :: rest) st fired st'
| fan_out_fire task_id task rest st fuel r st1 fired st' :
    tasks st !! task_id = Some task -> enabled task = true ->
    _execute_task fuel task_id
      (with_tasks
         (insert task_id
            (set_action_params (<["event_data" := data]> (action_params task)) task))
         st) = Some (st1, r) ->
    (forall params store,
       EvInvoke task_id params store ∈ drop (length (trace st)) (trace st1) ->
       params !! "event_data" = Some data) ->
    fan_out data rest st1 fired st' ->
    fan_out data (task_id :: rest) st ((task_id, r) :: fired) st'.

Definition log_bounded (st : State) : Prop := (length (results st) <= 1000)%nat.

(** How the dispatcher may change a task object: the fields below are
    never written, a set [last_run] stays set, [run_count] only grows, and
    it grows only together with a [last_run] stamp. *)
Definition evolves (t t' : ScheduledTask) : Prop :=
  action t' = action t /\
  action_params t' = action_params t /\
  max_runs t' = max_runs t /\
  retry_on_fail t' = retry_on_fail t /\
  retry_delay t' = retry_delay t /\
  dependencies t' = dependencies t /\
  (last_run t' = None -> last_run t = None /\ run_count t' = run_count t) /\
  run_count t <= run_count t'.

Definition store_evolves (m m' : gmap string ScheduledTask) : Prop :=
  forall x,
    match m !! x, m' !! x with
    | Some t, Some t' => evolves t t'
    | None, None => True
    | _, _ => False
    end.

(** The part of the engine an execution leaves alone, and the way it
    changes the rest. *)
Definition extends (st st' : State) : Prop :=
  actions st' = actions st /\
  workflows st' = workflows st /\
  event_handlers st' = event_handlers st /\
  next_fire st' = next_fire st /\
  store_evolves (tasks st) (tasks st').

(** [confined P st st']: between [st] and [st'] only task objects whose id
    satisfies [P] were written, and every effect performed for a task was
    performed for one that satisfies [P]. *)
Definition confined (P : string -> Prop) (st st' : State) : Prop :=
  (forall x, ~ P x -> tasks st' !! x = tasks st !! x) /\
  exists new, trace st' = trace st ++ new /\
              Forall (fun e => forall y, subject e = Some y -> P y) new.

(** The tasks an execution of [task_id] can reach under a ranking: the
    task itself and tasks of lower rank. *)
Definition within (rk : string -> nat) (task_id : string) : string -> Prop :=
  fun x => x = task_id \/ (rk x < rk task_id)%nat.

(** The pending dependencies of a list all rank below [n]. *)
Definition pending_below (rk : string -> nat) (n : nat) (deps : list string)
    (st : State) : Prop :=
  forall d dep_task,
    d ∈ deps -> tasks st !! d = Some dep_task -> last_run dep_task = None ->
    (rk d < n)%nat.

(** A task the dispatcher need not run any more before a dependent: it is
    not registered, it has run, or the run-cap gate turns it away. *)
Definition settled (store : gmap string ScheduledTask) (d : string) : Prop :=
  match store !! d with
  | Some dep_task => last_run dep_task <> None \/ max_runs_reached dep_task = true
  | None => True
  end.

(** What holds of every handler invocation [EvInvoke x params store] made
    since the store was [m0]: [store] descends from [m0], the dependencies
    of [x] are settled in it, and the handler got the [action_params] that
    [x] has in it. *)
Definition invoke_ok (m0 : gmap string ScheduledTask) (e : Effect) : Prop :=
  match e with
  | EvInvoke x params store =>
    store_evolves m0 store /\
    exists t, store !! x = Some t /\ params = action_params t /\
              forall d, d ∈ dependencies t -> settled store d
  | _ => True
  end.

(** [traced m0 st st']: the trace grew from [st] to [st'] by invocations
    that are all fine with respect to the store [m0]. *)
Definition traced (m0 : gmap string ScheduledTask) (st st' : State) : Prop :=
  exists new, trace st' = trace st ++ new /\ Forall (invoke_ok m0) new.

(** No registered task has a run cap ([max_runs] is [None] or the falsy 0),
    so the run-cap gate never closes. *)
Definition no_caps (st : State) : Prop :=
  forall x t, tasks st !! x = Some t -> max_runs t = None \/ max_runs t = Some 0.

(** [task and task.enabled] *)
Definition live (st : State) (task_id : string) : bool :=
  match tasks st !! task_id with
  | Some t => enabled t
  | None => false
  end.

(** The selector a finished step hands to the branching logic. *)
Definition selected (step : Step) (r : TaskResult) : option Selector :=
  if decide (status r = COMPLETED) then on_success step else on_failure step.

(** A workflow run in the words of the specification.  [wf_run steps
    pointer acc st out st'] : started with the step pointer at [pointer]
    and the results [acc] gathered so far, the run ends in [st'] with the
    results [out].  The dispatcher is taken to return a TaskResult for the
    task of each step that is run. *)
Inductive wf_run (stps : list Step)
    : Z -> list TaskResult -> State -> list TaskResult -> State -> Prop :=
| wf_past_end pointer acc st :
    Z.of_nat (length stps) <= pointer ->
    wf_run stps pointer acc st acc st
| wf_stop pointer acc st step fuel st1 r :
    pointer < Z.of_nat (length stps) ->
    step_at stps pointer = Some step ->
    execute_step fuel step st = Some (st1, Some r) ->
    selected step r = None \/ selected step r = Some (SelStr "stop") ->
    wf_run stps pointer acc st (acc ++ [r]) st1
| wf_next pointer acc st step fuel st1 r out st' :
    pointer < Z.of_nat (length stps) ->
    step_at stps pointer = Some step ->
    execute_step fuel step st = Some (st1, Some r) ->
    selected step r = Some (SelStr "next") ->
    wf_run stps (pointer + 1) (acc ++ [r]) st1 out st' ->
    wf_run stps pointer acc st out st'
| wf_jump pointer acc st step fuel st1 r i out st' :
    pointer < Z.of_nat (length stps) ->
    step_at stps pointer = Some step ->
    execute_step fuel step st = Some (st1, Some r) ->
    selected step r = Some (SelInt i) ->
    wf_run stps i (acc ++ [r]) st1 out st' ->
    wf_run stps pointer acc st out st'
| wf_named pointer acc st step fuel st1 r s (i : nat) target out st' :
    pointer < Z.of_nat (length stps) ->
    step_at stps pointer = Some step ->
    execute_step fuel step st = Some (st1, Some r) ->
    selected step r = Some (SelStr s) -> s <> "stop" -> s <> "next" ->
    stps !! i = Some target -> step_name target = Some s ->
    (forall (j : nat) earlier,
       (j < i)%nat -> stps !! j = Some earlier -> step_name earlier <> Some s) ->
    wf_run stps (Z.of_nat i) (acc ++ [r]) st1 out st' ->
    wf_run stps pointer acc st out st'
| wf_no_match pointer acc st step fuel st1 r s :
    pointer < Z.of_nat (length stps) ->
    step_at stps pointer = Some step ->
    execute_step fuel step st = Some (st1, Some r) ->
    selected step r = Some (SelStr s) -> s <> "stop" -> s <> "next" ->
    (forall other, other ∈ stps -> step_name other <> Some s) ->
    wf_run stps pointer acc st (acc ++ [r]) st1.

(** The two steps of the specification's branching scenario:
    [A(on_success=1, on_failure="stop")] and [B(on_success="stop")]. *)
Definition branch_A (task_id name_ : option string) : Step :=
  {| step_task_id := task_id; on_success := Some (SelInt 1);
     on_failure := Some (SelStr "stop"); step_name := name_ |}.

Definition branch_B (task_id name_ : option string) : Step :=
  {| step_task_id := task_id; on_success := Some (SelStr "stop");
     on_failure := None; step_name := name_ |}.

(** ** Concrete engines

    Small engines on which the statements are instantiated. *)

Definition ok_handler : Handler := fun _ _ => Returned VNone.

Definition failing_handler : Handler := fun _ _ => Raised "boom".

Definition demo_task (task_id action_ : string) (deps : list string)
    (retries : Z) (cap : option Z) (runs : Z) (ran : option datetime)
    : ScheduledTask :=
  {| id := task_id; name := task_id; description := EmptyString;
     trigger_type := EVENT; trigger_config := ∅; action := action_;
     action_params := ∅; enabled := true; created_at := 0%nat;
     last_run := ran; next_run := None; run_count := runs; max_runs := cap;
     retry_on_fail := true; retry_count := retries; retry_delay := 60;
     tags := []; dependencies := deps |}.

Definition demo_engine (store : gmap string ScheduledTask)
    (flows : gmap string Workflow) (subscribers : gmap string (list string))
    : State :=
  {| tasks := store; workflows := flows;
     actions := <["ok" := ok_handler]> (<["fail" := failing_handler]> ∅);
     event_handlers := subscribers; results := []; jobs := ∅;
     next_fire := fun _ _ _ => None; now := 0%nat; calls := 0%nat;
     trace := [] |}.

(** A fresh task with two retries whose handler always raises. *)
Definition retry_demo : State :=
  demo_engine {["job" := demo_task "job" "fail" [] 2 None 0 None]} ∅ ∅.

(** The same kind of task after a restart: it has used up its single run,
    and the reload has put the retry budget back to 3. *)
Definition capped_retry_demo : State :=
  demo_engine {["job" := demo_task "job" "fail" [] 3 (Some 1) 1 (Some 0%nat)]} ∅ ∅.

(** A fresh task whose action name is not registered. *)
Definition unknown_demo : State :=
  demo_engine {["job" := demo_task "job" "typo" [] 3 None 0 None]} ∅ ∅.

(** A one-shot task with an unregistered action that has had its run. *)
Definition capped_unknown_demo : State :=
  demo_engine {["job" := demo_task "job" "typo" [] 3 (Some 1) 1 (Some 0%nat)]} ∅ ∅.

(** [T] depends on [D1] (succeeds) and [D2] (fails after one retry). *)
Definition deps_demo : State :=
  demo_engine
    (<["T" := demo_task "T" "ok" ["D1"; "D2"] 0 None 0 None]>
       (<["D1" := demo_task "D1" "ok" [] 0 None 0 None]>
          {["D2" := demo_task "D2" "fail" [] 1 None 0 None]})) ∅ ∅.

(** As [deps_demo], but [D1] was registered with its run count already at
    its cap and has no [last_run]. *)
Definition deps_capped_demo : State :=
  demo_engine
    (<["T" := demo_task "T" "ok" ["D1"; "D2"] 0 None 0 None]>
       (<["D1" := demo_task "D1" "ok" [] 0 (Some 1) 1 None]>
          {["D2" := demo_task "D2" "fail" [] 1 None 0 None]})) ∅ ∅.

(** A fresh task capped at one run, and one capped at two. *)
Definition once_demo : State :=
  demo_engine {["once" := demo_task "once" "ok" [] 3 (Some 1) 0 None]} ∅ ∅.

Definition twice_demo : State :=
  demo_engine {["job" := demo_task "job" "ok" [] 3 (Some 2) 0 None]} ∅ ∅.

(** The branching scenario: [a] succeeds, [b] fails without retry. *)
Definition scenario_workflow : Workflow :=
  {| wf_id := "w"; wf_name := "scenario"; wf_description := EmptyString;
     steps := [branch_A (Some "a") None; branch_B (Some "b") None];
     wf_enabled := true; wf_created_at := 0%nat |}.

Definition flow_demo : State :=
  demo_engine
    (<["a" := demo_task "a" "ok" [] 0 None 0 None]>
       {["b" := demo_task "b" "fail" [] 0 None 0 None]})
    {["w" := scenario_workflow]} ∅.

(** A workflow whose only step names a task nobody registered. *)
Definition ghost_workflow : Workflow :=
  {| wf_id := "w"; wf_name := "ghost"; wf_description := EmptyString;
     steps := [branch_A (Some "ghost") None];
     wf_enabled := true; wf_created_at := 0%nat |}.

Definition ghost_demo : State := demo_engine ∅ {["w" := ghost_workflow]} ∅.

(** Three subscribers of the event ["x"]; the second one fails. *)
Definition fan_demo : State :=
  demo_engine
    (<["s1" := demo_task "s1" "ok" [] 0 None 0 None]>
       (<["s2" := demo_task "s2" "fail" [] 0 None 0 None]>
          {["s3" := demo_task "s3" "ok" [] 0 None 0 None]}))
    ∅ {["x" := ["s1"; "s2"; "s3"]]}.

(** A task that must not be retried. *)
Definition no_retry_task : ScheduledTask :=
  {| id := "t"; name := "t"; description := EmptyString;
     trigger_type := INTERVAL; trigger_config := ∅; action := "print";
     action_params := ∅; enabled := true; created_at := 0%nat;
     last_run := None; next_run := None; run_count := 0; max_runs := None;
     retry_on_fail := false; retry_count := 0; retry_delay := 5;
     tags := []; dependencies := [] |}.

(** A stand-in ISO codec for the clock readings of the model: ["@"]
    followed by the reading in decimal. *)
Definition at_sign : Ascii.ascii := Ascii.ascii_of_nat 64.

Definition clock_isoformat (d : datetime) : string :=
  String at_sign (NilEmpty.string_of_uint (Nat.to_uint d)).

Definition clock_fromisoformat (s : string) : option datetime :=
  match s with
  | String c digits =>
    if Ascii.eqb c at_sign then Nat.of_uint <$> NilEmpty.uint_of_string digits
    else None
  | EmptyString => None
  end.

(** A result to fill logs with. *)
Definition demo_result : TaskResult :=
  {| res_task_id := "job"; status := COMPLETED; start_time := 0%nat;
     end_time := Some 0%nat; result := VNone; error := None; duration := 0 |}.

(** ** Queries and builders of the public surface *)

(** [list_tasks].  The values of the task table come in the order of
    [map_to_list]; Python yields them in insertion order.  An empty tag
    list is falsy and filters nothing. *)
Definition list_tasks (enabled_only : bool) (tags_ : option (list string))
    (st : State) : list ScheduledTask :=
  let all := (map_to_list (tasks st)).*2 in
  let shown :=
    if enabled_only then filter (fun t => enabled t = true) all else all in
  match tags_ with
  | None | Some [] => shown
  | Some wanted =>
    filter (fun t => Exists (fun tag => tag ∈ tags t) wanted) shown
  end.

(** The slice [l[-n:]] for an integer [n]: the last [n] elements when [n]
    is positive, the whole list when [n] is 0, and [l[k:]] when
    [n = -k] is negative. *)
Definition last_n {A} (n : Z) (l : list A) : list A :=
  if 0 <? n then drop (length l - Z.to_nat n) l else drop (Z.to_nat (- n)) l.

(** [get_results]: [task_id] filters when it is a non-empty string,
    [status] when it is given (enum members are truthy). *)
Definition get_results (task_id : option string) (status_ : option TaskStatus)
    (limit : Z) (st : State) : list TaskResult :=
  let by_task :=
    match task_id with
    | Some wanted =>
      if String.eqb wanted EmptyString then results st
      else filter (fun r => res_task_id r = wanted) (results st)
    | None => results st
    end in
  let by_status :=
    match status_ with
    | Some wanted => filter (fun r => status r = wanted) by_task
    | None => by_task
    end in
  last_n limit by_status.

(** The dictionary [get_task_stats] returns.  The two quotients are
    Python floats; the model keeps them as exact rationals. *)
Record TaskStats := {
  total_runs : nat;
  completed : nat;
  failed : nat;
  success_rate : QArith_base.Q;
  avg_duration : QArith_base.Q;
  stats_last_run : datetime;
  last_status : string
}.

(** [get_task_stats]; [None] is the empty dictionary. *)
Definition get_task_stats (task_id : string) (st : State) : option TaskStats :=
  let own := filter (fun r => res_task_id r = task_id) (results st) in
  match last own with
  | None => None
  | Some newest =>
    let done := length (filter (fun r => status r = COMPLETED) own) in
    let durations := filter (fun d => 0 < d) (duration <$> own) in
    Some {| total_runs := length own;
            completed := done;
            failed := length (filter (fun r => status r = FAILED) own);
            success_rate :=
              QArith_base.Qmake (Z.of_nat done) (Pos.of_nat (length own));
            avg_duration :=
              match durations with
              | [] => QArith_base.Qmake 0 1
              | _ => QArith_base.Qmake (foldr Z.add 0 durations)
                       (Pos.of_nat (length durations))
              end;
            stats_last_run := start_time newest;
            last_status := status_value (status newest) |}
  end.

(** The keyword arguments [create_task] passes on to the dataclass: each
    remaining field, given or left to its default. *)
Record TaskOptions := {
  opt_enabled : option bool;
  opt_created_at : option datetime;
  opt_last_run : option (option datetime);
  opt_next_run : option (option datetime);
  opt_run_count : option Z;
  opt_max_runs : option (option Z);
  opt_retry_on_fail : option bool;
  opt_retry_count : option Z;
  opt_retry_delay : option Z;
  opt_tags : option (list string);
  opt_dependencies : option (list string)
}.


(** [create_task]; [new_id] is [str(uuid.uuid4())[:8]].  [action_params or
    {}] turns a missing parameter map into the empty one. *)
Definition create_task (new_id name_ action_ : string)
    (trigger_type_ : TriggerType) (trigger_config_ : gmap string Value)
    (action_params_ : option (gmap string Value)) (description_ : string)
    (kwargs : TaskOptions) (st : State) : State * string :=
  add_task
    {| id := new_id; name := name_; description := description_;
       trigger_type := trigger_type_; trigger_config := trigger_config_;
       action := action_; action_params := default ∅ action_params_;
       enabled := default true (opt_enabled kwargs);
       created_at := default (now st) (opt_created_at kwargs);
       last_run := default None (opt_last_run kwargs);
       next_run := default None (opt_next_run kwargs);
       run_count := default 0 (opt_run_count kwargs);
       max_runs := default None (opt_max_runs kwargs);
       retry_on_fail := default true (opt_retry_on_fail kwargs);
       retry_count := default 3 (opt_retry_count kwargs);
       retry_delay := default 60 (opt_retry_delay kwargs);
       tags := default [] (opt_tags kwargs);
       dependencies := default [] (opt_dependencies kwargs) |}
    st.

(** [name or f"{prefix}_{action}"] *)
Definition name_or (name_ : option string) (prefix action_ : string) : string :=
  match name_ with
  | Some given =>
    if String.eqb given EmptyString then prefix +:+ "_" +:+ action_ else given
  | None => prefix +:+ "_" +:+ action_
  end.

(** [schedule_once]; [isoformat] is [datetime.isoformat]. *)
Definition schedule_once (isoformat : datetime -> string) (new_id action_ : string)
    (run_at : datetime) (action_params_ : option (gmap string Value))
    (name_ : option string) (st : State) : State * string :=
  create_task new_id (name_or name_ "once" action_) action_ DATE
    {["run_date" := VStr (isoformat run_at)]} action_params_ EmptyString
    {| opt_enabled := None; opt_created_at := None; opt_last_run := None;
       opt_next_run := None; opt_run_count := None;
       opt_max_runs := Some (Some 1);
       opt_retry_on_fail := None; opt_retry_count := None;
       opt_retry_delay := None; opt_tags := None; opt_dependencies := None |}
    st.



(** ** Vocabulary of the further statements *)

(** Every task is stored under its own id. *)
Definition keyed (store : gmap string ScheduledTask) : Prop :=
  forall k t, store !! k = Some t -> id t = k.

(** Every job the trigger engine holds belongs to a registered task. *)
Definition jobs_registered (st : State) : Prop :=
  forall x, x ∈ jobs st -> is_Some (tasks st !! x).

(** A result as the dispatcher finalises it: Completed without an error
    message, or Failed with one and without a value; its end time is
    stamped and its duration is the time from start to end. *)
Definition finalized (r : TaskResult) : Prop :=
  ((status r = COMPLETED /\ error r = None) \/
   (status r = FAILED /\ is_Some (error r) /\ result r = VNone)) /\
  exists finished,
    end_time r = Some finished /\
    duration r = Z.of_nat finished - Z.of_nat (start_time r).

(** The handler returns whatever it is called with. *)
Definition always_returns (h : Handler) : Prop :=
  forall n params, exists v, h n params = Returned v.

(** The retry budgets of [m'] against those of [m]: no task has more
    retries left, and a budget that was not negative is not negative. *)
Definition budgets_shrink (m m' : gmap string ScheduledTask) : Prop :=
  forall x t',
    m' !! x = Some t' ->
    exists t, m !! x = Some t /\
              retry_count t' <= retry_count t /\
              (0 <= retry_count t -> 0 <= retry_count t').

(** The task [create_task] builds when no keyword argument is given apart
    from [max_runs]. *)
Definition built_task (new_id name_ action_ : string) (trigger_type_ : TriggerType)
    (trigger_config_ : gmap string Value) (params : gmap string Value)
    (cap : option Z) (created : datetime) (next : option datetime)
    : ScheduledTask :=
  {| id := new_id; name := name_; description := EmptyString;
     trigger_type := trigger_type_; trigger_config := trigger_config_;
     action := action_; action_params := params; enabled := true;
     created_at := created; last_run := None; next_run := next;
     run_count := 0; max_runs := cap; retry_on_fail := true;
     retry_count := 3; retry_delay := 60; tags := []; dependencies := [] |}.

(** Called with [params], the handler raises on its calls number [n] to
    [n + j - 1] and returns [v] on call number [n + j]. *)
Definition fails_then_returns (h : Handler) (n j : nat)
    (params : gmap string Value) (v : Value) : Prop :=
  (forall i, (i < j)%nat -> exists e, h (n + i)%nat params = Raised e) /\
  h (n + j)%nat params = Returned v.

(** The fields of a task the dispatcher never writes: all but [enabled],
    [last_run], [run_count] and [retry_count]. *)
Definition static_fields (t t' : ScheduledTask) : Prop :=
  id t' = id t /\ name t' = name t /\ description t' = description t /\
  trigger_type t' = trigger_type t /\ trigger_config t' = trigger_config t /\
  action t' = action t /\ action_params t' = action_params t /\
  created_at t' = created_at t /\ next_run t' = next_run t /\
  max_runs t' = max_runs t /\ retry_on_fail t' = retry_on_fail t /\
  retry_delay t' = retry_delay t /\ tags t' = tags t /\
  dependencies t' = dependencies t.

(** The same ids are registered in [m'] as in [m]; each task has kept its
    static fields, and none has become enabled. *)
Definition store_frame (m m' : gmap string ScheduledTask) : Prop :=
  forall x,
    match m !! x, m' !! x with
    | Some t, Some t' => static_fields t t' /\ (enabled t' = true -> enabled t = true)
    | None, None => True
    | _, _ => False
    end.

(** What an execution leaves alone, and the direction in which it moves
    the rest: no task is added, removed or enabled, the registries are
    untouched, no job is added, the clock and the call counter do not go
    back, and the trace only grows. *)
Definition frame (st st' : State) : Prop :=
  store_frame (tasks st) (tasks st') /\
  actions st' = actions st /\
  workflows st' = workflows st /\
  event_handlers st' = event_handlers st /\
  jobs st' ⊆ jobs st /\
  (now st <= now st')%nat /\
  (calls st <= calls st')%nat /\
  trace st `prefix_of` trace st'.

(** A handler that raises on the first [k] calls the engine makes and
    returns from then on. *)
Definition flaky_handler (k : nat) : Handler :=
  fun n _ => if (n <? k)%nat then Raised "flaky" else Returned (VStr "done").

(** A fresh task with three retries whose handler fails twice. *)
Definition flaky_demo : State :=
  register_action "flaky" (flaky_handler 2)
    (demo_engine {["job" := demo_task "job" "flaky" [] 3 None 0 None]} ∅ ∅).

(** A disabled task whose handler succeeds. *)
Definition disabled_demo : State :=
  demo_engine
    {["job" := set_enabled false (demo_task "job" "ok" [] 3 None 0 None)]} ∅ ∅.

(** The built-in action [_action_print(self, message)] as the dispatcher
    calls it, with the task's [action_params] unpacked into keyword
    arguments: the call binds when the parameters are exactly [message];
    the method logs and returns the message.  With a missing or an
    unexpected keyword the call raises a TypeError, whose text is the
    interpreter's ([type_error]). *)
Definition _action_print (type_error : gmap string Value -> string) : Handler :=
  fun _ params =>
    match params !! "message" with
    | Some message =>
      if decide (dom params = {["message"]}) then Returned message
      else Raised (type_error params)
    | None => Raised (type_error params)
    end.

(** [create_workflow]; [new_id] is [str(uuid.uuid4())[:8]]. *)
Definition create_workflow (new_id name_ : string) (steps_ : list Step)
    (description_ : string) (st : State) : State * string :=
  ({| tasks := tasks st;
      workflows :=
        <[new_id := {| wf_id := new_id; wf_name := name_;
                       wf_description := description_; steps := steps_;
                       wf_enabled := true; wf_created_at := now st |}]>
          (workflows st);
      actions := actions st; event_handlers := event_handlers st;
      results := results st; jobs := jobs st; next_fire := next_fire st;
      now := now st; calls := calls st; trace := trace st |},
   new_id).

(** A step that goes on to the next one whatever its task's status. *)
Definition linear_step (task_id : string) : Step :=
  {| step_task_id := Some task_id; on_success := Some (SelStr "next");
     on_failure := Some (SelStr "next"); step_name := None |}.

(** A task with the built-in print action, subscribed to the event
    ["ping"]. *)
Definition print_demo (type_error : gmap string Value -> string) : State :=
  on_event "ping" "hello"
    (register_action "print" (_action_print type_error)
       (demo_engine
          {["hello" := set_action_params {["message" := VStr "hi"]}
                         (demo_task "hello" "print" [] 1 None 0 None)]} ∅ ∅)).

(** A one-step workflow whose step sends the step pointer to [target] when
    its task succeeds, and an engine that holds it. *)
Definition jump_workflow (target : Z) : Workflow :=
  {| wf_id := "w"; wf_name := "jump"; wf_description := EmptyString;
     steps := [{| step_task_id := Some "a"; on_success := Some (SelInt target);
                  on_failure := None; step_name := None |}];
     wf_enabled := true; wf_created_at := 0%nat |}.

Definition jump_demo (target : Z) : State :=
  demo_engine {["a" := demo_task "a" "ok" [] 0 None 0 None]}
    {["w" := jump_workflow target]} ∅.

(** The dictionary with just the five keys [from_dict] cannot do without. *)
Definition minimal_dict (id_ name_ action_ : string) (trigger_type_ : TriggerType)
    (trigger_config_ : gmap string Value) : gmap string Value :=
  list_to_map
    [ ("id", VStr id_); ("name", VStr name_);
      ("trigger_type", VStr (trigger_value trigger_type_));
      ("trigger_config", VDict trigger_config_);
      ("action", VStr action_) ].

(** [T] depends on [D], which has run (and failed) before, and on an id
    nobody registered. *)
Definition ran_deps_demo : State :=
  demo_engine
    (<["T" := demo_task "T" "ok" ["D"; "gone"] 0 None 0 None]>
       {["D" := demo_task "D" "fail" [] 0 None 1 (Some 0%nat)]}) ∅ ∅.




(** * Proofs *)

(** Turns a goal about the final state [st'] of [H : Some x = Some (st', r)]
    into a goal about [x.1]. *)
Ltac final_state H :=
  apply (inj Some) in H;
  match type of H with
  | _ = (?st', ?r) => change st' with ((st', r).1); rewrite <- H
  end.

(** ** Unfolding equations of the state transformers *)

Lemma disable_task_fst task_id st :
  (disable_task task_id st).1 = st \/
  (disable_task task_id st).1 =
    _save_tasks (remove_job task_id
      (with_tasks (alter (set_enabled false) task_id) st)).
Proof. unfold disable_task. destruct (tasks st !! task_id); simpl; auto. Qed.

Lemma _execute_task_S fuel task_id st :
  _execute_task (S fuel) task_id st =
  match tasks st !! task_id with
  | None => Some (st, None)
  | Some task =>
    if max_runs_reached task then Some ((disable_task task_id st).1, None)
    else
      match run_dependencies (_execute_task fuel) (dependencies task) st with
      | None => None
      | Some st1 => action_phase (_execute_task fuel) task_id task (now st) st1
      end
  end.
Proof. reflexivity. Qed.

Arguments _execute_task : simpl never.

(** ** Invariants of the dispatcher

    A property of the state that every primitive step keeps is kept by a
    whole execution, whatever the fuel. *)

Section Invariant.
Variable I : State -> Prop.
Hypothesis I_disable : forall task_id task st,
  tasks st !! task_id = Some task -> max_runs_reached task = true ->
  I st -> I (disable_task task_id st).1.
Hypothesis I_invoked : forall task_id task st, I st -> I (invoked task_id task st).
Hypothesis I_retry : forall task_id task st, I st -> I (retry_state task_id task st).
Hypothesis I_finalize : forall task_id start s v err st,
  I st -> I (finalize task_id start s v err st).1.

Lemma run_dependencies_invariant exec deps :
  (forall d s s' r, exec d s = Some (s', r) -> I s -> I s') ->
  forall st st', run_dependencies exec deps st = Some st' -> I st -> I st'.
Proof using Type.
  intros Hexec. induction deps as [|d deps IH]; intros st st' Hrun Hst; simpl in Hrun.
  - by inversion Hrun; subst.
  - destruct (tasks st !! d) as [dep_task|]; [|by eauto].
    destruct (last_run dep_task); [by eauto|].
    destruct (exec d st) as [[s1 r1]|] eqn:E; [|done]. eauto.
Qed.

Lemma action_phase_invariant exec task_id task0 start :
  (forall d s s' r, exec d s = Some (s', r) -> I s -> I s') ->
  forall st st' r,
    action_phase exec task_id task0 start st = Some (st', r) -> I st -> I st'.
Proof using I_invoked I_retry I_finalize.
  intros Hexec st st' r Hact Hst. unfold action_phase in Hact.
  destruct (actions st !! _) as [h|].
  - destruct (h _ _) as [v|e].
    + final_state Hact. by apply I_finalize, I_invoked.
    + destruct (_ && _).
      * eapply Hexec; [exact Hact|]. by apply I_retry, I_invoked.
      * final_state Hact. by apply I_finalize, I_invoked.
  - final_state Hact. by apply I_finalize.
Qed.

Lemma _execute_task_invariant fuel :
  forall task_id st st' r,
    _execute_task fuel task_id st = Some (st', r) -> I st -> I st'.
Proof using All.
  induction fuel as [|fuel IH]; intros task_id st st' r Hex Hst; [done|].
  rewrite _execute_task_S in Hex.
  destruct (tasks st !! task_id) as [task|] eqn:Ht; [|by inversion Hex; subst].
  destruct (max_runs_reached task) eqn:Hcap.
  { final_state Hex. by eapply I_disable. }
  destruct (run_dependencies _ _ st) as [st1|] eqn:Hdeps; [|done].
  eapply action_phase_invariant; [exact IH|exact Hex|].
  eapply run_dependencies_invariant; [exact IH|exact Hdeps|done].
Qed.

Lemma emit_loop_invariant fuel data :
  (forall task_id st, I st -> I (inject_event_data task_id data st)) ->
  forall task_ids st st' fired,
    emit_loop fuel data task_ids st = Some (st', fired) -> I st -> I st'.
Proof using All.
  intros Hinj. induction task_ids as [|t ts IH]; intros st st' fired Hrun Hst;
    simpl in Hrun.
  - by inversion Hrun; subst.
  - destruct (tasks st !! t) as [task|]; [|by eauto].
    destruct (enabled task); [|by eauto].
    destruct (_execute_task _ _ _) as [[s1 r1]|] eqn:E; [|done].
    destruct (emit_loop _ _ ts s1) as [[s2 f2]|] eqn:E2; [|done].
    inversion Hrun; subst. eapply IH; [exact E2|].
    eapply _execute_task_invariant; [exact E|]. by apply Hinj.
Qed.

Lemma workflow_loop_invariant fuel :
  forall steps current_step acc st st' out,
    workflow_loop fuel steps current_step acc st = Some (st', out) ->
    I st -> I st'.
Proof using All.
  induction fuel as [|fuel IH]; intros stps cur acc st st' out Hrun Hst; [done|].
  simpl in Hrun. destruct (cur <? _); [|by inversion Hrun; subst].
  destruct (step_at stps cur) as [step|]; [|by inversion Hrun; subst].
  destruct (execute_step fuel step st) as [[s1 [r1|]]|] eqn:E; [| |done].
  - assert (I s1) as Hs1.
    { unfold execute_step in E. destruct (step_task_id step).
      - by eapply _execute_task_invariant.
      - by inversion E; subst. }
    destruct (next_pointer _ _ _); [by eauto|by inversion Hrun; subst].
  - inversion Hrun; subst. unfold execute_step in E.
    destruct (step_task_id step).
    + by eapply _execute_task_invariant.
    + by inversion E; subst.
Qed.
End Invariant.

(** ** The result log (C8) *)

Lemma append_result_overflow r (log : list TaskResult) :
  (1000 < length (log ++ [r]))%nat ->
  append_result r log = drop (length (log ++ [r]) - 500) (log ++ [r]) /\
  length (append_result r log) = 500%nat /\
  append_result r log `suffix_of` (log ++ [r]).
Proof.
  intros Hlen. unfold append_result.
  destruct (Nat.ltb_spec 1000 (length (log ++ [r]))) as [_|Hle]; [|lia].
  split; [done|]. split; [rewrite length_drop; lia|apply suffix_drop].
Qed.

Lemma append_result_fits r (log : list TaskResult) :
  (length (log ++ [r]) <= 1000)%nat -> append_result r log = log ++ [r].
Proof.
  intros Hlen. unfold append_result.
  by destruct (Nat.ltb_spec 1000 (length (log ++ [r]))) as [Hlt|_]; [lia|].
Qed.

Lemma append_result_bounded r (log : list TaskResult) :
  (length (append_result r log) <= 1000)%nat.
Proof.
  destruct (Nat.le_gt_cases (length (log ++ [r])) 1000) as [Hle|Hgt].
  - by rewrite append_result_fits.
  - destruct (append_result_overflow r log Hgt) as (_ & -> & _). lia.
Qed.

Lemma append_result_last r (log : list TaskResult) :
  last (append_result r log) = Some r.
Proof.
  destruct (Nat.le_gt_cases (length (log ++ [r])) 1000) as [Hle|Hgt].
  - rewrite append_result_fits by done. apply last_snoc.
  - destruct (append_result_overflow r log Hgt) as (-> & _ & _).
    rewrite length_app in *. simpl in *.
    rewrite drop_app_le by lia. apply last_snoc.
Qed.

Lemma results_schedule task_id st : results (_schedule_task task_id st) = results st.
Proof.
  unfold _schedule_task. destruct (tasks st !! task_id) as [task|]; [|done].
  destruct (negb (enabled task)); [done|].
  by destruct (negb (_create_trigger task)).
Qed.

Lemma results_disable task_id st : results (disable_task task_id st).1 = results st.
Proof. by destruct (disable_task_fst task_id st) as [-> | ->]. Qed.

Lemma log_bounded_execute fuel task_id st st' r :
  _execute_task fuel task_id st = Some (st', r) -> log_bounded st -> log_bounded st'.
Proof.
  apply (_execute_task_invariant log_bounded); unfold log_bounded.
  - intros. by rewrite results_disable.
  - done.
  - done.
  - intros. simpl. apply append_result_bounded.
Qed.

Lemma log_bounded_op st st' : engine_op st st' -> log_bounded st -> log_bounded st'.
Proof.
  assert (forall t (task : ScheduledTask) s,
            tasks s !! t = Some task -> max_runs_reached task = true ->
            log_bounded s -> log_bounded (disable_task t s).1) as Hdis.
  { unfold log_bounded. intros. by rewrite results_disable. }
  assert (forall t start s v err st0,
            log_bounded st0 -> log_bounded (finalize t start s v err st0).1) as Hfin.
  { unfold log_bounded. intros. simpl. apply append_result_bounded. }
  unfold log_bounded in *.
  destruct 1 as [task|task_id|task_id|task_id|nm func|ev task_id
                 |fuel task_id st' r Hex|fuel ev data st' fired Hev
                 |fuel wid st' out Hwf]; intros Hst.
  - unfold add_task. simpl. destruct (enabled task); simpl;
      by rewrite ?results_schedule.
  - unfold remove_task. by destruct (tasks st !! task_id).
  - unfold enable_task. destruct (tasks st !! task_id); [|done].
    simpl. by rewrite results_schedule.
  - by rewrite results_disable.
  - done.
  - done.
  - by eapply log_bounded_execute.
  - unfold emit_event in Hev.
    by eapply (emit_loop_invariant (fun s => length (results s) <= 1000)%nat);
      [exact Hdis|done|done|exact Hfin|done|exact Hev|].
  - unfold run_workflow in Hwf. destruct (workflows st !! wid).
    + by eapply (workflow_loop_invariant (fun s => length (results s) <= 1000)%nat);
        [exact Hdis|done|done|exact Hfin|exact Hwf|].
    + by inversion Hwf; subst.
Qed.

(** C8.  In every state the engine can reach, the result log holds at most
    1000 entries; and an append that takes the log past 1000 entries leaves
    exactly its 500 most recent entries, in their order (a suffix of the
    extended log). *)
Theorem result_log_bounded :
  (forall st, reachable st -> (length (results st) <= 1000)%nat) /\
  (forall r (log : list TaskResult),
     (1000 < length (log ++ [r]))%nat ->
     append_result r log = drop (length (log ++ [r]) - 500) (log ++ [r]) /\
     length (append_result r log) = 500%nat /\
     append_result r log `suffix_of` (log ++ [r])).
Proof.
  split; [|exact append_result_overflow].
  induction 1 as [st Hinit|st st' _ IH Hop].
  - rewrite Hinit. simpl. lia.
  - by eapply log_bounded_op.
Qed.

(** ** Task store operations (C10) *)

Lemma tasks_schedule_other task_id other st :
  other ≠ task_id -> tasks (_schedule_task task_id st) !! other = tasks st !! other.
Proof.
  intros Hne. unfold _schedule_task.
  destruct (tasks st !! task_id) as [task|]; [|done].
  destruct (negb (enabled task)); [done|].
  destruct (negb (_create_trigger task)); [done|].
  simpl. by rewrite lookup_alter_ne.
Qed.

(** C10.  On an id that is not in the task store, [remove_task],
    [enable_task] and [disable_task] return [False] and change nothing; on
    an id that is present, [remove_task] returns [True], [get_task] then
    returns [None] for it, and every other task is as before. *)
Theorem store_ops_by_id (task_id : string) (st : State) :
  (get_task task_id st = None ->
     remove_task task_id st = (st, false) /\
     enable_task task_id st = (st, false) /\
     disable_task task_id st = (st, false)) /\
  (is_Some (get_task task_id st) ->
     (remove_task task_id st).2 = true /\
     get_task task_id (remove_task task_id st).1 = None /\
     forall other, other ≠ task_id ->
       get_task other (remove_task task_id st).1 = get_task other st).
Proof.
  unfold get_task, remove_task, enable_task, disable_task. split.
  - by intros ->.
  - intros [task ->]. simpl. split; [done|]. split.
    + apply lookup_delete_eq.
    + intros other Hne. by apply lookup_delete_ne.
Qed.

(** ** What an execution never changes *)

Lemma evolves_refl t : evolves t t.
Proof. unfold evolves. split_and!; auto; lia. Qed.

Lemma evolves_trans t1 t2 t3 : evolves t1 t2 -> evolves t2 t3 -> evolves t1 t3.
Proof.
  unfold evolves.
  intros (?&?&?&?&?&?&H12&?) (?&?&?&?&?&?&H23&?).
  split_and!; try congruence; try lia.
  intros Hn. destruct (H23 Hn) as [Hm ?]. destruct (H12 Hm). split; [done|lia].
Qed.

Lemma store_evolves_refl m : store_evolves m m.
Proof. intros x. destruct (m !! x); [apply evolves_refl|done]. Qed.

Lemma store_evolves_trans m1 m2 m3 :
  store_evolves m1 m2 -> store_evolves m2 m3 -> store_evolves m1 m3.
Proof.
  intros H12 H23 x. specialize (H12 x). specialize (H23 x).
  destruct (m1 !! x), (m2 !! x), (m3 !! x); try done.
  by eapply evolves_trans.
Qed.

Lemma store_evolves_alter f task_id m :
  (forall t, evolves t (f t)) -> store_evolves m (alter f task_id m).
Proof.
  intros Hf x. destruct (decide (task_id = x)) as [->|Hne].
  - rewrite lookup_alter_eq. destruct (m !! x); simpl; [apply Hf|done].
  - rewrite lookup_alter_ne by done. destruct (m !! x); [apply evolves_refl|done].
Qed.

Lemma store_evolves_lookup m m' x t' :
  store_evolves m m' -> m' !! x = Some t' ->
  exists t, m !! x = Some t /\ evolves t t'.
Proof.
  intros H Hx. specialize (H x). rewrite Hx in H.
  destruct (m !! x) as [t|]; [eauto|done].
Qed.

Lemma store_evolves_lookup_fwd m m' x t :
  store_evolves m m' -> m !! x = Some t ->
  exists t', m' !! x = Some t' /\ evolves t t'.
Proof.
  intros H Hx. specialize (H x). rewrite Hx in H.
  destruct (m' !! x) as [t'|]; [eauto|done].
Qed.

Lemma extends_refl st : extends st st.
Proof. unfold extends. auto using store_evolves_refl. Qed.

Lemma extends_trans st1 st2 st3 : extends st1 st2 -> extends st2 st3 -> extends st1 st3.
Proof.
  unfold extends. intros (?&?&?&?&?) (?&?&?&?&?).
  split_and!; try congruence. by eapply store_evolves_trans.
Qed.

Lemma extends_disable task_id st : extends st (disable_task task_id st).1.
Proof.
  destruct (disable_task_fst task_id st) as [-> | ->]; [apply extends_refl|].
  unfold extends. simpl. split_and!; try done.
  apply store_evolves_alter. intros t. unfold evolves. simpl.
  split_and!; auto; lia.
Qed.

Lemma extends_invoked task_id task st : extends st (invoked task_id task st).
Proof. unfold extends. simpl. auto using store_evolves_refl. Qed.

Lemma extends_retry task_id task st : extends st (retry_state task_id task st).
Proof.
  unfold extends. simpl. split_and!; try done.
  apply store_evolves_alter. intros t. unfold evolves. simpl.
  split_and!; auto; lia.
Qed.

Lemma extends_finalize task_id start s v err st :
  extends st (finalize task_id start s v err st).1.
Proof.
  unfold extends. simpl. split_and!; try done.
  apply store_evolves_alter. intros t. unfold evolves. simpl.
  split_and!; auto; try done; lia.
Qed.

Lemma _execute_task_extends fuel task_id st st' r :
  _execute_task fuel task_id st = Some (st', r) -> extends st st'.
Proof.
  intros Hex.
  apply (_execute_task_invariant (extends st)) with fuel task_id st r;
    eauto using extends_refl, extends_trans, extends_disable, extends_invoked,
      extends_retry, extends_finalize.
Qed.

Lemma run_dependencies_extends fuel deps st st' :
  run_dependencies (_execute_task fuel) deps st = Some st' -> extends st st'.
Proof.
  intros Hrun.
  apply (run_dependencies_invariant (extends st)) with (_execute_task fuel) deps st;
    eauto using extends_refl.
  intros d s s' r Hex Hs. eapply extends_trans; [exact Hs|].
  by eapply _execute_task_extends.
Qed.

Lemma ranked_extends rk st st' : ranked rk st -> extends st st' -> ranked rk st'.
Proof.
  intros Hrk (_&_&_&_&Hev) t task' d dep' Ht Hd Hdep Hnever.
  destruct (store_evolves_lookup _ _ _ _ Hev Ht) as (task & Ht0 & Het).
  destruct (store_evolves_lookup _ _ _ _ Hev Hdep) as (dep & Hd0 & Hed).
  destruct Het as (_&_&_&_&_&Hdeps&_). destruct Hed as (_&_&_&_&_&_&Hlr&_).
  eapply Hrk; [exact Ht0| |exact Hd0|by apply Hlr]. by rewrite <- Hdeps.
Qed.

(** ** More fuel never changes a result *)

Lemma run_dependencies_mono exec exec' deps :
  (forall d s x, exec d s = Some x -> exec' d s = Some x) ->
  forall st st1,
    run_dependencies exec deps st = Some st1 ->
    run_dependencies exec' deps st = Some st1.
Proof.
  intros Hsub. induction deps as [|d deps IH]; intros st st1 Hrun; simpl in *; [done|].
  destruct (tasks st !! d) as [dep_task|]; [|by auto].
  destruct (last_run dep_task); [by auto|].
  destruct (exec d st) as [[s1 r1]|] eqn:E; [|done].
  rewrite (Hsub _ _ _ E). by auto.
Qed.

Lemma action_phase_mono exec exec' task_id task0 start st x :
  (forall d s y, exec d s = Some y -> exec' d s = Some y) ->
  action_phase exec task_id task0 start st = Some x ->
  action_phase exec' task_id task0 start st = Some x.
Proof.
  intros Hsub. unfold action_phase.
  destruct (actions st !! _) as [h|]; [|done].
  destruct (h _ _); [done|]. destruct (_ && _); [|done]. apply Hsub.
Qed.

Lemma _execute_task_mono fuel :
  forall fuel' task_id st x,
    (fuel <= fuel')%nat ->
    _execute_task fuel task_id st = Some x ->
    _execute_task fuel' task_id st = Some x.
Proof.
  induction fuel as [|fuel IH]; intros fuel' task_id st x Hle Hex; [done|].
  destruct fuel' as [|fuel']; [lia|].
  assert (forall d s y, _execute_task fuel d s = Some y ->
                        _execute_task fuel' d s = Some y) as Hsub.
  { intros d s y. apply IH. lia. }
  rewrite _execute_task_S in *.
  destruct (tasks st !! task_id) as [task|]; [|done].
  destruct (max_runs_reached task); [done|].
  destruct (run_dependencies (_execute_task fuel) _ st) as [st1|] eqn:Hdeps; [|done].
  rewrite (run_dependencies_mono _ _ _ Hsub _ _ Hdeps).
  by eapply action_phase_mono.
Qed.

(** ** Only the task and its pending dependencies are touched *)

Lemma confined_refl P st : confined P st st.
Proof. split; [done|]. exists []. by rewrite app_nil_r. Qed.

Lemma confined_trans P st1 st2 st3 :
  confined P st1 st2 -> confined P st2 st3 -> confined P st1 st3.
Proof.
  intros [Hf1 (n1 & Ht1 & Hn1)] [Hf2 (n2 & Ht2 & Hn2)]. split.
  - intros x Hx. by rewrite Hf2, Hf1.
  - exists (n1 ++ n2). split.
    + by rewrite Ht2, Ht1, app_assoc.
    + by apply Forall_app.
Qed.

Lemma confined_weaken (P Q : string -> Prop) st st' :
  (forall x, P x -> Q x) -> confined P st st' -> confined Q st st'.
Proof.
  intros HPQ [Hf (n & Ht & Hn)]. split.
  - intros x Hx. apply Hf. auto.
  - exists n. split; [done|]. eapply Forall_impl; [exact Hn|].
    intros e He y Hy. auto.
Qed.

Lemma confined_disable (P : string -> Prop) task_id st :
  P task_id -> confined P st (disable_task task_id st).1.
Proof.
  intros HP. destruct (disable_task_fst task_id st) as [-> | ->];
    [apply confined_refl|]. split; simpl.
  - intros x Hx. apply lookup_alter_ne. by intros ->.
  - eexists. split; [done|]. by repeat constructor.
Qed.

Lemma confined_invoked (P : string -> Prop) task_id task st :
  P task_id -> confined P st (invoked task_id task st).
Proof.
  intros HP. split; simpl; [done|]. eexists. split; [done|].
  repeat constructor. simpl. by intros y [= <-].
Qed.

Lemma confined_retry (P : string -> Prop) task_id task st :
  P task_id -> confined P st (retry_state task_id task st).
Proof.
  intros HP. split; simpl.
  - intros x Hx. apply lookup_alter_ne. by intros ->.
  - eexists. split; [done|]. repeat constructor. simpl. by intros y [= <-].
Qed.

Lemma confined_finalize (P : string -> Prop) task_id start s v err st :
  P task_id -> confined P st (finalize task_id start s v err st).1.
Proof.
  intros HP. split; simpl.
  - intros x Hx. apply lookup_alter_ne. by intros ->.
  - eexists. split; [by rewrite <- app_assoc|].
    repeat constructor; simpl; [by intros y [= <-]|done].
Qed.

Lemma within_self rk task_id : within rk task_id task_id.
Proof. by left. Qed.

Lemma within_lower rk d n x :
  (rk d < n)%nat -> within rk d x -> (rk x < n)%nat.
Proof. intros Hd [-> | Hx]; lia. Qed.

Lemma pending_below_extends rk n deps st st' :
  pending_below rk n deps st -> extends st st' -> pending_below rk n deps st'.
Proof.
  intros Hp (_&_&_&_&Hev) d dep' Hd Hdep Hnever.
  destruct (store_evolves_lookup _ _ _ _ Hev Hdep) as (dep & Hd0 & Hed).
  destruct Hed as (_&_&_&_&_&_&Hlr&_). eapply Hp; [done|exact Hd0|by apply Hlr].
Qed.

Lemma pending_below_ranked rk st task_id task :
  ranked rk st -> tasks st !! task_id = Some task ->
  pending_below rk (rk task_id) (dependencies task) st.
Proof. intros Hrk Ht d dep Hd Hdep Hnever. by eapply Hrk. Qed.

Lemma run_dependencies_confined rk n fuel deps :
  (forall d s s' r, ranked rk s -> _execute_task fuel d s = Some (s', r) ->
                    confined (within rk d) s s') ->
  forall st st1,
    ranked rk st -> pending_below rk n deps st ->
    run_dependencies (_execute_task fuel) deps st = Some st1 ->
    confined (fun x => (rk x < n)%nat) st st1.
Proof.
  intros Hexec. induction deps as [|d deps IH]; intros st st1 Hrk Hp Hrun;
    simpl in Hrun.
  - inversion Hrun; subst. apply confined_refl.
  - assert (pending_below rk n deps st) as Hp'.
    { intros d' dep' Hd'. apply Hp. by right. }
    destruct (tasks st !! d) as [dep_task|] eqn:Hd; [|by eauto].
    destruct (last_run dep_task) eqn:Hlr; [by eauto|].
    destruct (_execute_task fuel d st) as [[s1 r1]|] eqn:E; [|done].
    assert (rk d < n)%nat as Hlt by (eapply Hp; [by left|exact Hd|exact Hlr]).
    pose proof (_execute_task_extends _ _ _ _ _ E) as Hext.
    eapply confined_trans.
    + eapply confined_weaken; [|by eapply Hexec].
      intros x. by apply within_lower.
    + apply IH; [by eapply ranked_extends|by eapply pending_below_extends|done].
Qed.

Lemma _execute_task_confined rk fuel :
  forall task_id st st' r,
    ranked rk st -> _execute_task fuel task_id st = Some (st', r) ->
    confined (within rk task_id) st st'.
Proof.
  induction fuel as [|fuel IH]; intros task_id st st' r Hrk Hex; [done|].
  rewrite _execute_task_S in Hex.
  destruct (tasks st !! task_id) as [task|] eqn:Ht;
    [|inversion Hex; subst; apply confined_refl].
  destruct (max_runs_reached task).
  { final_state Hex. apply confined_disable, within_self. }
  destruct (run_dependencies _ _ st) as [st1|] eqn:Hdeps; [|done].
  pose proof (run_dependencies_extends _ _ _ _ Hdeps) as Hext.
  assert (confined (within rk task_id) st st1) as Hc1.
  { eapply confined_weaken;
      [|eapply (run_dependencies_confined rk (rk task_id)); eauto].
    - intros x Hx. by right.
    - by eapply pending_below_ranked. }
  eapply confined_trans; [exact Hc1|]. clear Hc1.
  assert (ranked rk st1) as Hrk1 by (by eapply ranked_extends).
  unfold action_phase in Hex.
  destruct (actions st1 !! _) as [h|].
  - destruct (h _ _).
    + final_state Hex. eapply confined_trans;
        [apply confined_invoked|apply confined_finalize]; apply within_self.
    + destruct (_ && _).
      * eapply confined_trans; [apply confined_invoked, within_self|].
        eapply confined_trans; [apply confined_retry, within_self|].
        eapply IH; [|exact Hex].
        eapply ranked_extends; [exact Hrk1|].
        eapply extends_trans; [apply extends_invoked|apply extends_retry].
      * final_state Hex. eapply confined_trans;
          [apply confined_invoked|apply confined_finalize]; apply within_self.
  - final_state Hex. apply confined_finalize, within_self.
Qed.

(** ** Termination on well-founded dependencies *)

Lemma run_dependencies_terminates rk n deps :
  (forall d s, (rk d < n)%nat -> ranked rk s ->
               exists fuel, is_Some (_execute_task fuel d s)) ->
  forall st,
    ranked rk st -> pending_below rk n deps st ->
    exists fuel st1, run_dependencies (_execute_task fuel) deps st = Some st1.
Proof.
  intros Hlow. induction deps as [|d deps IH]; intros st Hrk Hp.
  - by exists 0%nat, st.
  - assert (pending_below rk n deps st) as Hp'.
    { intros d' dep' Hd'. apply Hp. by right. }
    simpl. destruct (tasks st !! d) as [dep_task|] eqn:Hd; [|by apply IH].
    destruct (last_run dep_task) eqn:Hlr; [by apply IH|].
    assert (rk d < n)%nat as Hlt by (eapply Hp; [by left|exact Hd|exact Hlr]).
    destruct (Hlow d st Hlt Hrk) as (f1 & [s1 r1] & E1).
    pose proof (_execute_task_extends _ _ _ _ _ E1) as Hext.
    destruct (IH s1) as (f2 & st1 & E2);
      [by eapply ranked_extends|by eapply pending_below_extends|].
    exists (f1 `max` f2)%nat, st1.
    rewrite (_execute_task_mono f1 (f1 `max` f2) d st (s1, r1)) by (done || lia).
    eapply run_dependencies_mono; [|exact E2].
    intros d' s y. apply _execute_task_mono. lia.
Qed.

Lemma task_object_stored task_id task0 task st :
  tasks st !! task_id = Some task -> task_object task_id task0 st = task.
Proof. unfold task_object. by intros ->. Qed.

(** One attempt, given that lower-ranked executions terminate: the
    dependency loop ends in a state [st1] that left the task itself alone,
    and the execution continues with the action phase there. *)
Lemma attempt_unfold_below rk st task_id task :
  (forall d s, (rk d < rk task_id)%nat -> ranked rk s ->
               exists fuel, is_Some (_execute_task fuel d s)) ->
  ranked rk st -> tasks st !! task_id = Some task ->
  max_runs_reached task = false ->
  exists fuel0 st1,
    extends st st1 /\
    confined (fun x => (rk x < rk task_id)%nat) st st1 /\
    tasks st1 !! task_id = Some task /\
    forall fuel, (fuel0 <= fuel)%nat ->
      _execute_task (S fuel) task_id st =
      action_phase (_execute_task fuel) task_id task (now st) st1.
Proof.
  intros Hlow Hrk Ht Hcap.
  pose proof (pending_below_ranked _ _ _ _ Hrk Ht) as Hp.
  destruct (run_dependencies_terminates rk _ _ Hlow st Hrk Hp) as (f0 & st1 & Hdeps).
  pose proof (run_dependencies_extends _ _ _ _ Hdeps) as Hext.
  assert (confined (fun x => (rk x < rk task_id)%nat) st st1) as Hc.
  { eapply run_dependencies_confined; [|exact Hrk|exact Hp|exact Hdeps].
    intros d s s' r. apply _execute_task_confined. }
  exists f0, st1. split; [done|]. split; [done|]. split.
  { destruct Hc as [Hf _]. rewrite Hf; [done|lia]. }
  intros fuel Hle. rewrite _execute_task_S, Ht, Hcap.
  erewrite run_dependencies_mono; [done| |exact Hdeps].
  intros d s y. by apply _execute_task_mono.
Qed.

Lemma retry_state_lookup task_id task st :
  tasks st !! task_id = Some task ->
  tasks (retry_state task_id task (invoked task_id task st)) !! task_id =
    Some (set_retry_count (retry_count task - 1) task).
Proof. intros Ht. simpl. by rewrite lookup_alter_eq, Ht. Qed.

Lemma ranked_retry rk task_id task st :
  ranked rk st -> ranked rk (retry_state task_id task (invoked task_id task st)).
Proof.
  intros Hrk. eapply ranked_extends; [exact Hrk|].
  eapply extends_trans; [apply extends_invoked|apply extends_retry].
Qed.

Lemma _execute_task_terminates_below rk n :
  forall task_id st,
    (rk task_id < n)%nat -> ranked rk st ->
    exists fuel, is_Some (_execute_task fuel task_id st).
Proof.
  induction n as [|n IHn]; intros task_id st Hlt Hrk; [lia|].
  assert (forall d s, (rk d < rk task_id)%nat -> ranked rk s ->
                      exists fuel, is_Some (_execute_task fuel d s)) as Hlow.
  { intros d s Hd. apply IHn. lia. }
  destruct (tasks st !! task_id) as [task|] eqn:Ht;
    [|by exists 1%nat; rewrite _execute_task_S, Ht].
  remember (Z.to_nat (retry_count task)) as b eqn:Hb.
  assert (Z.to_nat (retry_count task) <= b)%nat as Hle by lia. clear Hb.
  revert st task Hrk Ht Hle.
  induction b as [|b IHb]; intros st task Hrk Ht Hle.
  all: destruct (max_runs_reached task) eqn:Hcap;
    [by exists 1%nat; rewrite _execute_task_S, Ht, Hcap|].
  all: destruct (attempt_unfold_below rk st task_id task Hlow Hrk Ht Hcap)
    as (f0 & st1 & Hext & Hc & Ht1 & Hun).
  all: assert (ranked rk st1) as Hrk1 by (by eapply ranked_extends).
  all: unfold action_phase in Hun; cbv zeta in Hun;
    rewrite (task_object_stored _ _ _ _ Ht1) in Hun.
  all: destruct (actions st1 !! action task) as [h|] eqn:Hact;
    [|by exists (S f0); rewrite Hun].
  all: destruct (h (calls st1) (action_params task)) as [v|e] eqn:Hh;
    [by exists (S f0); rewrite Hun|].
  all: destruct (retry_on_fail task && (0 <? retry_count task)) eqn:Hretry;
    [|by exists (S f0); rewrite Hun].
  all: apply andb_true_iff in Hretry as [_ Hpos]; apply Z.ltb_lt in Hpos.
  - lia.
  - destruct (IHb (retry_state task_id task (invoked task_id task st1))
                (set_retry_count (retry_count task - 1) task))
      as (f2 & x & E2).
    + by apply ranked_retry.
    + by apply retry_state_lookup.
    + simpl. lia.
    + exists (S (f0 `max` f2)). rewrite Hun by lia.
      rewrite (_execute_task_mono f2 _ _ _ x) by (done || lia). done.
Qed.

Lemma _execute_task_terminates rk task_id st :
  ranked rk st -> exists fuel, is_Some (_execute_task fuel task_id st).
Proof. apply (_execute_task_terminates_below rk (S (rk task_id))). lia. Qed.

(** One attempt of a registered task that is not run-capped. *)
Lemma attempt_unfold rk st task_id task :
  ranked rk st -> tasks st !! task_id = Some task ->
  max_runs_reached task = false ->
  exists fuel0 st1,
    extends st st1 /\
    confined (fun x => (rk x < rk task_id)%nat) st st1 /\
    tasks st1 !! task_id = Some task /\
    forall fuel, (fuel0 <= fuel)%nat ->
      _execute_task (S fuel) task_id st =
      action_phase (_execute_task fuel) task_id task (now st) st1.
Proof.
  intros Hrk. apply attempt_unfold_below; [|done].
  intros d s _. apply _execute_task_terminates.
Qed.

(** ** What one firing does for its own task *)

Lemma own_steps_app task_id tr1 tr2 :
  own_steps task_id (tr1 ++ tr2) = own_steps task_id tr1 ++ own_steps task_id tr2.
Proof. apply omap_app. Qed.

Lemma own_steps_foreign (P : string -> Prop) task_id tr :
  Forall (fun e => forall y, subject e = Some y -> P y) tr ->
  ~ P task_id -> own_steps task_id tr = [].
Proof.
  intros Hall HP. induction Hall as [|e tr He _ IH]; [done|].
  assert (own_step task_id e = None) as Hnone.
  { destruct e as [t p s|t secs|r|s]; simpl in *; try done;
      case_decide; try done; subst; exfalso; apply HP; by apply He. }
  unfold own_steps in *. simpl. by rewrite Hnone.
Qed.

Lemma finalize_facts task_id start s v err st task :
  tasks st !! task_id = Some task ->
  exists r st',
    finalize task_id start s v err st = (st', Some r) /\
    res_task_id r = task_id /\ status r = s /\ result r = v /\ error r = err /\
    tasks st' !! task_id = Some (mark_run start task) /\
    trace st' = trace st ++ [EvFinal r; EvSave (tasks st')] /\
    own_steps task_id [EvFinal r; EvSave (tasks st')] = [OwnFinal s] /\
    last (results st') = Some r.
Proof.
  intros Ht. eexists _, _. split; [reflexivity|]. simpl.
  split_and!; try done.
  - by rewrite lookup_alter_eq, Ht.
  - by rewrite <- app_assoc.
  - unfold own_steps. simpl. by rewrite decide_True.
  - apply append_result_last.
Qed.

Lemma own_steps_invoke task_id params store :
  own_steps task_id [EvInvoke task_id params store] = [OwnAttempt].
Proof. unfold own_steps. simpl. by rewrite decide_True. Qed.

Lemma own_steps_invoke_sleep task_id params store secs :
  own_steps task_id [EvInvoke task_id params store; EvSleep task_id secs] =
    [OwnAttempt; OwnSleep secs].
Proof. unfold own_steps. simpl. by rewrite !decide_True. Qed.

(** C9 (amended).  A registered task that passes the run-cap gate and
    whose action name is not in the registry (dependencies well founded, so
    that the execution returns): the execution returns one TaskResult,
    Failed, whose error names the unknown action; on behalf of the task it
    does nothing but finalise that result -- no handler call, no back-off
    sleep -- and the retry budget is what it was, whatever [retry_on_fail]
    and [retry_count] are. *)
Theorem unknown_action_fails_without_retry (st : State) (task_id : string)
    (task : ScheduledTask) :
  acyclic st ->
  tasks st !! task_id = Some task ->
  max_runs_reached task = false ->
  actions st !! action task = None ->
  exists fuel st' r new task',
    _execute_task fuel task_id st = Some (st', Some r) /\
    status r = FAILED /\
    error r = Some ("Nieznana akcja: " +:+ action task) /\
    trace st' = trace st ++ new /\
    own_steps task_id new = [OwnFinal FAILED] /\
    last (results st') = Some r /\
    tasks st' !! task_id = Some task' /\
    retry_count task' = retry_count task /\
    run_count task' = run_count task + 1.
Proof.
  intros [rk Hrk] Ht Hcap Hact.
  destruct (attempt_unfold rk st task_id task Hrk Ht Hcap)
    as (f0 & st1 & Hext & Hc & Ht1 & Hun).
  destruct Hext as (Hacts & _). destruct Hc as (_ & new1 & Htr1 & Hnew1).
  specialize (Hun f0 (Nat.le_refl _)).
  unfold action_phase in Hun. cbv zeta in Hun.
  rewrite (task_object_stored _ _ _ _ Ht1), Hacts, Hact in Hun.
  destruct (finalize_facts task_id (now st) FAILED VNone
              (Some ("Nieznana akcja: " +:+ action task)) st1 task Ht1)
    as (r & st' & Hfin & Hid & Hst & _ & Herr & Ht' & Htr & Hown & Hlast).
  rewrite Hfin in Hun.
  exists (S f0), st', r, (new1 ++ [EvFinal r; EvSave (tasks st')]), (mark_run (now st) task).
  split_and!; try done.
  - by rewrite Htr, Htr1, app_assoc.
  - rewrite own_steps_app, Hown.
    rewrite (own_steps_foreign _ _ _ Hnew1); [done|lia].
Qed.

Lemma retry_until_exhausted_ranked rk task_id h (k : nat) :
  always_raises h ->
  forall st task,
    ranked rk st ->
    tasks st !! task_id = Some task ->
    max_runs_reached task = false ->
    retry_on_fail task = true ->
    retry_count task = Z.of_nat k ->
    actions st !! action task = Some h ->
    exists fuel st' r new task',
      _execute_task fuel task_id st = Some (st', Some r) /\
      status r = FAILED /\
      trace st' = trace st ++ new /\
      own_steps task_id new =
        retries k (retry_delay task) ++ [OwnAttempt; OwnFinal FAILED] /\
      last (results st') = Some r /\
      tasks st' !! task_id = Some task' /\
      retry_count task' = 0 /\
      run_count task' = run_count task + 1.
Proof.
  intros Hh. induction k as [|k IH]; intros st task Hrk Ht Hcap Hretry Hk Hact.
  all: destruct (attempt_unfold rk st task_id task Hrk Ht Hcap)
    as (f0 & st1 & Hext & Hc & Ht1 & Hun).
  all: pose proof (ranked_extends _ _ _ Hrk Hext) as Hrk1.
  all: destruct Hext as (Hacts & _); destruct Hc as (_ & new1 & Htr1 & Hnew1).
  all: pose proof (own_steps_foreign _ task_id _ Hnew1 (Nat.lt_irrefl _)) as Hown1.
  all: unfold action_phase in Hun; cbv zeta in Hun;
    rewrite (task_object_stored _ _ _ _ Ht1), Hacts, Hact in Hun.
  all: destruct (Hh (calls st1) (action_params task)) as [e He];
    rewrite He, Hretry, Hk in Hun; simpl in Hun.
  - destruct (finalize_facts task_id (now st) FAILED VNone (Some e)
                (invoked task_id task st1) task Ht1)
      as (r & st' & Hfin & Hid & Hst & _ & Herr & Ht' & Htr & Hown & Hlast).
    specialize (Hun f0 (Nat.le_refl _)). rewrite Hfin in Hun.
    exists (S f0), st', r,
      (new1 ++ [EvInvoke task_id (action_params task) (tasks st1)]
            ++ [EvFinal r; EvSave (tasks st')]),
      (mark_run (now st) task).
    split_and!; try done.
    + rewrite Htr. simpl. rewrite Htr1. by rewrite <- !app_assoc.
    + by rewrite !own_steps_app, Hown1, Hown, own_steps_invoke.
  - replace (0 <? Z.of_nat (S k)) with true in Hun by (symmetry; apply Z.ltb_lt; lia).
    set (st2 := retry_state task_id task (invoked task_id task st1)) in *.
    destruct (IH st2 (set_retry_count (retry_count task - 1) task))
      as (f2 & st' & r & new2 & task' & Hex & Hst & Htr & Hown & Hlast & Ht' & Hrc & Hrun).
    + by apply ranked_retry.
    + by apply retry_state_lookup.
    + done.
    + done.
    + simpl. lia.
    + simpl. by rewrite Hacts.
    + exists (S (f0 `max` f2)), st', r,
        (new1 ++ [EvInvoke task_id (action_params task) (tasks st1);
                  EvSleep task_id (retry_delay task)] ++ new2), task'.
      split_and!; try done.
      * rewrite Hun by lia. apply (_execute_task_mono f2); [lia|done].
      * rewrite Htr. unfold st2. simpl. rewrite Htr1. by rewrite <- !app_assoc.
      * rewrite !own_steps_app, Hown1, Hown, own_steps_invoke_sleep. done.
Qed.

(** C1 (amended).  A registered task that passes the run-cap gate, with
    [retry_on_fail = true], [retry_count = k] and a handler that raises on
    every call (dependencies well founded, so that the execution returns):
    one execution makes, on behalf of the task, [k] failed attempts each
    followed by a sleep of [retry_delay] seconds, then one last attempt,
    then finalises one Failed TaskResult, which is the newest entry of the
    result log; the retry budget ends at 0. *)
Theorem retry_until_exhausted (st : State) (task_id : string)
    (task : ScheduledTask) (h : Handler) (k : nat) :
  acyclic st ->
  tasks st !! task_id = Some task ->
  max_runs_reached task = false ->
  retry_on_fail task = true ->
  retry_count task = Z.of_nat k ->
  actions st !! action task = Some h ->
  always_raises h ->
  exists fuel st' r new task',
    _execute_task fuel task_id st = Some (st', Some r) /\
    status r = FAILED /\
    trace st' = trace st ++ new /\
    own_steps task_id new =
      retries k (retry_delay task) ++ [OwnAttempt; OwnFinal FAILED] /\
    last (results st') = Some r /\
    tasks st' !! task_id = Some task' /\
    retry_count task' = 0 /\
    run_count task' = run_count task + 1.
Proof.
  intros [rk Hrk] Ht Hcap Hretry Hk Hact Hh.
  by eapply retry_until_exhausted_ranked.
Qed.

(** ** Dependencies come first *)

Lemma max_runs_reached_evolves t t' :
  evolves t t' -> max_runs_reached t = true -> max_runs_reached t' = true.
Proof.
  intros (_&_&Hmax&_&_&_&_&Hrun). unfold max_runs_reached. rewrite Hmax.
  destruct (max_runs t) as [m|]; [|done].
  rewrite !andb_true_iff, !Z.leb_le. intros [? ?]. split; [done|lia].
Qed.

Lemma settled_evolves m m' d : store_evolves m m' -> settled m d -> settled m' d.
Proof.
  intros Hev. unfold settled. specialize (Hev d).
  destruct (m !! d) as [t|], (m' !! d) as [t'|]; try done.
  intros [Hran|Hcap].
  - left. intros Hnone. destruct Hev as (_&_&_&_&_&_&Hlr&_).
    by destruct (Hlr Hnone).
  - right. by eapply max_runs_reached_evolves.
Qed.

Lemma settled_extends st st' d :
  extends st st' -> settled (tasks st) d -> settled (tasks st') d.
Proof. intros (_&_&_&_&Hev). by apply settled_evolves. Qed.

Lemma settled_finalize task_id start s v err st :
  settled (tasks (finalize task_id start s v err st).1) task_id.
Proof.
  unfold settled. simpl. rewrite lookup_alter_eq.
  destruct (tasks st !! task_id); simpl; [by left|done].
Qed.

Lemma _execute_task_settles fuel :
  forall d st st' r,
    _execute_task fuel d st = Some (st', r) -> settled (tasks st') d.
Proof.
  induction fuel as [|fuel IH]; intros d st st' r Hex; [done|].
  rewrite _execute_task_S in Hex.
  destruct (tasks st !! d) as [task|] eqn:Ht.
  2:{ inversion Hex; subst. unfold settled. by rewrite Ht. }
  destruct (max_runs_reached task) eqn:Hcap.
  { final_state Hex. unfold settled, disable_task. rewrite Ht. simpl.
    rewrite lookup_alter_eq, Ht. simpl. by right. }
  destruct (run_dependencies _ _ st) as [st1|] eqn:Hdeps; [|done].
  unfold action_phase in Hex.
  destruct (actions st1 !! _) as [h|].
  - destruct (h _ _).
    + final_state Hex. apply settled_finalize.
    + destruct (_ && _); [by eapply IH|].
      final_state Hex. apply settled_finalize.
  - final_state Hex. apply settled_finalize.
Qed.

Lemma run_dependencies_settles fuel deps :
  forall st st1,
    run_dependencies (_execute_task fuel) deps st = Some st1 ->
    forall d, d ∈ deps -> settled (tasks st1) d.
Proof.
  induction deps as [|d0 deps IH]; intros st st1 Hrun d Hd.
  { by apply elem_of_nil in Hd. }
  simpl in Hrun. apply elem_of_cons in Hd as [->|Hd].
  - destruct (tasks st !! d0) as [dep_task|] eqn:Hd0.
    + destruct (last_run dep_task) eqn:Hlr.
      * eapply settled_extends; [by eapply run_dependencies_extends|].
        unfold settled. rewrite Hd0. left. by rewrite Hlr.
      * destruct (_execute_task fuel d0 st) as [[s1 r1]|] eqn:E; [|done].
        eapply settled_extends; [by eapply run_dependencies_extends|].
        by eapply _execute_task_settles.
    + eapply settled_extends; [by eapply run_dependencies_extends|].
      unfold settled. by rewrite Hd0.
  - destruct (tasks st !! d0) as [dep_task|]; [|by eauto].
    destruct (last_run dep_task); [by eauto|].
    destruct (_execute_task fuel d0 st) as [[s1 r1]|]; [by eauto|done].
Qed.

Lemma invoke_ok_mono m0 m1 e :
  store_evolves m0 m1 -> invoke_ok m1 e -> invoke_ok m0 e.
Proof.
  intros Hev. destruct e as [x p s| | |]; simpl; try done.
  intros [Hs Hrest]. split; [by eapply store_evolves_trans|done].
Qed.

Lemma traced_refl m0 st : traced m0 st st.
Proof. exists []. by rewrite app_nil_r. Qed.

Lemma traced_trans m0 st1 st2 st3 :
  traced m0 st1 st2 -> traced m0 st2 st3 -> traced m0 st1 st3.
Proof.
  intros (n1 & Ht1 & Hn1) (n2 & Ht2 & Hn2). exists (n1 ++ n2). split.
  - by rewrite Ht2, Ht1, app_assoc.
  - by apply Forall_app.
Qed.

Lemma traced_mono m0 m1 st st' :
  store_evolves m0 m1 -> traced m1 st st' -> traced m0 st st'.
Proof.
  intros Hev (n & Ht & Hn). exists n. split; [done|].
  eapply Forall_impl; [exact Hn|]. intros e. by apply invoke_ok_mono.
Qed.

Lemma traced_finalize m0 task_id start s v err st :
  traced m0 st (finalize task_id start s v err st).1.
Proof.
  eexists. simpl. split; [by rewrite <- app_assoc|]. by repeat constructor.
Qed.

Lemma traced_retry m0 task_id task st : traced m0 st (retry_state task_id task st).
Proof. eexists. simpl. split; [done|]. by repeat constructor. Qed.

Lemma _execute_task_traced fuel :
  forall task_id st st' r,
    _execute_task fuel task_id st = Some (st', r) -> traced (tasks st) st st'.
Proof.
  induction fuel as [|fuel IH]; intros task_id st st' r Hex; [done|].
  rewrite _execute_task_S in Hex.
  destruct (tasks st !! task_id) as [task|] eqn:Ht;
    [|inversion Hex; subst; apply traced_refl].
  destruct (max_runs_reached task).
  { final_state Hex. destruct (disable_task_fst task_id st) as [-> | ->];
      [apply traced_refl|]. eexists. simpl. split; [done|]. by repeat constructor. }
  destruct (run_dependencies _ _ st) as [st1|] eqn:Hdeps; [|done].
  pose proof (run_dependencies_extends _ _ _ _ Hdeps) as Hext.
  pose proof (run_dependencies_settles _ _ _ _ Hdeps) as Hsettled.
  assert (traced (tasks st) st st1) as Htr1.
  { apply (run_dependencies_invariant
             (fun s => extends st s /\ traced (tasks st) st s))
      with (_execute_task fuel) (dependencies task) st;
      [|exact Hdeps|by split; [apply extends_refl|apply traced_refl]].
    intros d s s' r' Hd [Hes Hts].
    pose proof (_execute_task_extends _ _ _ _ _ Hd) as Hes'. split.
    - by eapply extends_trans.
    - eapply traced_trans; [exact Hts|].
      eapply traced_mono; [|by eapply IH]. by destruct Hes as (_&_&_&_&?). }
  eapply traced_trans; [exact Htr1|]. clear Htr1.
  destruct Hext as (Ha & Hw & He & Hn & Hev).
  destruct (store_evolves_lookup_fwd _ _ _ _ Hev Ht) as (task1 & Ht1 & Hev1).
  assert (traced (tasks st) st1 (invoked task_id task1 st1)) as Hinv.
  { eexists. simpl. split; [done|]. repeat constructor; [done|].
    exists task1. split_and!; try done.
    intros d Hd. apply Hsettled.
    destruct Hev1 as (_&_&_&_&_&Hdeps1&_). by rewrite <- Hdeps1. }
  unfold action_phase in Hex. cbv zeta in Hex.
  rewrite (task_object_stored _ _ _ _ Ht1) in Hex.
  destruct (actions st1 !! _) as [h|].
  - destruct (h _ _).
    + final_state Hex. eapply traced_trans; [exact Hinv|apply traced_finalize].
    + destruct (_ && _).
      * eapply traced_trans; [exact Hinv|].
        eapply traced_trans; [apply traced_retry|].
        eapply traced_mono; [|by eapply IH].
        eapply store_evolves_trans; [exact Hev|].
        assert (extends st1 (retry_state task_id task1 (invoked task_id task1 st1)))
          as (_&_&_&_&?); [|done].
        eapply extends_trans; [apply extends_invoked|apply extends_retry].
      * final_state Hex. eapply traced_trans; [exact Hinv|apply traced_finalize].
  - final_state Hex. apply traced_finalize.
Qed.

(** When a task passes the run-cap gate, its dependencies are settled once
    its execution returns. *)
Lemma _execute_task_settles_dependencies fuel task_id st st' r task :
  _execute_task fuel task_id st = Some (st', r) ->
  tasks st !! task_id = Some task -> max_runs_reached task = false ->
  forall d, d ∈ dependencies task -> settled (tasks st') d.
Proof.
  destruct fuel as [|fuel]; [done|]. intros Hex Ht Hcap d Hd.
  rewrite _execute_task_S, Ht, Hcap in Hex.
  destruct (run_dependencies _ _ st) as [st1|] eqn:Hdeps; [|done].
  eapply settled_extends;
    [|eapply run_dependencies_settles; [exact Hdeps|exact Hd]].
  apply (action_phase_invariant (extends st1)) with
    (_execute_task fuel) task_id task (now st) st1 r;
    eauto using extends_refl, extends_trans, extends_invoked, extends_retry,
      extends_finalize.
  intros d' s s' r' Hd' Hs. eapply extends_trans; [exact Hs|].
  by eapply _execute_task_extends.
Qed.

Lemma settled_has_run m0 m d dep_task :
  store_evolves m0 m -> m0 !! d = Some dep_task ->
  max_runs_reached dep_task = false ->
  settled m d -> has_run m d.
Proof.
  intros Hev Hd Hcap. unfold settled, has_run.
  destruct (store_evolves_lookup_fwd _ _ _ _ Hev Hd) as (t' & -> & Het).
  destruct (last_run t') as [when|] eqn:Hlr; [by eauto|].
  intros [?|Hcap']; [done|]. exfalso.
  destruct Het as (_&_&Hmax&_&_&_&Hnone&_). destruct (Hnone Hlr) as [_ Hrun].
  unfold max_runs_reached in *. rewrite Hmax, Hrun in Hcap'. congruence.
Qed.

(** Every registered dependency that the run-cap gate does not turn away
    has run by the time the dependent's handler is called, and by the time
    the dependent's execution returns. *)
Lemma dependencies_first rk st task_id task :
  ranked rk st ->
  tasks st !! task_id = Some task ->
  exists fuel st' r new,
    _execute_task fuel task_id st = Some (st', r) /\
    trace st' = trace st ++ new /\
    (forall params store d dep_task,
       EvInvoke task_id params store ∈ new ->
       d ∈ dependencies task -> tasks st !! d = Some dep_task ->
       max_runs_reached dep_task = false -> has_run store d) /\
    (max_runs_reached task = false ->
     forall d dep_task,
       d ∈ dependencies task -> tasks st !! d = Some dep_task ->
       max_runs_reached dep_task = false -> has_run (tasks st') d).
Proof.
  intros Hrk Ht.
  destruct (_execute_task_terminates rk task_id st Hrk) as (fuel & [st' r] & Hex).
  destruct (_execute_task_traced _ _ _ _ _ Hex) as (new & Htr & Hnew).
  pose proof (_execute_task_extends _ _ _ _ _ Hex) as (_&_&_&_&Hev).
  exists fuel, st', r, new. split_and!; try done.
  - intros params store d dep_task Hin Hd Hdep Hcap.
    rewrite Forall_forall in Hnew. specialize (Hnew _ Hin). simpl in Hnew.
    destruct Hnew as (Hstore & t & Hlook & _ & Hsettled).
    destruct (store_evolves_lookup _ _ _ _ Hstore Hlook) as (t0 & Ht0 & Het).
    rewrite Ht in Ht0. injection Ht0 as <-.
    destruct Het as (_&_&_&_&_&Hdeps&_).
    eapply settled_has_run; [exact Hstore|exact Hdep|exact Hcap|].
    apply Hsettled. by rewrite Hdeps.
  - intros Hcap d dep_task Hd Hdep Hcapd.
    eapply settled_has_run; [exact Hev|exact Hdep|exact Hcapd|].
    by eapply _execute_task_settles_dependencies.
Qed.

(** C3 (amended).  Let [T] be a registered task with dependencies
    [[D1; D2]], both registered and both passing the run-cap gate
    (dependencies well founded, so that the execution returns).
    Executing [T] returns, and at every call of [T]'s own handler both [D1]
    and [D2] carry a [last_run] stamp, whether they completed or failed;
    when [T] itself passes the run-cap gate, they carry it in the final
    state as well. *)
Theorem dependencies_run_before_action (st : State) (T D1 D2 : string)
    (task d1 d2 : ScheduledTask) :
  acyclic st ->
  tasks st !! T = Some task ->
  dependencies task = [D1; D2] ->
  tasks st !! D1 = Some d1 -> max_runs_reached d1 = false ->
  tasks st !! D2 = Some d2 -> max_runs_reached d2 = false ->
  exists fuel st' r new,
    _execute_task fuel T st = Some (st', r) /\
    trace st' = trace st ++ new /\
    (forall params store,
       EvInvoke T params store ∈ new -> has_run store D1 /\ has_run store D2) /\
    (max_runs_reached task = false ->
     has_run (tasks st') D1 /\ has_run (tasks st') D2).
Proof.
  intros [rk Hrk] Ht Hdeps Hd1 Hc1 Hd2 Hc2.
  destruct (dependencies_first rk st T task Hrk Ht)
    as (fuel & st' & r & new & Hex & Htr & Hinv & Hfin).
  exists fuel, st', r, new. split_and!; try done.
  - intros params store Hin. split.
    + eapply Hinv; [exact Hin| |exact Hd1|exact Hc1]. rewrite Hdeps. set_solver.
    + eapply Hinv; [exact Hin| |exact Hd2|exact Hc2]. rewrite Hdeps. set_solver.
  - intros Hcap. split.
    + eapply Hfin; [done| |exact Hd1|exact Hc1]. rewrite Hdeps. set_solver.
    + eapply Hfin; [done| |exact Hd2|exact Hc2]. rewrite Hdeps. set_solver.
Qed.

(** ** The run cap (C2) *)

Lemma firing_counts rk task_id (b : nat) :
  forall st task,
    ranked rk st ->
    tasks st !! task_id = Some task ->
    max_runs_reached task = false ->
    (Z.to_nat (retry_count task) <= b)%nat ->
    exists fuel st' r task',
      _execute_task fuel task_id st = Some (st', Some r) /\
      tasks st' !! task_id = Some task' /\
      run_count task' = run_count task + 1 /\
      enabled task' = enabled task /\
      max_runs task' = max_runs task /\
      res_task_id r = task_id /\
      last (results st') = Some r.
Proof.
  induction b as [|b IHb]; intros st task Hrk Ht Hcap Hle.
  all: destruct (attempt_unfold rk st task_id task Hrk Ht Hcap)
    as (f0 & st1 & Hext & Hc & Ht1 & Hun).
  all: pose proof (ranked_extends _ _ _ Hrk Hext) as Hrk1.
  all: unfold action_phase in Hun; cbv zeta in Hun;
    rewrite (task_object_stored _ _ _ _ Ht1) in Hun.
  all: assert (forall s v err st0,
         tasks st0 !! task_id = Some task ->
         (forall fuel, (f0 <= fuel)%nat ->
            _execute_task (S fuel) task_id st =
              Some (finalize task_id (now st) s v err st0)) ->
         exists fuel st' r task',
           _execute_task fuel task_id st = Some (st', Some r) /\
           tasks st' !! task_id = Some task' /\
           run_count task' = run_count task + 1 /\
           enabled task' = enabled task /\
           max_runs task' = max_runs task /\
           res_task_id r = task_id /\
           last (results st') = Some r) as Hdone.
  1,3: intros s v err st0 Ht0 Heq;
    destruct (finalize_facts task_id (now st) s v err st0 task Ht0)
      as (r & st' & Hfin & Hid & _ & _ & _ & Ht' & _ & _ & Hlast);
    exists (S f0), st', r, (mark_run (now st) task);
    rewrite (Heq f0) by lia; rewrite Hfin; by split_and!.
  all: destruct (actions st1 !! action task) as [h|] eqn:Hact;
    [|refine (Hdone _ _ _ _ _ Hun); exact Ht1].
  all: destruct (h (calls st1) (action_params task)) as [v|e] eqn:Hh;
    [refine (Hdone _ _ _ _ _ Hun); exact Ht1|].
  all: destruct (retry_on_fail task && (0 <? retry_count task)) eqn:Hretry;
    [|refine (Hdone _ _ _ _ _ Hun); exact Ht1].
  all: apply andb_true_iff in Hretry as [_ Hpos]; apply Z.ltb_lt in Hpos.
  - lia.
  - destruct (IHb (retry_state task_id task (invoked task_id task st1))
                (set_retry_count (retry_count task - 1) task))
      as (f2 & st' & r & task' & Hex & Ht' & Hrun & Hen & Hmax & Hid & Hlast).
    + by apply ranked_retry.
    + by apply retry_state_lookup.
    + done.
    + simpl. lia.
    + exists (S (f0 `max` f2)), st', r, task'. split_and!; try done.
      rewrite Hun by lia. apply (_execute_task_mono f2); [lia|done].
Qed.

Lemma fire_times_mono fuel fuel' n task_id :
  (fuel <= fuel')%nat ->
  forall st x,
    fire_times fuel n task_id st = Some x -> fire_times fuel' n task_id st = Some x.
Proof.
  intros Hle. induction n as [|n IH]; intros st x Hf; simpl in *; [done|].
  destruct (_execute_task fuel task_id st) as [[s1 r1]|] eqn:E; [|done].
  rewrite (_execute_task_mono _ _ _ _ _ Hle E).
  destruct (fire_times fuel n task_id s1) as [[s2 rs]|] eqn:E2; [|done].
  by rewrite (IH _ _ E2).
Qed.

Lemma fire_until_cap rk task_id (N : Z) :
  N <> 0 ->
  forall (n : nat) st task,
    ranked rk st ->
    tasks st !! task_id = Some task ->
    max_runs task = Some N ->
    run_count task + Z.of_nat n = N ->
    exists fuel st1 rs task1,
      fire_times fuel n task_id st = Some (st1, rs) /\
      length rs = n /\ Forall is_Some rs /\
      tasks st1 !! task_id = Some task1 /\
      run_count task1 = N /\
      max_runs task1 = Some N /\
      enabled task1 = enabled task.
Proof.
  intros HN. induction n as [|n IH]; intros st task Hrk Ht Hmax Hrun.
  - exists 0%nat, st, [], task. split_and!; try done. lia.
  - assert (max_runs_reached task = false) as Hcap.
    { unfold max_runs_reached. rewrite Hmax. apply andb_false_iff. right.
      apply Z.leb_gt. lia. }
    destruct (firing_counts rk task_id _ st task Hrk Ht Hcap (Nat.le_refl _))
      as (f1 & s1 & r & task' & Hex & Ht' & Hrun' & Hen & Hmax' & _ & _).
    destruct (IH s1 task')
      as (f2 & st1 & rs & task1 & Hf & Hlen & Hall & Ht1 & Hr1 & Hm1 & He1).
    + eapply ranked_extends; [exact Hrk|by eapply _execute_task_extends].
    + done.
    + congruence.
    + lia.
    + exists (f1 `max` f2)%nat, st1, (Some r :: rs), task1.
      split_and!; try done.
      * simpl. rewrite (_execute_task_mono f1 _ _ _ (s1, Some r)) by (done || lia).
        by rewrite (fire_times_mono f2 _ _ _ (Nat.le_max_r _ _) _ _ Hf).
      * simpl. by rewrite Hlen.
      * by constructor.
      * congruence.
Qed.

Lemma fire_capped task_id fuel (m : nat) :
  forall st task,
    tasks st !! task_id = Some task ->
    max_runs_reached task = true ->
    exists st2 task2,
      fire_times (S fuel) m task_id st = Some (st2, replicate m None) /\
      results st2 = results st /\
      tasks st2 !! task_id = Some task2 /\
      run_count task2 = run_count task /\
      enabled task2 = match m with O => enabled task | S _ => false end.
Proof.
  induction m as [|m IH]; intros st task Ht Hcap.
  - exists st, task. by split_and!.
  - simpl. rewrite _execute_task_S, Ht, Hcap.
    destruct (IH (disable_task task_id st).1 (set_enabled false task))
      as (st2 & task2 & Hf & Hres & Ht2 & Hrun & Hen).
    + unfold disable_task. rewrite Ht. simpl. by rewrite lookup_alter_eq, Ht.
    + done.
    + exists st2, task2. rewrite Hf. split_and!; try done.
      * by rewrite Hres, results_disable.
      * rewrite Hen. by destruct m.
Qed.

(** C2 (amended).  A registered task with [max_runs = N], [N] not 0, that
    has so far run at most [N] times (dependencies well founded): the
    firings that bring [run_count] up to [N] each return a TaskResult and
    leave the [enabled] flag as it was; every firing after them returns no
    TaskResult, appends nothing to the result log, leaves [run_count] at
    [N], and the task is disabled from the first of them on. *)
Theorem run_cap_closes_on_next_firing (st : State) (task_id : string)
    (task : ScheduledTask) (N : Z) :
  acyclic st ->
  tasks st !! task_id = Some task ->
  max_runs task = Some N ->
  N <> 0 ->
  run_count task <= N ->
  exists fuel st1 rs task1,
    fire_times fuel (Z.to_nat (N - run_count task)) task_id st = Some (st1, rs) /\
    length rs = Z.to_nat (N - run_count task) /\
    Forall is_Some rs /\
    tasks st1 !! task_id = Some task1 /\
    run_count task1 = N /\
    enabled task1 = enabled task /\
    forall m : nat, exists st2 task2,
      fire_times fuel (S m) task_id st1 = Some (st2, replicate (S m) None) /\
      results st2 = results st1 /\
      tasks st2 !! task_id = Some task2 /\
      run_count task2 = N /\
      enabled task2 = false.
Proof.
  intros [rk Hrk] Ht Hmax HN Hle.
  destruct (fire_until_cap rk task_id N HN (Z.to_nat (N - run_count task)) st task)
    as (f & st1 & rs & task1 & Hf & Hlen & Hall & Ht1 & Hr1 & Hmax1 & He1);
    try done; [lia|].
  exists (S f), st1, rs, task1. split_and!; try done.
  { eapply fire_times_mono; [|exact Hf]. lia. }
  intros m.
  assert (max_runs_reached task1 = true) as Hcap1.
  { unfold max_runs_reached. rewrite Hmax1, Hr1. apply andb_true_iff. split.
    - apply negb_true_iff, Z.eqb_neq. done.
    - apply Z.leb_le. lia. }
  destruct (fire_capped task_id f (S m) st1 task1 Ht1 Hcap1)
    as (st2 & task2 & Hf2 & Hres & Ht2 & Hrun & Hen).
  exists st2, task2. split_and!; try done. congruence.
Qed.

(** ** Event fan-out (C7) *)

Lemma emit_loop_mono fuel fuel' data :
  (fuel <= fuel')%nat ->
  forall task_ids st x,
    emit_loop fuel data task_ids st = Some x ->
    emit_loop fuel' data task_ids st = Some x.
Proof.
  intros Hle. induction task_ids as [|t ts IH]; intros st x Hrun; simpl in *;
    [done|].
  destruct (tasks st !! t) as [task|]; [|by auto].
  destruct (enabled task); [|by auto].
  destruct (_execute_task fuel t _) as [[s1 r1]|] eqn:E; [|done].
  rewrite (_execute_task_mono _ _ _ _ _ Hle E).
  destruct (emit_loop fuel data ts s1) as [[s2 f2]|] eqn:E2; [|done].
  by rewrite (IH _ _ E2).
Qed.

Lemma inject_event_data_insert task_id data st task :
  tasks st !! task_id = Some task ->
  inject_event_data task_id data st =
  with_tasks
    (insert task_id
       (set_action_params (<["event_data" := data]> (action_params task)) task))
    st.
Proof.
  intros Ht. unfold inject_event_data. simpl. f_equal.
  apply map_eq. intros x. destruct (decide (task_id = x)) as [<-|Hne].
  - by rewrite lookup_alter_eq, lookup_insert_eq, Ht.
  - by rewrite lookup_alter_ne, lookup_insert_ne.
Qed.

Lemma ranked_inject rk task_id data st :
  ranked rk st -> ranked rk (inject_event_data task_id data st).
Proof.
  assert (forall x t',
            tasks (inject_event_data task_id data st) !! x = Some t' ->
            exists t, tasks st !! x = Some t /\
                      dependencies t' = dependencies t /\
                      last_run t' = last_run t) as Hback.
  { intros x t'. simpl. destruct (decide (task_id = x)) as [<-|Hne].
    - rewrite lookup_alter_eq. destruct (tasks st !! task_id) as [t|]; [|done].
      simpl. intros [= <-]. by exists t.
    - rewrite lookup_alter_ne by done. intros Hx. by exists t'. }
  intros Hrk t task' d dep' Ht Hd Hdep Hnever.
  destruct (Hback _ _ Ht) as (task & Ht0 & Hdeps & _).
  destruct (Hback _ _ Hdep) as (dep & Hd0 & _ & Hlr).
  eapply Hrk; [exact Ht0| |exact Hd0|congruence]. by rewrite <- Hdeps.
Qed.

Lemma emit_loop_fan_out rk data :
  forall task_ids st,
    ranked rk st ->
    exists fuel st' fired,
      emit_loop fuel data task_ids st = Some (st', fired) /\
      fan_out data task_ids st fired st'.
Proof.
  induction task_ids as [|task_id rest IH]; intros st Hrk.
  { exists 0%nat, st, []. split; [done|constructor]. }
  simpl. destruct (tasks st !! task_id) as [task|] eqn:Ht.
  2:{ destruct (IH st Hrk) as (f & st' & fired & Hrun & Hfan).
      exists f, st', fired. split; [done|]. by apply fan_out_missing. }
  destruct (enabled task) eqn:Hen.
  2:{ destruct (IH st Hrk) as (f & st' & fired & Hrun & Hfan).
      exists f, st', fired. split; [done|]. by eapply fan_out_disabled. }
  set (sti := inject_event_data task_id data st).
  assert (ranked rk sti) as Hrki by (by apply ranked_inject).
  destruct (_execute_task_terminates rk task_id sti Hrki) as (f1 & [s1 r] & Hex).
  pose proof (_execute_task_extends _ _ _ _ _ Hex) as Hext.
  destruct (IH s1) as (f2 & st' & fired & Hrun & Hfan);
    [by eapply ranked_extends|].
  exists (f1 `max` f2)%nat, st', ((task_id, r) :: fired). split.
  - rewrite (_execute_task_mono f1 _ _ _ (s1, r)) by (done || lia).
    by rewrite (emit_loop_mono f2 _ _ (Nat.le_max_r _ _) _ _ _ Hrun).
  - eapply fan_out_fire; [exact Ht|exact Hen| | |exact Hfan].
    + rewrite <- (inject_event_data_insert _ _ _ _ Ht). exact Hex.
    + intros params store Hin.
      destruct (_execute_task_traced _ _ _ _ _ Hex) as (new & Htr & Hnew).
      change (trace sti) with (trace st) in Htr.
      rewrite Htr, drop_app_length in Hin.
      rewrite Forall_forall in Hnew. specialize (Hnew _ Hin). simpl in Hnew.
      destruct Hnew as (Hstore & t & Hlook & -> & _).
      destruct (store_evolves_lookup _ _ _ _ Hstore Hlook) as (t0 & Ht0 & Het).
      destruct Het as (_&Hparams&_). rewrite Hparams.
      unfold sti in Ht0. simpl in Ht0. rewrite lookup_alter_eq, Ht in Ht0.
      injection Ht0 as <-. simpl. apply lookup_insert_eq.
Qed.

Lemma on_event_subscribers event_name task_id st :
  default [] (event_handlers (on_event event_name task_id st) !! event_name) =
  default [] (event_handlers st !! event_name) ++ [task_id].
Proof. unfold on_event. simpl. by rewrite lookup_insert_eq. Qed.

Lemma fan_out_sublist data task_ids st fired st' :
  fan_out data task_ids st fired st' -> fired.*1 `sublist_of` task_ids.
Proof.
  induction 1; simpl.
  - constructor.
  - by apply sublist_cons.
  - by apply sublist_cons.
  - by apply sublist_skip.
Qed.

(** Without run caps the [enabled] flags stay as they are. *)

Lemma no_caps_not_reached st task_id task :
  no_caps st -> tasks st !! task_id = Some task -> max_runs_reached task = false.
Proof.
  intros Hno Ht. unfold max_runs_reached.
  by destruct (Hno _ _ Ht) as [-> | ->].
Qed.

Lemma no_caps_alter f task_id st :
  (forall t, max_runs (f t) = max_runs t) ->
  no_caps st -> no_caps (with_tasks (alter f task_id) st).
Proof.
  intros Hf Hno x t'. simpl. destruct (decide (task_id = x)) as [<-|Hne].
  - rewrite lookup_alter_eq. destruct (tasks st !! task_id) as [t|] eqn:Ht; [|done].
    simpl. intros [= <-]. rewrite Hf. by eapply Hno.
  - rewrite lookup_alter_ne by done. apply Hno.
Qed.

Lemma live_alter f task_id st x :
  (forall t, enabled (f t) = enabled t) ->
  live (with_tasks (alter f task_id) st) x = live st x.
Proof.
  intros Hf. unfold live. simpl. destruct (decide (task_id = x)) as [<-|Hne].
  - rewrite lookup_alter_eq. destruct (tasks st !! task_id); simpl; [apply Hf|done].
  - by rewrite lookup_alter_ne.
Qed.

Lemma _execute_task_no_caps fuel task_id st st' r :
  _execute_task fuel task_id st = Some (st', r) -> no_caps st ->
  no_caps st' /\ forall x, live st' x = live st x.
Proof.
  intros Hex Hno.
  apply (_execute_task_invariant
           (fun s => no_caps s /\ forall x, live s x = live st x))
    with fuel task_id st r; try done.
  - intros t task s Ht Hcap [Hs _].
    by rewrite (no_caps_not_reached _ _ _ Hs Ht) in Hcap.
  - intros t task s [Hs Hl]. split.
    + by apply (no_caps_alter (set_retry_count _)).
    + intros x. rewrite <- Hl. by apply (live_alter (set_retry_count _)).
  - intros t start sts v err s [Hs Hl]. split.
    + by apply (no_caps_alter (mark_run _)).
    + intros x. rewrite <- Hl. by apply (live_alter (mark_run _)).
Qed.

Lemma _execute_task_result_no_caps fuel :
  forall task_id st st' r,
    _execute_task fuel task_id st = Some (st', r) ->
    no_caps st -> is_Some (tasks st !! task_id) -> is_Some r.
Proof.
  induction fuel as [|fuel IH]; intros task_id st st' r Hex Hno [task Ht]; [done|].
  rewrite _execute_task_S, Ht, (no_caps_not_reached _ _ _ Hno Ht) in Hex.
  destruct (run_dependencies _ _ st) as [st1|] eqn:Hdeps; [|done].
  assert (no_caps st1) as Hno1.
  { apply (run_dependencies_invariant no_caps) with
      (_execute_task fuel) (dependencies task) st; try done.
    intros d s s' r' Hd Hs. by destruct (_execute_task_no_caps _ _ _ _ _ Hd Hs). }
  pose proof (run_dependencies_extends _ _ _ _ Hdeps) as (_&_&_&_&Hev).
  destruct (store_evolves_lookup_fwd _ _ _ _ Hev Ht) as (task1 & Ht1 & _).
  unfold action_phase in Hex. cbv zeta in Hex.
  rewrite (task_object_stored _ _ _ _ Ht1) in Hex.
  destruct (actions st1 !! _) as [h|].
  - destruct (h _ _).
    + inversion Hex. by eexists.
    + destruct (_ && _); [|inversion Hex; by eexists].
      eapply IH; [exact Hex| |].
      * by apply (no_caps_alter (set_retry_count _)).
      * rewrite retry_state_lookup by done. by eexists.
  - inversion Hex. by eexists.
Qed.

Lemma emit_loop_static fuel data :
  forall task_ids st st' fired,
    emit_loop fuel data task_ids st = Some (st', fired) ->
    no_caps st ->
    fired.*1 = filter (fun task_id => live st task_id = true) task_ids /\
    Forall (fun entry => is_Some entry.2) fired.
Proof.
  induction task_ids as [|task_id rest IH]; intros st st' fired Hrun Hno;
    simpl in Hrun.
  { inversion Hrun; subst. by split. }
  rewrite filter_cons.
  destruct (tasks st !! task_id) as [task|] eqn:Ht.
  2:{ rewrite decide_False by (unfold live; by rewrite Ht). by eapply IH. }
  destruct (enabled task) eqn:Hen.
  2:{ rewrite decide_False by (unfold live; by rewrite Ht, Hen). by eapply IH. }
  rewrite decide_True by (unfold live; by rewrite Ht, Hen).
  destruct (_execute_task fuel task_id _) as [[s1 r]|] eqn:Hex; [|done].
  destruct (emit_loop fuel data rest s1) as [[s2 fired']|] eqn:Hrest; [|done].
  inversion Hrun; subst.
  set (inject := fun t => set_action_params
                            (<["event_data" := data]> (action_params t)) t) in *.
  assert (no_caps (inject_event_data task_id data st)) as Hnoi.
  { by apply (no_caps_alter inject). }
  destruct (_execute_task_no_caps _ _ _ _ _ Hex Hnoi) as [Hno1 Hlive1].
  destruct (IH _ _ _ Hrest Hno1) as [Hids Hall]. split.
  - rewrite fmap_cons, Hids. simpl. f_equal. apply list_filter_iff. intros x.
    rewrite Hlive1. unfold inject_event_data.
    by rewrite (live_alter inject).
  - constructor; [|done]. simpl.
    eapply _execute_task_result_no_caps; [exact Hex|exact Hnoi|].
    simpl. rewrite lookup_alter_eq, Ht. by eexists.
Qed.

(** C7.  With well-founded dependencies, [emit_event] returns, and it
    works through the subscriber list as the specification says
    ([fan_out]): in subscription order, a subscriber that is registered and
    enabled when its turn comes gets the event data stored under
    ["event_data"] and is then handed to the dispatcher (every call of its
    handler in that execution sees the data), all others are passed over;
    what the dispatcher returns for one subscriber -- a Completed or Failed
    result, or nothing -- does not keep the loop from the subscribers after
    it.  The dispatched tasks are a subsequence of the subscribers; when no
    task has a run cap they are exactly the subscribers that are registered
    and enabled when the event is emitted, and each gets a TaskResult. *)
Theorem event_fan_out (st : State) (event_name : string) (data : Value) :
  acyclic st ->
  exists fuel st' fired,
    emit_event fuel event_name data st = Some (st', fired) /\
    fan_out data (default [] (event_handlers st !! event_name)) st fired st' /\
    fired.*1 `sublist_of` default [] (event_handlers st !! event_name) /\
    (no_caps st ->
     fired.*1 = filter (fun task_id => live st task_id = true)
                  (default [] (event_handlers st !! event_name)) /\
     Forall (fun entry => is_Some entry.2) fired).
Proof.
  intros [rk Hrk]. unfold emit_event.
  destruct (emit_loop_fan_out rk data
              (default [] (event_handlers st !! event_name)) st Hrk)
    as (fuel & st' & fired & Hrun & Hfan).
  exists fuel, st', fired. split_and!; try done.
  - by eapply fan_out_sublist.
  - intros Hno. by eapply emit_loop_static.
Qed.

(** ** Workflow branching (C4) *)

Lemma next_pointer_absent stps pointer : next_pointer stps pointer None = None.
Proof. done. Qed.

Lemma next_pointer_stop stps pointer :
  next_pointer stps pointer (Some (SelStr "stop")) = None.
Proof. done. Qed.

Lemma next_pointer_next stps pointer :
  next_pointer stps pointer (Some (SelStr "next")) = Some (pointer + 1).
Proof. done. Qed.

Lemma next_pointer_int stps pointer i :
  next_pointer stps pointer (Some (SelInt i)) = Some i.
Proof. done. Qed.

Lemma next_pointer_named stps pointer s (i : nat) target :
  s <> "stop" -> s <> "next" ->
  stps !! i = Some target -> step_name target = Some s ->
  (forall (j : nat) earlier,
     (j < i)%nat -> stps !! j = Some earlier -> step_name earlier <> Some s) ->
  next_pointer stps pointer (Some (SelStr s)) = Some (Z.of_nat i).
Proof.
  intros Hstop Hnext Hi Hname Hfirst. unfold next_pointer.
  rewrite !decide_False by done.
  assert (list_find (fun st => step_name st = Some s) stps = Some (i, target)) as ->;
    [|done].
  apply list_find_Some. split_and!; try done.
  intros j y Hj Hlt. by eapply Hfirst.
Qed.

Lemma next_pointer_no_match stps pointer s :
  s <> "stop" -> s <> "next" ->
  (forall other, other ∈ stps -> step_name other <> Some s) ->
  next_pointer stps pointer (Some (SelStr s)) = None.
Proof.
  intros Hstop Hnext Hnone. unfold next_pointer.
  rewrite !decide_False by done.
  assert (list_find (fun st => step_name st = Some s) stps = None) as ->; [|done].
  apply list_find_None, Forall_forall. exact Hnone.
Qed.

(** The cases of [next_pointer], read back. *)
Lemma next_pointer_cases stps pointer sel :
  (next_pointer stps pointer sel = None /\
   (sel = None \/ sel = Some (SelStr "stop") \/
    exists s, sel = Some (SelStr s) /\ s <> "stop" /\ s <> "next" /\
              forall other, other ∈ stps -> step_name other <> Some s)) \/
  (next_pointer stps pointer sel = Some (pointer + 1) /\
   sel = Some (SelStr "next")) \/
  (exists i, next_pointer stps pointer sel = Some i /\ sel = Some (SelInt i)) \/
  (exists s (i : nat) target,
     next_pointer stps pointer sel = Some (Z.of_nat i) /\
     sel = Some (SelStr s) /\ s <> "stop" /\ s <> "next" /\
     stps !! i = Some target /\ step_name target = Some s /\
     forall (j : nat) earlier,
       (j < i)%nat -> stps !! j = Some earlier -> step_name earlier <> Some s).
Proof.
  destruct sel as [[s|i]|]; [| |by left; auto].
  2:{ right. right. left. by exists i. }
  destruct (decide (s = "stop")) as [->|Hstop]; [by left; auto|].
  destruct (decide (s = "next")) as [->|Hnext]; [by right; left|].
  destruct (list_find (fun st => step_name st = Some s) stps) as [[i target]|] eqn:Hfind.
  - apply list_find_Some in Hfind as (Hi & Hname & Hfirst).
    right. right. right. exists s, i, target.
    split; [by eapply next_pointer_named; eauto|]. split_and!; try done.
    intros j y Hlt Hj. by eapply Hfirst.
  - apply list_find_None in Hfind. rewrite Forall_forall in Hfind.
    left. split; [by apply next_pointer_no_match|].
    right. right. by exists s.
Qed.

Lemma execute_step_mono fuel fuel' step st x :
  (fuel <= fuel')%nat ->
  execute_step fuel step st = Some x -> execute_step fuel' step st = Some x.
Proof.
  unfold execute_step. destruct (step_task_id step); [|done].
  apply _execute_task_mono.
Qed.

Lemma workflow_loop_S fuel stps pointer acc st :
  workflow_loop (S fuel) stps pointer acc st =
  if pointer <? Z.of_nat (length stps) then
    match step_at stps pointer with
    | None => Some (st, inl (IndexError "list index out of range"))
    | Some step =>
      match execute_step fuel step st with
      | None => None
      | Some (st', None) =>
        Some (st', inl (AttributeError
                         "'NoneType' object has no attribute 'status'"))
      | Some (st', Some r) =>
        match next_pointer stps pointer (selected step r) with
        | None => Some (st', inr (acc ++ [r]))
        | Some pointer' => workflow_loop fuel stps pointer' (acc ++ [r]) st'
        end
      end
    end
  else Some (st, inr acc).
Proof. reflexivity. Qed.

Arguments workflow_loop : simpl never.

Lemma workflow_loop_mono fuel :
  forall fuel' stps pointer acc st x,
    (fuel <= fuel')%nat ->
    workflow_loop fuel stps pointer acc st = Some x ->
    workflow_loop fuel' stps pointer acc st = Some x.
Proof.
  induction fuel as [|fuel IH]; intros fuel' stps pointer acc st x Hle Hrun; [done|].
  destruct fuel' as [|fuel']; [lia|].
  rewrite workflow_loop_S in *.
  destruct (pointer <? _); [|done].
  destruct (step_at stps pointer) as [step|]; [|done].
  destruct (execute_step fuel step st) as [[s1 r1]|] eqn:E; [|done].
  rewrite (execute_step_mono fuel fuel' step st (s1, r1)) by (done || lia).
  destruct r1 as [r|]; [|done].
  destruct (next_pointer _ _ _); [|done]. apply IH; [lia|done].
Qed.

Lemma workflow_loop_sound fuel stps :
  forall pointer acc st st' out,
    workflow_loop fuel stps pointer acc st = Some (st', inr out) ->
    wf_run stps pointer acc st out st'.
Proof.
  induction fuel as [|fuel IH]; intros pointer acc st st' out Hrun; [done|].
  rewrite workflow_loop_S in Hrun.
  destruct (Z.ltb_spec pointer (Z.of_nat (length stps))) as [Hlt|Hge].
  2:{ inversion Hrun; subst. by apply wf_past_end. }
  destruct (step_at stps pointer) as [step|] eqn:Hstep; [|done].
  destruct (execute_step fuel step st) as [[s1 [r|]]|] eqn:E; [|done|done].
  destruct (next_pointer_cases stps pointer (selected step r))
    as [[Hp Hsel]|[[Hp Hsel]|[(i & Hp & Hsel)|(s & i & target & Hp & Hsel & Hrest)]]];
    rewrite Hp in Hrun.
  - inversion Hrun; subst.
    destruct Hsel as [Hsel|[Hsel|(s & Hsel & Hs1 & Hs2 & Hnone)]].
    + eapply wf_stop; eauto.
    + eapply wf_stop; eauto.
    + eapply wf_no_match; eauto.
  - eapply wf_next; eauto.
  - eapply wf_jump; eauto.
  - destruct Hrest as (Hs1 & Hs2 & Hi & Hname & Hfirst).
    eapply wf_named; eauto.
Qed.

Lemma workflow_loop_complete stps pointer acc st out st' :
  wf_run stps pointer acc st out st' ->
  exists fuel, workflow_loop fuel stps pointer acc st = Some (st', inr out).
Proof.
  induction 1 as
    [pointer acc st Hge
    |pointer acc st step fuel st1 r Hlt Hstep Hex Hsel
    |pointer acc st step fuel st1 r out st' Hlt Hstep Hex Hsel _ [f IH]
    |pointer acc st step fuel st1 r i out st' Hlt Hstep Hex Hsel _ [f IH]
    |pointer acc st step fuel st1 r s i target out st' Hlt Hstep Hex Hsel
       Hs1 Hs2 Hi Hname Hfirst _ [f IH]
    |pointer acc st step fuel st1 r s Hlt Hstep Hex Hsel Hs1 Hs2 Hnone].
  - exists 1%nat. rewrite workflow_loop_S.
    by destruct (Z.ltb_spec pointer (Z.of_nat (length stps))); [lia|].
  - exists (S fuel). rewrite workflow_loop_S.
    destruct (Z.ltb_spec pointer (Z.of_nat (length stps))); [|lia].
    rewrite Hstep, Hex. by destruct Hsel as [-> | ->].
  - exists (S (fuel `max` f)). rewrite workflow_loop_S.
    destruct (Z.ltb_spec pointer (Z.of_nat (length stps))); [|lia].
    rewrite Hstep, (execute_step_mono fuel _ _ _ _ (Nat.le_max_l _ _) Hex), Hsel.
    rewrite next_pointer_next. eapply workflow_loop_mono; [|exact IH]. lia.
  - exists (S (fuel `max` f)). rewrite workflow_loop_S.
    destruct (Z.ltb_spec pointer (Z.of_nat (length stps))); [|lia].
    rewrite Hstep, (execute_step_mono fuel _ _ _ _ (Nat.le_max_l _ _) Hex), Hsel.
    rewrite next_pointer_int. eapply workflow_loop_mono; [|exact IH]. lia.
  - exists (S (fuel `max` f)). rewrite workflow_loop_S.
    destruct (Z.ltb_spec pointer (Z.of_nat (length stps))); [|lia].
    rewrite Hstep, (execute_step_mono fuel _ _ _ _ (Nat.le_max_l _ _) Hex), Hsel.
    rewrite (next_pointer_named _ _ _ _ _ Hs1 Hs2 Hi Hname Hfirst).
    eapply workflow_loop_mono; [|exact IH]. lia.
  - exists (S fuel). rewrite workflow_loop_S.
    destruct (Z.ltb_spec pointer (Z.of_nat (length stps))); [|lia].
    rewrite Hstep, Hex, Hsel. by rewrite next_pointer_no_match.
Qed.

(** C4.  [run_workflow] and the specification's reading of a workflow run
    ([wf_run]: start at step 0; after a step take [on_success] when its
    result is Completed and [on_failure] otherwise; "stop" or an absent
    selector ends the run, "next" moves the pointer on by one, an integer
    becomes the pointer, any other string sends the pointer to the first
    step of that name and ends the run when there is none) yield the same
    result lists.  In the scenario [[A; B]]: when [A] completes the run
    returns the results of [A] and [B], when [A] does not it returns the
    result of [A] alone. *)
Theorem run_workflow_branching (workflow_id : string) (workflow : Workflow)
    (st : State) :
  workflows st !! workflow_id = Some workflow ->
  (forall fuel st' out,
     run_workflow fuel workflow_id st = Some (st', inr out) ->
     wf_run (steps workflow) 0 [] st out st') /\
  (forall st' out,
     wf_run (steps workflow) 0 [] st out st' ->
     exists fuel, run_workflow fuel workflow_id st = Some (st', inr out)) /\
  (forall fuel a b name_a name_b st1 rA,
     steps workflow = [branch_A a name_a; branch_B b name_b] ->
     execute_step fuel (branch_A a name_a) st = Some (st1, Some rA) ->
     (status rA = COMPLETED ->
      forall st2 rB,
        execute_step fuel (branch_B b name_b) st1 = Some (st2, Some rB) ->
        run_workflow (S (S fuel)) workflow_id st = Some (st2, inr [rA; rB])) /\
     (status rA <> COMPLETED ->
      run_workflow (S (S fuel)) workflow_id st = Some (st1, inr [rA]))).
Proof.
  intros Hwf. unfold run_workflow. rewrite Hwf. split_and!.
  - intros fuel st' out. apply workflow_loop_sound.
  - intros st' out. apply workflow_loop_complete.
  - intros fuel a b name_a name_b st1 rA Hsteps HA.
    rewrite Hsteps, workflow_loop_S. simpl.
    rewrite (execute_step_mono fuel (S fuel) _ _ _ (Nat.le_succ_diag_r _) HA).
    unfold selected. simpl. split.
    + intros Hdone st2 rB HB. rewrite decide_True by done. simpl.
      rewrite workflow_loop_S. simpl. rewrite HB.
      unfold selected. simpl. by destruct (decide (status rB = COMPLETED)).
    + intros Hfail. by rewrite decide_False.
Qed.

(** ** Exceptions that escape [run_workflow] (C6) *)

(** A step whose task id the dispatcher does not know -- or a step without
    a task id -- makes [run_workflow] raise at [result.status]. *)
Lemma run_workflow_unknown_task fuel workflow_id workflow step rest st :
  workflows st !! workflow_id = Some workflow ->
  steps workflow = step :: rest ->
  match step_task_id step with
  | Some task_id => tasks st !! task_id = None
  | None => True
  end ->
  run_workflow (S (S fuel)) workflow_id st =
    Some (st, inl (AttributeError "'NoneType' object has no attribute 'status'")).
Proof.
  intros Hwf Hsteps Hunknown. unfold run_workflow. rewrite Hwf, Hsteps.
  rewrite workflow_loop_S. simpl length.
  destruct (Z.ltb_spec 0 (Z.of_nat (S (length rest)))); [|lia].
  unfold step_at. simpl. unfold execute_step.
  destruct (step_task_id step) as [task_id|]; [|done].
  by rewrite _execute_task_S, Hunknown.
Qed.

(** So does a step whose task the run-cap gate turns away. *)
Lemma run_workflow_capped_task fuel workflow_id workflow step rest st task_id task :
  workflows st !! workflow_id = Some workflow ->
  steps workflow = step :: rest ->
  step_task_id step = Some task_id ->
  tasks st !! task_id = Some task ->
  max_runs_reached task = true ->
  run_workflow (S (S fuel)) workflow_id st =
    Some ((disable_task task_id st).1,
          inl (AttributeError "'NoneType' object has no attribute 'status'")).
Proof.
  intros Hwf Hsteps Hid Ht Hcap. unfold run_workflow. rewrite Hwf, Hsteps.
  rewrite workflow_loop_S. simpl length.
  destruct (Z.ltb_spec 0 (Z.of_nat (S (length rest)))); [|lia].
  unfold step_at. simpl. unfold execute_step.
  by rewrite Hid, _execute_task_S, Ht, Hcap.
Qed.

(** ** Snapshot round trip (C5) *)

Lemma mapM_as_str (l : list string) : mapM as_str (VStr <$> l) = Some l.
Proof.
  apply mapM_Some. induction l as [|s l IH]; simpl; by constructor.
Qed.

Lemma TriggerType_of_value_value t : TriggerType_of_value (trigger_value t) = Some t.
Proof. by destruct t. Qed.

(** Whatever the dictionary holds, a deserialised task has the dataclass
    defaults in the four fields the dictionary does not carry. *)
Lemma from_dict_defaults fromisoformat current data t :
  from_dict fromisoformat current data = Some t ->
  next_run t = None /\ retry_on_fail t = true /\
  retry_count t = 3 /\ retry_delay t = 60.
Proof.
  unfold from_dict. intros H.
  repeat match type of H with
         | (?m ≫= _) = Some _ =>
           let E := fresh in destruct m eqn:E; simpl in H; [|done]
         end.
  by inversion H; subst.
Qed.

Section RoundTrip.
Variable isoformat : datetime -> string.
Variable fromisoformat : string -> option datetime.
Hypothesis iso_roundtrip : forall d, fromisoformat (isoformat d) = Some d.
Hypothesis iso_nonempty : forall d, isoformat d <> EmptyString.

Lemma truthy_isoformat d : truthy (VStr (isoformat d)) = true.
Proof using iso_nonempty.
  simpl. apply negb_true_iff, String.eqb_neq, iso_nonempty.
Qed.

Lemma from_dict_to_dict current t :
  from_dict fromisoformat current (to_dict isoformat t) = Some (reloaded t).
Proof using iso_roundtrip iso_nonempty.
  unfold from_dict, get_req, get_or, read_created_at, read_last_run,
    read_max_runs.
  change (to_dict isoformat t !! "id") with (Some (VStr (id t))).
  change (to_dict isoformat t !! "name") with (Some (VStr (name t))).
  change (to_dict isoformat t !! "description")
    with (Some (VStr (description t))).
  change (to_dict isoformat t !! "trigger_type")
    with (Some (VStr (trigger_value (trigger_type t)))).
  change (to_dict isoformat t !! "trigger_config")
    with (Some (VDict (trigger_config t))).
  change (to_dict isoformat t !! "action") with (Some (VStr (action t))).
  change (to_dict isoformat t !! "action_params")
    with (Some (VDict (action_params t))).
  change (to_dict isoformat t !! "enabled") with (Some (VBool (enabled t))).
  change (to_dict isoformat t !! "created_at")
    with (Some (VStr (isoformat (created_at t)))).
  change (to_dict isoformat t !! "last_run")
    with (Some (match last_run t with
                | Some d => VStr (isoformat d)
                | None => VNone
                end)).
  change (to_dict isoformat t !! "run_count") with (Some (VInt (run_count t))).
  change (to_dict isoformat t !! "max_runs")
    with (Some (match max_runs t with Some m => VInt m | None => VNone end)).
  change (to_dict isoformat t !! "tags") with (Some (VList (VStr <$> tags t))).
  change (to_dict isoformat t !! "dependencies")
    with (Some (VList (VStr <$> dependencies t))).
  unfold as_trigger_type. simpl.
  rewrite TriggerType_of_value_value, iso_roundtrip, !mapM_as_str. simpl.
  destruct t as [i n d tt tc a ap en ca lr nr rc mr rof rtc rd tg dp]; simpl.
  destruct lr as [when|]; simpl.
  - pose proof (truthy_isoformat when) as Htruthy. simpl in Htruthy.
    rewrite Htruthy, iso_roundtrip. simpl. by destruct mr.
  - by destruct mr.
Qed.

(** Loading what was saved, entry by entry. *)
Lemma load_entries_to_dict current (ts : list ScheduledTask) store :
  load_entries fromisoformat current (to_dict isoformat <$> ts) store =
  foldl (fun m t => <[id t := reloaded t]> m) store ts.
Proof using iso_roundtrip iso_nonempty.
  revert store. induction ts as [|t ts IH]; intros store; [done|].
  simpl. rewrite from_dict_to_dict. simpl. apply IH.
Qed.
End RoundTrip.

(** C5 (amended).  With an ISO codec that reads back what it prints,
    [from_dict] after [to_dict] succeeds and gives the task back with
    [id], [name], [description], [trigger_type], [trigger_config],
    [action], [action_params], [enabled], [created_at], [last_run],
    [run_count], [max_runs], [tags] and [dependencies] as they were;
    [next_run] is not carried and comes back unset. *)
Theorem snapshot_round_trip
    (isoformat : datetime -> string) (fromisoformat : string -> option datetime)
    (current : datetime) (t : ScheduledTask) :
  (forall d, fromisoformat (isoformat d) = Some d) ->
  (forall d, isoformat d <> EmptyString) ->
  exists t',
    from_dict fromisoformat current (to_dict isoformat t) = Some t' /\
    id t' = id t /\ name t' = name t /\ description t' = description t /\
    trigger_type t' = trigger_type t /\ trigger_config t' = trigger_config t /\
    action t' = action t /\ action_params t' = action_params t /\
    enabled t' = enabled t /\ created_at t' = created_at t /\
    last_run t' = last_run t /\ run_count t' = run_count t /\
    max_runs t' = max_runs t /\ tags t' = tags t /\
    dependencies t' = dependencies t /\
    next_run t' = None.
Proof.
  intros Hrt Hne. exists (reloaded t).
  split; [by apply from_dict_to_dict|]. by split_and!.
Qed.

(** ** The statements on concrete engines *)

Lemma acyclic_flat st :
  (forall t task, tasks st !! t = Some task -> dependencies task = []) ->
  acyclic st.
Proof.
  intros Hflat. exists (fun _ => 0%nat). intros t task d dep Ht Hd.
  rewrite (Hflat _ _ Ht) in Hd. by apply elem_of_nil in Hd.
Qed.

Lemma flat_demo_task (store : gmap string ScheduledTask) task_id action_ retries cap
    runs ran :
  (forall t task, store !! t = Some task -> dependencies task = []) ->
  forall t task,
    <[task_id := demo_task task_id action_ [] retries cap runs ran]> store !! t
      = Some task ->
    dependencies task = [].
Proof.
  intros Hflat t task Ht.
  apply lookup_insert_Some in Ht as [[_ <-]|[_ Ht]]; [done|by eapply Hflat].
Qed.

Lemma flat_empty t (task : ScheduledTask) :
  (∅ : gmap string ScheduledTask) !! t = Some task -> dependencies task = [].
Proof. by rewrite lookup_empty. Qed.

Lemma acyclic_single task_id action_ retries cap runs ran flows subscribers :
  acyclic (demo_engine {[task_id := demo_task task_id action_ [] retries cap runs ran]}
             flows subscribers).
Proof.
  apply acyclic_flat. simpl. rewrite <- insert_empty.
  apply flat_demo_task, flat_empty.
Qed.

Lemma failing_handler_always_raises : always_raises failing_handler.
Proof. intros n params. by exists "boom". Qed.

(** C1 at [retry_demo]: two retries, then the Failed result. *)
Lemma retry_until_exhausted_witness :
  exists fuel st' r new task',
    _execute_task fuel "job" retry_demo = Some (st', Some r) /\
    status r = FAILED /\
    trace st' = trace retry_demo ++ new /\
    own_steps "job" new =
      [OwnAttempt; OwnSleep 60; OwnAttempt; OwnSleep 60;
       OwnAttempt; OwnFinal FAILED] /\
    last (results st') = Some r /\
    tasks st' !! "job" = Some task' /\
    retry_count task' = 0 /\
    run_count task' = 1.
Proof.
  apply (retry_until_exhausted retry_demo "job"
           (demo_task "job" "fail" [] 2 None 0 None) failing_handler 2).
  - apply acyclic_single.
  - reflexivity.
  - reflexivity.
  - reflexivity.
  - reflexivity.
  - reflexivity.
  - apply failing_handler_always_raises.
Defined.

(** C1 as stated fails at [capped_retry_demo]: the task has
    [retry_on_fail = true], [retry_count = 3] and a handler that always
    raises, yet its execution makes no attempt, logs no result and leaves
    the retry budget at 3. *)
Lemma capped_task_is_not_attempted :
  tasks capped_retry_demo !! "job" =
    Some (demo_task "job" "fail" [] 3 (Some 1) 1 (Some 0%nat)) /\
  actions capped_retry_demo !! "fail" = Some failing_handler /\
  always_raises failing_handler /\
  forall fuel st' r,
    _execute_task fuel "job" capped_retry_demo = Some (st', r) ->
    r = None /\ results st' = [] /\ own_steps "job" (trace st') = [] /\
    retry_count <$> tasks st' !! "job" = Some 3.
Proof.
  split; [reflexivity|]. split; [reflexivity|].
  split; [apply failing_handler_always_raises|].
  intros [|fuel] st' r Hex; [done|].
  rewrite _execute_task_S in Hex. vm_compute in Hex.
  injection Hex as <- <-. by vm_compute.
Qed.

(** C9 at [unknown_demo]. *)
Lemma unknown_action_fails_without_retry_witness :
  exists fuel st' r new task',
    _execute_task fuel "job" unknown_demo = Some (st', Some r) /\
    status r = FAILED /\
    error r = Some "Nieznana akcja: typo" /\
    trace st' = trace unknown_demo ++ new /\
    own_steps "job" new = [OwnFinal FAILED] /\
    last (results st') = Some r /\
    tasks st' !! "job" = Some task' /\
    retry_count task' = 3 /\
    run_count task' = 1.
Proof.
  apply (unknown_action_fails_without_retry unknown_demo "job"
           (demo_task "job" "typo" [] 3 None 0 None)).
  - apply acyclic_single.
  - reflexivity.
  - reflexivity.
  - reflexivity.
Defined.

(** C9 as stated fails at [capped_unknown_demo]: the action name is not
    registered, yet the execution returns no TaskResult and logs none. *)
Lemma capped_unknown_action_yields_no_result :
  tasks capped_unknown_demo !! "job" =
    Some (demo_task "job" "typo" [] 3 (Some 1) 1 (Some 0%nat)) /\
  actions capped_unknown_demo !! "typo" = None /\
  forall fuel st' r,
    _execute_task fuel "job" capped_unknown_demo = Some (st', r) ->
    r = None /\ results st' = [] /\ own_steps "job" (trace st') = [].
Proof.
  split; [reflexivity|]. split; [reflexivity|].
  intros [|fuel] st' r Hex; [done|].
  rewrite _execute_task_S in Hex. vm_compute in Hex.
  injection Hex as <- <-. by vm_compute.
Qed.

Lemma acyclic_deps_demo d1 :
  dependencies d1 = [] ->
  acyclic (demo_engine
             (<["T" := demo_task "T" "ok" ["D1"; "D2"] 0 None 0 None]>
                (<["D1" := d1]>
                   {["D2" := demo_task "D2" "fail" [] 1 None 0 None]})) ∅ ∅).
Proof.
  intros Hd1. exists (fun x => if decide (x = "T") then 1%nat else 0%nat).
  intros t task d dep Ht Hd Hdep _. simpl in Ht, Hdep.
  apply lookup_insert_Some in Ht as [[<- <-]|[_ Ht]].
  - simpl in Hd. apply elem_of_cons in Hd as [->|Hd]; [simpl; lia|].
    apply elem_of_cons in Hd as [->|Hd]; [simpl; lia|].
    by apply elem_of_nil in Hd.
  - apply lookup_insert_Some in Ht as [[_ <-]|[_ Ht]].
    + rewrite Hd1 in Hd. by apply elem_of_nil in Hd.
    + apply lookup_singleton_Some in Ht as [_ <-]. by apply elem_of_nil in Hd.
Qed.

(** C3 at [deps_demo]: [D1] completes, [D2] fails, both are stamped. *)
Lemma dependencies_run_before_action_witness :
  exists fuel st' r new,
    _execute_task fuel "T" deps_demo = Some (st', r) /\
    trace st' = trace deps_demo ++ new /\
    (forall params store,
       EvInvoke "T" params store ∈ new ->
       has_run store "D1" /\ has_run store "D2") /\
    (max_runs_reached (demo_task "T" "ok" ["D1"; "D2"] 0 None 0 None) = false ->
     has_run (tasks st') "D1" /\ has_run (tasks st') "D2").
Proof.
  apply (dependencies_run_before_action deps_demo "T" "D1" "D2"
           (demo_task "T" "ok" ["D1"; "D2"] 0 None 0 None)
           (demo_task "D1" "ok" [] 0 None 0 None)
           (demo_task "D2" "fail" [] 1 None 0 None)).
  - by apply acyclic_deps_demo.
  - reflexivity.
  - reflexivity.
  - reflexivity.
  - reflexivity.
  - reflexivity.
  - reflexivity.
Defined.

(** C3 as stated fails at [deps_capped_demo]: [D1] is registered and has
    no [last_run], but the run-cap gate turns it away, and the handler of
    [T] is called while [D1] still has no [last_run]. *)
Lemma capped_dependency_is_skipped :
  (last_run <$> tasks deps_capped_demo !! "D1") = Some None /\
  exists st' r params store,
    _execute_task 3 "T" deps_capped_demo = Some (st', Some r) /\
    status r = COMPLETED /\
    EvInvoke "T" params store ∈ trace st' /\
    ~ has_run store "D1".
Proof.
  split; [reflexivity|]. do 4 eexists.
  split; [vm_compute; reflexivity|]. split; [reflexivity|]. split.
  - apply list_elem_of_lookup. exists 6%nat. reflexivity.
  - intros (t & d & Ht & Hd). vm_compute in Ht. injection Ht as <-. done.
Qed.

(** C2 at [twice_demo]: two firings with results, then the gate. *)
Lemma run_cap_closes_on_next_firing_witness :
  exists fuel st1 rs task1,
    fire_times fuel 2 "job" twice_demo = Some (st1, rs) /\
    length rs = 2%nat /\
    Forall is_Some rs /\
    tasks st1 !! "job" = Some task1 /\
    run_count task1 = 2 /\
    enabled task1 = true /\
    forall m : nat, exists st2 task2,
      fire_times fuel (S m) "job" st1 = Some (st2, replicate (S m) None) /\
      results st2 = results st1 /\
      tasks st2 !! "job" = Some task2 /\
      run_count task2 = 2 /\
      enabled task2 = false.
Proof.
  apply (run_cap_closes_on_next_firing twice_demo "job"
           (demo_task "job" "ok" [] 3 (Some 2) 0 None) 2).
  - apply acyclic_single.
  - reflexivity.
  - reflexivity.
  - discriminate.
  - simpl. lia.
Defined.

(** C2 as stated fails at [once_demo]: the task has [max_runs = 1]; after
    exactly one completed firing its [run_count] is 1 and it is still
    enabled. *)
Lemma once_task_still_enabled_after_its_run :
  (max_runs <$> tasks once_demo !! "once") = Some (Some 1) /\
  forall fuel st' r,
    _execute_task fuel "once" once_demo = Some (st', r) ->
    (status <$> r) = Some COMPLETED /\
    (run_count <$> tasks st' !! "once") = Some 1 /\
    (enabled <$> tasks st' !! "once") = Some true.
Proof.
  split; [reflexivity|].
  intros [|fuel] st' r Hex; [done|].
  rewrite _execute_task_S in Hex. vm_compute in Hex.
  injection Hex as <- <-. by vm_compute.
Qed.

(** C4 at [flow_demo]: [a] completes, so [b] runs too. *)
Lemma run_workflow_branching_witness :
  exists st2 rA rB, run_workflow 3 "w" flow_demo = Some (st2, inr [rA; rB]).
Proof.
  destruct (run_workflow_branching "w" scenario_workflow flow_demo eq_refl)
    as (_ & _ & Hscenario).
  do 3 eexists.
  eapply (Hscenario 1%nat (Some "a") (Some "b") None None).
  - reflexivity.
  - vm_compute. reflexivity.
  - reflexivity.
  - vm_compute. reflexivity.
Defined.

(** C6 at [ghost_demo]: the workflow step names an unregistered task and
    [run_workflow] raises. *)
Theorem run_workflow_raises_on_unknown_task :
  tasks ghost_demo !! "ghost" = None /\
  run_workflow 2 "w" ghost_demo =
    Some (ghost_demo,
          inl (AttributeError "'NoneType' object has no attribute 'status'")).
Proof.
  split; [reflexivity|].
  by apply (run_workflow_unknown_task 0 "w" ghost_workflow
              (branch_A (Some "ghost") None) []).
Qed.

Lemma clock_iso_roundtrip d : clock_fromisoformat (clock_isoformat d) = Some d.
Proof.
  unfold clock_fromisoformat, clock_isoformat.
  rewrite Ascii.eqb_refl, NilEmpty.usu. simpl. by rewrite Unsigned.of_to.
Qed.

Lemma clock_iso_nonempty d : clock_isoformat d <> EmptyString.
Proof. done. Qed.

(** C5 at [no_retry_task] with the clock codec: the fourteen persisted
    fields come back. *)
Lemma snapshot_round_trip_witness :
  exists t',
    from_dict clock_fromisoformat 7%nat (to_dict clock_isoformat no_retry_task)
      = Some t' /\
    id t' = "t" /\ name t' = "t" /\ description t' = EmptyString /\
    trigger_type t' = INTERVAL /\ trigger_config t' = ∅ /\
    action t' = "print" /\ action_params t' = ∅ /\
    enabled t' = true /\ created_at t' = 0%nat /\
    last_run t' = None /\ run_count t' = 0 /\
    max_runs t' = None /\ tags t' = [] /\
    dependencies t' = [] /\
    next_run t' = None.
Proof.
  apply (snapshot_round_trip clock_isoformat clock_fromisoformat 7%nat
           no_retry_task).
  - apply clock_iso_roundtrip.
  - apply clock_iso_nonempty.
Defined.

(** C5 as stated fails at [no_retry_task]: whatever the ISO codec and the
    clock, [to_dict] followed by [from_dict] does not give the task back --
    [retry_on_fail = false] comes back as [true]. *)
Lemma snapshot_loses_retry_policy :
  ~ exists (isoformat : datetime -> string)
           (fromisoformat : string -> option datetime) (current : datetime),
      from_dict fromisoformat current (to_dict isoformat no_retry_task)
        = Some no_retry_task.
Proof.
  intros (isoformat & fromisoformat & current & Hback).
  by destruct (from_dict_defaults _ _ _ _ Hback) as (_ & Hretry & _).
Qed.

Lemma acyclic_fan_demo : acyclic fan_demo.
Proof.
  apply acyclic_flat. simpl. rewrite <- insert_empty.
  do 3 apply flat_demo_task. apply flat_empty.
Qed.

(** C7 at [fan_demo]: three enabled subscribers, the second one failing. *)
Lemma event_fan_out_witness :
  exists fuel st' fired,
    emit_event fuel "x" (VStr "payload") fan_demo = Some (st', fired) /\
    fan_out (VStr "payload") ["s1"; "s2"; "s3"] fan_demo fired st' /\
    fired.*1 `sublist_of` ["s1"; "s2"; "s3"] /\
    (no_caps fan_demo ->
     fired.*1 = ["s1"; "s2"; "s3"] /\
     Forall (fun entry => is_Some entry.2) fired).
Proof.
  apply (event_fan_out fan_demo "x" (VStr "payload")). apply acyclic_fan_demo.
Defined.

(** C8 at an engine that has not run anything, and at a full log. *)
Lemma result_log_bounded_witness :
  (length (results retry_demo) <= 1000)%nat /\
  length (append_result demo_result (replicate 1000 demo_result)) = 500%nat.
Proof.
  destruct result_log_bounded as [Hreach Htrim]. split.
  - apply Hreach. by apply reach_init.
  - apply Htrim. rewrite length_app, length_replicate. simpl. lia.
Defined.

(** C10 at [retry_demo]: an id that is not there, and the one that is. *)
Lemma store_ops_by_id_witness :
  (remove_task "nobody" retry_demo = (retry_demo, false) /\
   enable_task "nobody" retry_demo = (retry_demo, false) /\
   disable_task "nobody" retry_demo = (retry_demo, false)) /\
  ((remove_task "job" retry_demo).2 = true /\
   get_task "job" (remove_task "job" retry_demo).1 = None /\
   forall other, other ≠ "job" ->
     get_task other (remove_task "job" retry_demo).1 = get_task other retry_demo).
Proof.
  split.
  - apply (store_ops_by_id "nobody" retry_demo). reflexivity.
  - apply (store_ops_by_id "job" retry_demo). by eexists.
Defined.

(** * Further properties of the engine *)

Set Warnings "-clear-no-such-hyp".

(** ** Invariants that depend on how a step is reached

    As in the section [Invariant], but each primitive step may rely on what
    the dispatcher has checked before it takes the step: the task is
    registered, a retry has budget left, a result is Completed without an
    error message or Failed with one and without a value. *)

Section Guarded.
Variable I : State -> Prop.
Hypothesis I_disable : forall task_id st, I st -> I (disable_task task_id st).1.
Hypothesis I_invoked : forall task_id task st,
  tasks st !! task_id = Some task -> I st -> I (invoked task_id task st).
Hypothesis I_retry : forall task_id task st,
  tasks st !! task_id = Some task -> retry_on_fail task = true ->
  0 < retry_count task -> I st -> I (retry_state task_id task st).
Hypothesis I_finalize : forall task_id task start s v err st,
  tasks st !! task_id = Some task ->
  (s = COMPLETED /\ err = None) \/ (s = FAILED /\ is_Some err /\ v = VNone) ->
  I st -> I (finalize task_id start s v err st).1.

Lemma action_phase_guarded exec task_id task0 start st st' r :
  (forall s s' r', exec task_id s = Some (s', r') -> I s -> I s') ->
  is_Some (tasks st !! task_id) ->
  action_phase exec task_id task0 start st = Some (st', r) -> I st -> I st'.
Proof using I_invoked I_retry I_finalize.
  intros Hexec [task Ht] Hact Hst. unfold action_phase in Hact.
  rewrite (task_object_stored _ _ _ _ Ht) in Hact. cbv zeta in Hact.
  destruct (actions st !! _) as [h|].
  - destruct (h _ _) as [v|e].
    + final_state Hact.
      eapply I_finalize; [exact Ht|by left|by apply I_invoked].
    + destruct (retry_on_fail task && (0 <? retry_count task)) eqn:Hretry.
      * apply andb_true_iff in Hretry as [Hon Hleft]. apply Z.ltb_lt in Hleft.
        eapply Hexec; [exact Hact|].
        apply I_retry; [exact Ht|done|done|by apply I_invoked].
      * final_state Hact.
        eapply I_finalize; [exact Ht|right; eauto|by apply I_invoked].
  - final_state Hact. eapply I_finalize; [exact Ht|right; eauto|done].
Qed.

Lemma _execute_task_guarded fuel :
  forall task_id st st' r,
    _execute_task fuel task_id st = Some (st', r) -> I st -> I st'.
Proof using I_disable I_invoked I_retry I_finalize.
  induction fuel as [|fuel IH]; intros task_id st st' r Hex Hst; [done|].
  rewrite _execute_task_S in Hex.
  destruct (tasks st !! task_id) as [task|] eqn:Ht; [|by inversion Hex; subst].
  destruct (max_runs_reached task) eqn:Hcap.
  { final_state Hex. by apply I_disable. }
  destruct (run_dependencies _ _ st) as [st1|] eqn:Hdeps; [|done].
  eapply action_phase_guarded; [intros; by eapply IH| |exact Hex|].
  - apply run_dependencies_extends in Hdeps as (_ & _ & _ & _ & Hev).
    destruct (store_evolves_lookup_fwd _ _ _ _ Hev Ht) as (t' & Ht' & _).
    by exists t'.
  - eapply run_dependencies_invariant; [exact IH|exact Hdeps|done].
Qed.

Hypothesis I_inject : forall task_id data st,
  I st -> I (inject_event_data task_id data st).

Lemma emit_loop_guarded fuel data :
  forall task_ids st st' fired,
    emit_loop fuel data task_ids st = Some (st', fired) -> I st -> I st'.
Proof using I_disable I_invoked I_retry I_finalize I_inject.
  induction task_ids as [|t ts IH]; intros st st' fired Hrun Hst; simpl in Hrun.
  - by inversion Hrun; subst.
  - destruct (tasks st !! t) as [task|]; [|by eauto].
    destruct (enabled task); [|by eauto].
    destruct (_execute_task _ _ _) as [[s1 r1]|] eqn:E; [|done].
    destruct (emit_loop _ _ ts s1) as [[s2 f2]|] eqn:E2; [|done].
    inversion Hrun; subst. eapply IH; [exact E2|].
    eapply _execute_task_guarded; [exact E|]. by apply I_inject.
Qed.

Lemma execute_step_guarded fuel step st st' r :
  execute_step fuel step st = Some (st', r) -> I st -> I st'.
Proof using I_disable I_invoked I_retry I_finalize.
  unfold execute_step. destruct (step_task_id step).
  - apply _execute_task_guarded.
  - by inversion 1; subst.
Qed.

Lemma workflow_loop_guarded fuel :
  forall stps pointer acc st st' out,
    workflow_loop fuel stps pointer acc st = Some (st', out) -> I st -> I st'.
Proof using I_disable I_invoked I_retry I_finalize.
  induction fuel as [|fuel IH]; intros stps cur acc st st' out Hrun Hst; [done|].
  rewrite workflow_loop_S in Hrun.
  destruct (cur <? _); [|by inversion Hrun; subst].
  destruct (step_at stps cur) as [step|]; [|by inversion Hrun; subst].
  destruct (execute_step fuel step st) as [[s1 [r1|]]|] eqn:E; [| |done].
  - apply execute_step_guarded in E; [|done].
    destruct (next_pointer _ _ _); [by eauto|by inversion Hrun; subst].
  - inversion Hrun; subst. by eapply execute_step_guarded.
Qed.

Hypothesis I_add : forall task st, I st -> I (add_task task st).1.
Hypothesis I_remove : forall task_id st, I st -> I (remove_task task_id st).1.
Hypothesis I_enable : forall task_id st, I st -> I (enable_task task_id st).1.
Hypothesis I_register : forall name_ func st, I st -> I (register_action name_ func st).
Hypothesis I_on_event : forall event_name task_id st,
  I st -> I (on_event event_name task_id st).

Lemma engine_op_guarded st st' : engine_op st st' -> I st -> I st'.
Proof using All.
  destruct 1 as [task|task_id|task_id|task_id|nm func|ev task_id
                 |fuel task_id st' r Hex|fuel ev data st' fired Hev
                 |fuel wid st' out Hwf]; intros Hst; auto.
  - by eapply _execute_task_guarded.
  - by eapply emit_loop_guarded.
  - unfold run_workflow in Hwf. destruct (workflows st !! wid).
    + by eapply workflow_loop_guarded.
    + by inversion Hwf; subst.
Qed.

Lemma reachable_guarded :
  (forall st, results st = [] -> I st) -> forall st, reachable st -> I st.
Proof using All.
  intros Hinit. induction 1 as [st Hst|st st' _ IH Hop]; [by apply Hinit|].
  by eapply engine_op_guarded.
Qed.
End Guarded.

(** ** The task table *)

Lemma tasks_schedule task_id st :
  tasks (_schedule_task task_id st) = tasks st \/
  exists next, tasks (_schedule_task task_id st) =
               alter (set_next_run next) task_id (tasks st).
Proof.
  unfold _schedule_task. destruct (tasks st !! task_id) as [task|]; [|by left].
  destruct (negb (enabled task)); [by left|].
  destruct (negb (_create_trigger task)); [by left|].
  right. by eexists.
Qed.

Lemma tasks_disable task_id st :
  tasks (disable_task task_id st).1 = tasks st \/
  tasks (disable_task task_id st).1 = alter (set_enabled false) task_id (tasks st).
Proof. destruct (disable_task_fst task_id st) as [-> | ->]; auto. Qed.

Lemma keyed_alter f task_id (store : gmap string ScheduledTask) :
  (forall t, id (f t) = id t) -> keyed store -> keyed (alter f task_id store).
Proof.
  intros Hf Hk k t Hlook. destruct (decide (k = task_id)) as [->|Hne].
  - rewrite lookup_alter_eq in Hlook.
    destruct (store !! task_id) as [t0|] eqn:E; [|done].
    simpl in Hlook. inversion Hlook; subst. rewrite Hf. by apply Hk.
  - rewrite lookup_alter_ne in Hlook by done. by apply Hk.
Qed.

Lemma keyed_schedule task_id st :
  keyed (tasks st) -> keyed (tasks (_schedule_task task_id st)).
Proof.
  intros Hk. destruct (tasks_schedule task_id st) as [-> | [next ->]]; [done|].
  by apply keyed_alter.
Qed.

Lemma keyed_op st st' : engine_op st st' -> keyed (tasks st) -> keyed (tasks st').
Proof.
  apply (engine_op_guarded (fun s => keyed (tasks s))).
  - intros task_id s Hk. destruct (tasks_disable task_id s) as [-> | ->]; [done|].
    by apply keyed_alter.
  - done.
  - intros task_id task s _ _ _ Hk. simpl. by apply keyed_alter.
  - intros task_id task start sts v err s _ _ Hk. simpl. by apply keyed_alter.
  - intros task_id data s Hk. simpl. by apply keyed_alter.
  - intros task s Hk. unfold add_task.
    assert (keyed (<[id task := task]> (tasks s))) as Hins.
    { intros k t Hlook. destruct (decide (k = id task)) as [->|Hne].
      - rewrite lookup_insert_eq in Hlook. by inversion Hlook; subst.
      - rewrite lookup_insert_ne in Hlook by done. by apply Hk. }
    destruct (enabled task); simpl; [|done].
    by apply (keyed_schedule (id task) (with_tasks (insert (id task) task) s)).
  - intros task_id s Hk. unfold remove_task.
    destruct (tasks s !! task_id); [|done]. simpl.
    intros k t Hlook. apply lookup_delete_Some in Hlook as [_ Hlook]. by apply Hk.
  - intros task_id s Hk. unfold enable_task.
    destruct (tasks s !! task_id); [|done]. simpl.
    apply (keyed_schedule task_id (with_tasks (alter (set_enabled true) task_id) s)).
    simpl. by apply keyed_alter.
  - done.
  - done.
Qed.

Lemma jobs_registered_step st st' :
  (forall x, x ∈ jobs st' -> x ∈ jobs st) ->
  (forall x, is_Some (tasks st !! x) -> is_Some (tasks st' !! x)) ->
  jobs_registered st -> jobs_registered st'.
Proof. intros Hj Ht Hreg x Hx. apply Ht, Hreg, Hj, Hx. Qed.

Lemma jobs_registered_alter f task_id st st' :
  jobs st' ⊆ jobs st -> tasks st' = alter f task_id (tasks st) ->
  jobs_registered st -> jobs_registered st'.
Proof.
  intros Hj Ht. apply jobs_registered_step; [set_solver|].
  intros x Hx. rewrite Ht. by apply lookup_alter_is_Some.
Qed.

Lemma jobs_registered_schedule task_id st :
  jobs_registered st -> jobs_registered (_schedule_task task_id st).
Proof.
  intros Hreg. unfold _schedule_task.
  destruct (tasks st !! task_id) as [task|] eqn:Ht; [|done].
  destruct (negb (enabled task)); [done|].
  destruct (negb (_create_trigger task)); [done|].
  intros x Hx. simpl in *. apply lookup_alter_is_Some.
  apply elem_of_union in Hx as [Hx|Hx]; [|by apply Hreg].
  apply elem_of_singleton in Hx as ->. by rewrite Ht.
Qed.

Lemma jobs_registered_op st st' :
  engine_op st st' -> jobs_registered st -> jobs_registered st'.
Proof.
  apply (engine_op_guarded jobs_registered).
  - intros task_id s Hreg. destruct (disable_task_fst task_id s) as [-> | ->]; [done|].
    eapply jobs_registered_alter; [|reflexivity|exact Hreg]. simpl.
    intros x [Hx _]%elem_of_difference. exact Hx.
  - done.
  - intros task_id task s _ _ _ Hreg.
    eapply jobs_registered_alter; [|reflexivity|exact Hreg]. simpl. set_solver.
  - intros task_id task start sts v err s _ _ Hreg.
    eapply jobs_registered_alter; [|reflexivity|exact Hreg]. simpl. set_solver.
  - intros task_id data s Hreg.
    eapply jobs_registered_alter; [|reflexivity|exact Hreg]. simpl. set_solver.
  - intros task s Hreg. unfold add_task.
    assert (jobs_registered (with_tasks (insert (id task) task) s)) as Hins.
    { intros x Hx. simpl. apply lookup_insert_is_Some'. right. by apply Hreg. }
    destruct (enabled task); simpl; [|done].
    by apply (jobs_registered_schedule (id task)) in Hins.
  - intros task_id s Hreg. unfold remove_task.
    destruct (tasks s !! task_id); [|done]. simpl.
    intros x Hx. simpl in *. apply elem_of_difference in Hx as [Hx Hne].
    rewrite lookup_delete_ne by set_solver. by apply Hreg.
  - intros task_id s Hreg. unfold enable_task.
    destruct (tasks s !! task_id); [|done]. simpl.
    apply (jobs_registered_schedule task_id
             (with_tasks (alter (set_enabled true) task_id) s)).
    eapply jobs_registered_alter; [|reflexivity|exact Hreg]. simpl. set_solver.
  - done.
  - done.
Qed.

(** X1.  Every operation of the public surface keeps the task table
    consistent: each task stays stored under its own id, and each job the
    trigger engine holds still belongs to a registered task. *)
Theorem store_consistency_preserved (st st' : State) :
  engine_op st st' ->
  keyed (tasks st) -> jobs_registered st ->
  keyed (tasks st') /\ jobs_registered st'.
Proof.
  intros Hop Hk Hreg. split; [by eapply keyed_op|by eapply jobs_registered_op].
Qed.

Lemma store_consistency_preserved_witness :
  keyed (tasks (add_task no_retry_task retry_demo).1) /\
  jobs_registered (add_task no_retry_task retry_demo).1.
Proof.
  apply (store_consistency_preserved retry_demo).
  - apply op_add_task.
  - intros k t Hlook. simpl in Hlook.
    apply lookup_singleton_Some in Hlook as [<- <-]. reflexivity.
  - intros x Hx. simpl in Hx. by apply not_elem_of_empty in Hx.
Defined.

Lemma without_added (x : string) (s : gset string) :
  x ∉ s -> ({[x]} ∪ s) ∖ {[x]} = s.
Proof.
  intros Hx. apply set_eq. intros y.
  rewrite elem_of_difference, elem_of_union, elem_of_singleton. split.
  - by intros [[->|Hy] Hne].
  - intros Hy. split; [by right|]. by intros ->.
Qed.

Lemma without_absent (x : string) (s : gset string) : x ∉ s -> s ∖ {[x]} = s.
Proof.
  intros Hx. apply set_eq. intros y.
  rewrite elem_of_difference, elem_of_singleton. split; [by intros [Hy _]|].
  intros Hy. split; [done|]. by intros ->.
Qed.

Lemma _schedule_task_enabled task_id task st :
  tasks st !! task_id = Some task -> enabled task = true ->
  tasks (_schedule_task task_id st) =
    (if _create_trigger task
     then alter (set_next_run
                   (next_fire st (trigger_type task) (trigger_config task) (now st)))
            task_id (tasks st)
     else tasks st) /\
  jobs (_schedule_task task_id st) =
    (if _create_trigger task then {[task_id]} ∪ jobs st else jobs st).
Proof.
  intros Ht Hen. unfold _schedule_task. rewrite Ht, Hen. simpl.
  by destruct (_create_trigger task).
Qed.

Lemma add_task_effect (task : ScheduledTask) (st : State) :
  (add_task task st).2 = id task /\
  (exists stored,
     get_task (id task) (add_task task st).1 = Some stored /\
     set_next_run None stored = set_next_run None task /\
     next_run stored =
       if enabled task && _create_trigger task
       then next_fire st (trigger_type task) (trigger_config task) (now st)
       else next_run task) /\
  (forall other, other <> id task ->
     get_task other (add_task task st).1 = get_task other st) /\
  jobs (add_task task st).1 =
    (if enabled task && _create_trigger task
     then {[id task]} ∪ jobs st else jobs st) /\
  results (add_task task st).1 = results st.
Proof.
  unfold add_task, get_task. split; [done|].
  destruct (enabled task) eqn:Hen; simpl.
  - unfold _schedule_task. simpl. rewrite lookup_insert_eq, Hen. simpl.
    destruct (_create_trigger task) eqn:Htr; simpl.
    + rewrite lookup_alter_eq, lookup_insert_eq. simpl.
      split_and!; [|..|done|done].
      * eexists. split_and!; [reflexivity|simpl; by rewrite ?Hen|reflexivity].
      * intros other Hne. by rewrite lookup_alter_ne, lookup_insert_ne.
    + rewrite lookup_insert_eq.
      split_and!; [|..|done|done].
      * eexists. split_and!; [reflexivity|simpl; by rewrite ?Hen|reflexivity].
      * intros other Hne. by rewrite lookup_insert_ne.
  - rewrite lookup_insert_eq.
    split_and!; [|..|done|done].
    + eexists. split_and!; [reflexivity|simpl; by rewrite ?Hen|reflexivity].
    + intros other Hne. by rewrite lookup_insert_ne.
Qed.




(** X3.  Removing a task right after adding it under an id that was free
    (no task and no job under it) gives back the task table and the job
    set as they were, and [remove_task] reports success. *)
Theorem remove_task_undoes_add_task (task : ScheduledTask) (st : State) :
  get_task (id task) st = None ->
  id task ∉ jobs st ->
  (remove_task (id task) (add_task task st).1).2 = true /\
  tasks (remove_task (id task) (add_task task st).1).1 = tasks st /\
  jobs (remove_task (id task) (add_task task st).1).1 = jobs st /\
  results (remove_task (id task) (add_task task st).1).1 = results st.
Proof.
  unfold get_task. intros Hfree Hjob.
  destruct (add_task_effect task st)
    as (_ & (stored & Hstored & _) & Hother & Hjobs & Hres).
  set (s1 := (add_task task st).1) in *. clearbody s1.
  unfold get_task in *. unfold remove_task. rewrite Hstored. simpl.
  split_and!; [done| | |done].
  - apply map_eq. intros x. destruct (decide (x = id task)) as [->|Hne].
    + by rewrite lookup_delete_eq, Hfree.
    + rewrite lookup_delete_ne by done. by apply Hother.
  - rewrite Hjobs. destruct (_ && _).
    + by apply without_added.
    + by apply without_absent.
Qed.

Lemma remove_task_undoes_add_task_witness :
  (remove_task "t" (add_task no_retry_task retry_demo).1).2 = true /\
  tasks (remove_task "t" (add_task no_retry_task retry_demo).1).1
    = tasks retry_demo /\
  jobs (remove_task "t" (add_task no_retry_task retry_demo).1).1
    = jobs retry_demo /\
  results (remove_task "t" (add_task no_retry_task retry_demo).1).1
    = results retry_demo.
Proof.
  apply (remove_task_undoes_add_task no_retry_task retry_demo).
  - reflexivity.
  - simpl. apply not_elem_of_empty.
Defined.



(** ** Queries *)

Lemma elem_of_task_values (store : gmap string ScheduledTask) t :
  t ∈ (map_to_list store).*2 <-> exists k, store !! k = Some t.
Proof.
  rewrite list_elem_of_fmap. split.
  - intros ([k t'] & -> & Hin). exists k. by apply elem_of_map_to_list.
  - intros [k Hk]. exists (k, t). split; [done|]. by apply elem_of_map_to_list.
Qed.

(** X5.  [list_tasks] returns exactly the registered tasks that pass the
    two filters: with [enabled_only] the enabled ones, with a non-empty tag
    list those that carry at least one of the tags.  An empty tag list
    filters nothing, like no tag list at all; and without filters every
    registered task is listed, once per id. *)
Theorem list_tasks_spec (enabled_only : bool) (tags_ : option (list string))
    (st : State) :
  (forall t,
     t ∈ list_tasks enabled_only tags_ st <->
     (exists k, tasks st !! k = Some t) /\
     (enabled_only = true -> enabled t = true) /\
     (forall wanted, tags_ = Some wanted -> wanted <> [] ->
        exists tag, tag ∈ wanted /\ tag ∈ tags t)) /\
  list_tasks enabled_only (Some []) st = list_tasks enabled_only None st /\
  length (list_tasks false None st) = size (tasks st).
Proof.
  split; [|split; [done|]].
  - intros t. unfold list_tasks.
    set (shown := if enabled_only then _ else _).
    assert (t ∈ shown <->
            (exists k, tasks st !! k = Some t) /\
            (enabled_only = true -> enabled t = true)) as Hshown.
    { unfold shown. destruct enabled_only.
      - rewrite list_elem_of_filter, elem_of_task_values. naive_solver.
      - rewrite elem_of_task_values. naive_solver. }
    clearbody shown. destruct tags_ as [[|w ws]|].
    + rewrite Hshown. naive_solver.
    + rewrite list_elem_of_filter, Hshown, Exists_exists. split.
      * intros [Htag [Hk Hen]]. split_and!; [done|done|].
        intros wanted [= <-] _. exact Htag.
      * intros (Hk & Hen & Htag). split; [|done]. by apply Htag.
    + rewrite Hshown. naive_solver.
  - unfold list_tasks. by rewrite length_fmap, length_map_to_list.
Qed.

Lemma list_tasks_spec_witness :
  (forall t,
     t ∈ list_tasks true (Some ["nightly"]) disabled_demo <->
     (exists k, tasks disabled_demo !! k = Some t) /\
     (true = true -> enabled t = true) /\
     (forall wanted, Some ["nightly"] = Some wanted -> wanted <> [] ->
        exists tag, tag ∈ wanted /\ tag ∈ tags t)) /\
  list_tasks true (Some []) disabled_demo = list_tasks true None disabled_demo /\
  length (list_tasks false None disabled_demo) = size (tasks disabled_demo).
Proof. exact (list_tasks_spec true (Some ["nightly"]) disabled_demo). Defined.


Lemma length_last_n {A} (n : Z) (l : list A) :
  length (last_n n l) =
  if 0 <? n then Nat.min (Z.to_nat n) (length l)
  else (length l - Z.to_nat (- n))%nat.
Proof.
  unfold last_n. destruct (0 <? n); rewrite length_drop; lia.
Qed.

(** X6.  [get_results] filters the log by task id (unless the id is absent
    or empty) and by status (unless absent), keeps the log's order, and
    returns a tail of what matches: the [limit] most recent matches for a
    positive [limit]; every match for [limit = 0]; and for a negative
    [limit] the matches without the [-limit] oldest ones. *)
Theorem get_results_spec (task_id : option string) (status_ : option TaskStatus)
    (limit : Z) (st : State) :
  exists matching,
    matching `sublist_of` results st /\
    (forall r,
       r ∈ matching <->
       r ∈ results st /\
       (forall wanted, task_id = Some wanted -> wanted <> EmptyString ->
          res_task_id r = wanted) /\
       (forall wanted, status_ = Some wanted -> status r = wanted)) /\
    get_results task_id status_ limit st `suffix_of` matching /\
    length (get_results task_id status_ limit st) =
      (if 0 <? limit then Nat.min (Z.to_nat limit) (length matching)
       else (length matching - Z.to_nat (- limit))%nat) /\
    (limit = 0 -> get_results task_id status_ limit st = matching).
Proof.
  unfold get_results.
  set (by_task := match task_id with Some _ => _ | None => _ end).
  set (by_status := match status_ with Some _ => _ | None => _ end).
  assert (by_task `sublist_of` results st /\
          forall r, r ∈ by_task <->
            r ∈ results st /\
            (forall wanted, task_id = Some wanted -> wanted <> EmptyString ->
               res_task_id r = wanted)) as [Hsub1 Hin1].
  { unfold by_task. destruct task_id as [wanted|]; [|split; [done|naive_solver]].
    destruct (String.eqb_spec wanted EmptyString) as [->|Hne].
    - split; [done|naive_solver].
    - split; [apply sublist_filter|].
      intros r. rewrite list_elem_of_filter. naive_solver. }
  clearbody by_task.
  assert (by_status `sublist_of` by_task /\
          forall r, r ∈ by_status <->
            r ∈ by_task /\
            (forall wanted, status_ = Some wanted -> status r = wanted))
    as [Hsub2 Hin2].
  { unfold by_status. destruct status_ as [wanted|]; [|split; [done|naive_solver]].
    split; [apply sublist_filter|].
    intros r. rewrite list_elem_of_filter. naive_solver. }
  clearbody by_status. exists by_status. split_and!.
  - by etrans.
  - intros r. rewrite Hin2, Hin1. naive_solver.
  - unfold last_n. destruct (0 <? limit); apply suffix_drop.
  - apply length_last_n.
  - intros ->. reflexivity.
Qed.

Lemma get_results_spec_witness :
  exists matching,
    matching `sublist_of` results retry_demo /\
    (forall r,
       r ∈ matching <->
       r ∈ results retry_demo /\
       (forall wanted, Some "job" = Some wanted -> wanted <> EmptyString ->
          res_task_id r = wanted) /\
       (forall wanted, Some FAILED = Some wanted -> status r = wanted)) /\
    get_results (Some "job") (Some FAILED) 0 retry_demo `suffix_of` matching /\
    length (get_results (Some "job") (Some FAILED) 0 retry_demo) =
      (length matching - 0)%nat /\
    (0 = 0 -> get_results (Some "job") (Some FAILED) 0 retry_demo = matching).
Proof. exact (get_results_spec (Some "job") (Some FAILED) 0 retry_demo). Defined.


(** ** The result log *)

Lemma finalized_append r (log : list TaskResult) :
  finalized r -> Forall finalized log -> Forall finalized (append_result r log).
Proof.
  intros Hr Hlog. unfold append_result.
  assert (Forall finalized (log ++ [r])) as Hall.
  { apply Forall_app. split; [done|]. by apply Forall_singleton. }
  destruct (_ <? _)%nat; [by apply Forall_drop|done].
Qed.

Lemma finalized_op st st' :
  engine_op st st' -> Forall finalized (results st) -> Forall finalized (results st').
Proof.
  apply (engine_op_guarded (fun s => Forall finalized (results s))).
  - intros. by rewrite results_disable.
  - done.
  - done.
  - intros task_id task start s v err st0 _ Hs Hlog. simpl.
    apply finalized_append; [|done]. split; simpl; [tauto|eauto].
  - done.
  - intros task s Hlog.
    by destruct (add_task_effect task s) as (_ & _ & _ & _ & ->).
  - intros task_id s Hlog. unfold remove_task. by destruct (tasks s !! task_id).
  - intros task_id s Hlog. unfold enable_task.
    destruct (tasks s !! task_id); [|done]. simpl. by rewrite results_schedule.
  - done.
  - done.
Qed.

Lemma reachable_finalized (st : State) :
  reachable st -> Forall finalized (results st).
Proof.
  induction 1 as [st Hinit|st st' _ IH Hop].
  - rewrite Hinit. constructor.
  - by eapply finalized_op.
Qed.

(** X7.  In every state the engine can reach, each logged result is
    finalised: it is Completed without an error message, or Failed with an
    error message and no value (never Pending, Running or Cancelled); its
    end time is set, and its duration is its end time minus its start
    time. *)
Theorem logged_results_finalized (st : State) :
  reachable st -> Forall finalized (results st).
Proof. exact (reachable_finalized st). Qed.

Lemma logged_results_finalized_witness :
  exists st' r,
    _execute_task 3 "job" retry_demo = Some (st', r) /\
    Forall finalized (results st').
Proof.
  do 2 eexists. split; [vm_compute; reflexivity|].
  apply logged_results_finalized.
  apply (reach_op retry_demo); [by apply reach_init|].
  eapply (op_execute_task retry_demo 3 "job"). vm_compute. reflexivity.
Defined.

Lemma count_split {A} (P Q : A -> Prop)
    `{!forall x, Decision (P x), !forall x, Decision (Q x)} (l : list A) :
  Forall (fun x => (P x \/ Q x) /\ ~ (P x /\ Q x)) l ->
  (length (filter P l) + length (filter Q l) = length l)%nat.
Proof.
  induction 1 as [|x l [Hor Hnot] _ IH]; [done|]. rewrite !filter_cons.
  destruct (decide (P x)), (decide (Q x)); simpl; try lia; tauto.
Qed.

Lemma Zpos_of_nat (n : nat) : (0 < n)%nat -> Z.pos (Pos.of_nat n) = Z.of_nat n.
Proof. intros Hn. rewrite <- positive_nat_Z, Nat2Pos.id; lia. Qed.

(** X8.  [get_task_stats] returns the empty dictionary exactly when the
    log holds no result of the task.  Otherwise, in every state the engine
    can reach: at least one run is counted, the completed and the failed
    runs add up to the total, the success rate is completed over total and
    lies between 0 and 1, and [last_run] and [last_status] are those of the
    task's most recent logged result, the status being ["completed"] or
    ["failed"]. *)
Theorem get_task_stats_spec (task_id : string) (st : State) :
  reachable st ->
  (get_task_stats task_id st = None <->
   forall r, r ∈ results st -> res_task_id r <> task_id) /\
  forall stats,
    get_task_stats task_id st = Some stats ->
    (0 < total_runs stats)%nat /\
    (completed stats + failed stats = total_runs stats)%nat /\
    success_rate stats =
      QArith_base.Qmake (Z.of_nat (completed stats))
        (Pos.of_nat (total_runs stats)) /\
    QArith_base.Qle (QArith_base.Qmake 0 1) (success_rate stats) /\
    QArith_base.Qle (success_rate stats) (QArith_base.Qmake 1 1) /\
    exists newest,
      last (filter (fun r => res_task_id r = task_id) (results st)) = Some newest /\
      stats_last_run stats = start_time newest /\
      last_status stats = status_value (status newest) /\
      (last_status stats = "completed" \/ last_status stats = "failed").
Proof.
  intros Hreach. apply reachable_finalized in Hreach.
  unfold get_task_stats. cbv zeta.
  set (own := filter (fun r => res_task_id r = task_id) (results st)).
  assert (Forall finalized own) as Hown.
  { apply Forall_forall. intros r [_ Hr]%list_elem_of_filter.
    by eapply Forall_forall in Hreach. }
  split.
  - split.
    + intros Hnone. destruct (last own) eqn:Hlast; [done|].
      apply last_None in Hlast. intros r Hr Hid.
      by eapply (filter_nil_not_elem_of _ _ r Hlast).
    + intros Hno. assert (own = []) as ->; [|done].
      destruct own as [|r0 rest] eqn:E; [done|].
      assert (r0 ∈ own) as Hin by (rewrite E; left).
      apply list_elem_of_filter in Hin as [Hid Hin]. by apply Hno in Hin.
  - intros stats Hstats.
    destruct (last own) as [newest|] eqn:Hlast; [|done].
    assert (0 < length own)%nat as Hpos.
    { destruct own; [done|]. simpl. lia. }
    assert (length (filter (fun r => status r = COMPLETED) own) <= length own)%nat
      as Hdone by apply length_filter.
    inversion Hstats; subst stats; clear Hstats. cbn [total_runs completed failed
      success_rate stats_last_run last_status].
    split_and!; [done| |done| | |].
    + apply count_split. eapply Forall_impl; [exact Hown|].
      intros r [[[-> _]|[-> _]] _]; split; auto; by intros [? ?].
    + unfold QArith_base.Qle. simpl. lia.
    + unfold QArith_base.Qle. cbn [QArith_base.Qnum QArith_base.Qden].
      rewrite Zpos_of_nat by done. lia.
    + exists newest. split_and!; [done|done|done|].
      apply last_Some in Hlast as [l' Hl'].
      assert (finalized newest) as [[[-> _]|[-> _]] _]; [|by left|by right].
      eapply Forall_forall; [exact Hown|]. rewrite Hl'.
      apply elem_of_app. right. by left.
Qed.

Lemma get_task_stats_spec_witness :
  exists st' r stats,
    _execute_task 3 "job" retry_demo = Some (st', r) /\
    get_task_stats "job" st' = Some stats /\
    (0 < total_runs stats)%nat /\
    (completed stats + failed stats = total_runs stats)%nat /\
    success_rate stats =
      QArith_base.Qmake (Z.of_nat (completed stats))
        (Pos.of_nat (total_runs stats)) /\
    QArith_base.Qle (QArith_base.Qmake 0 1) (success_rate stats) /\
    QArith_base.Qle (success_rate stats) (QArith_base.Qmake 1 1) /\
    exists newest,
      last (filter (fun r => res_task_id r = "job") (results st')) = Some newest /\
      stats_last_run stats = start_time newest /\
      last_status stats = status_value (status newest) /\
      (last_status stats = "completed" \/ last_status stats = "failed").
Proof.
  do 3 eexists. split; [vm_compute; reflexivity|].
  split; [vm_compute; reflexivity|].
  refine (proj2 (get_task_stats_spec "job" _ _) _ _); [|vm_compute; reflexivity].
  apply (reach_op retry_demo); [by apply reach_init|].
  eapply (op_execute_task retry_demo 3 "job"). vm_compute. reflexivity.
Defined.

(** ** The dispatcher on a single task *)

Lemma finalize_result task_id start s v err st st' r :
  finalize task_id start s v err st = (st', Some r) ->
  start_time r = start /\ end_time r = Some (now st) /\
  duration r = Z.of_nat (now st) - Z.of_nat start /\
  calls st' = calls st /\ now st' = now st /\ actions st' = actions st /\
  results st' = append_result r (results st).
Proof. unfold finalize. by intros [= <- <-]. Qed.

Lemma leaf_success task_id h v st task :
  tasks st !! task_id = Some task ->
  dependencies task = [] ->
  max_runs_reached task = false ->
  actions st !! action task = Some h ->
  h (calls st) (action_params task) = Returned v ->
  exists st' r,
    _execute_task 1 task_id st = Some (st', Some r) /\
    res_task_id r = task_id /\
    status r = COMPLETED /\ result r = v /\ error r = None /\
    start_time r = now st /\
    trace st' =
      trace st ++ [EvInvoke task_id (action_params task) (tasks st);
                   EvFinal r; EvSave (tasks st')] /\
    last (results st') = Some r /\
    tasks st' !! task_id = Some (mark_run (now st) task) /\
    calls st' = S (calls st).
Proof.
  intros Ht Hdeps Hcap Hact Hret.
  rewrite _execute_task_S, Ht, Hcap, Hdeps. simpl run_dependencies. cbv iota.
  unfold action_phase. cbv zeta.
  rewrite (task_object_stored _ _ _ _ Ht), Hact, Hret.
  destruct (finalize_facts task_id (now st) COMPLETED v None
              (invoked task_id task st) task Ht)
    as (r & st' & Hfin & Hid & Hst & Hres & Herr & Ht' & Htr & Hown & Hlast).
  destruct (finalize_result _ _ _ _ _ _ _ _ Hfin) as (Hstart & _ & _ & Hcalls & _).
  rewrite Hfin. exists st', r. split_and!; try done.
  rewrite Htr. simpl. by rewrite <- app_assoc.
Qed.

(** X9.  A task without dependencies whose handler fails [j] times and
    then returns [v], with retries switched on and at least [j] retries
    left: the execution returns one Completed result carrying [v].  For the
    task it makes [j] failed attempts, each followed by a sleep of
    [retry_delay], then the successful attempt, and finalises once.  The
    result's start time is that of the last attempt.  The retry budget is
    lower by [j] afterwards -- success does not restore it -- and the run
    count is up by one. *)
Theorem transient_failures_are_retried (st : State) (task_id : string)
    (task : ScheduledTask) (h : Handler) (v : Value) (j : nat) :
  tasks st !! task_id = Some task ->
  dependencies task = [] ->
  max_runs_reached task = false ->
  actions st !! action task = Some h ->
  retry_on_fail task = true ->
  Z.of_nat j <= retry_count task ->
  fails_then_returns h (calls st) j (action_params task) v ->
  exists st' r new task',
    _execute_task (S j) task_id st = Some (st', Some r) /\
    status r = COMPLETED /\ result r = v /\ error r = None /\
    start_time r = (now st + j * Z.to_nat (retry_delay task))%nat /\
    trace st' = trace st ++ new /\
    own_steps task_id new =
      retries j (retry_delay task) ++ [OwnAttempt; OwnFinal COMPLETED] /\
    last (results st') = Some r /\
    tasks st' !! task_id = Some task' /\
    retry_count task' = retry_count task - Z.of_nat j /\
    run_count task' = run_count task + 1 /\
    calls st' = (calls st + S j)%nat.
Proof.
  revert st task.
  induction j as [|j IH]; intros st task Ht Hdeps Hcap Hact Hon Hbudget [Hfail Hret].
  - rewrite Nat.add_0_r in Hret.
    destruct (leaf_success task_id h v st task Ht Hdeps Hcap Hact Hret)
      as (st' & r & Hex & Hid & Hst & Hres & Herr & Hstart & Htr & Hlast & Ht'
          & Hcalls).
    exists st', r,
      [EvInvoke task_id (action_params task) (tasks st);
       EvFinal r; EvSave (tasks st')],
      (mark_run (now st) task).
    split_and!; try done.
    + rewrite Hstart. lia.
    + unfold own_steps. simpl. rewrite !decide_True by done. by rewrite Hst.
    + simpl. lia.
    + lia.
  - rewrite _execute_task_S, Ht, Hcap, Hdeps. simpl run_dependencies. cbv iota.
    unfold action_phase. cbv zeta.
    rewrite (task_object_stored _ _ _ _ Ht), Hact.
    destruct (Hfail 0%nat) as [e He]; [lia|]. rewrite Nat.add_0_r in He.
    rewrite He, Hon. simpl andb.
    destruct (Z.ltb_spec 0 (retry_count task)) as [_|Hno]; [|lia].
    set (st2 := retry_state task_id task (invoked task_id task st)).
    destruct (IH st2 (set_retry_count (retry_count task - 1) task))
      as (st' & r & new & task' & Hex & Hst & Hres & Herr & Hstart & Htr & Hown
          & Hlast & Ht' & Hrc & Hrun & Hcalls).
    + by apply retry_state_lookup.
    + done.
    + done.
    + done.
    + done.
    + simpl. lia.
    + split.
      * intros i Hi. destruct (Hfail (S i)) as [e' He']; [lia|]. exists e'.
        simpl. by rewrite Nat.add_succ_r in He'.
      * simpl. by rewrite Nat.add_succ_r in Hret.
    + exists st', r,
        ([EvInvoke task_id (action_params task) (tasks st);
          EvSleep task_id (retry_delay task)] ++ new), task'.
      split_and!; try done.
      * rewrite Hstart. simpl. lia.
      * rewrite Htr. simpl. by rewrite <- !app_assoc.
      * rewrite own_steps_app, own_steps_invoke_sleep, Hown. done.
      * rewrite Hrc. simpl. lia.
      * rewrite Hcalls. simpl. lia.
Qed.

Lemma transient_failures_are_retried_witness :
  exists st' r new task',
    _execute_task 3 "job" flaky_demo = Some (st', Some r) /\
    status r = COMPLETED /\ result r = VStr "done" /\ error r = None /\
    start_time r = 120%nat /\
    trace st' = trace flaky_demo ++ new /\
    own_steps "job" new =
      [OwnAttempt; OwnSleep 60; OwnAttempt; OwnSleep 60;
       OwnAttempt; OwnFinal COMPLETED] /\
    last (results st') = Some r /\
    tasks st' !! "job" = Some task' /\
    retry_count task' = 1 /\
    run_count task' = 1 /\
    calls st' = 3%nat.
Proof.
  apply (transient_failures_are_retried flaky_demo "job"
           (demo_task "job" "flaky" [] 3 None 0 None) (flaky_handler 2)
           (VStr "done") 2); try reflexivity.
  - simpl. lia.
  - split; [|reflexivity]. intros i Hi. exists "flaky".
    destruct i as [|[|i]]; [reflexivity|reflexivity|lia].
Defined.

(** X10.  A task whose handler raises [e], with retries switched off or
    with no retry left (a budget of zero or below): the execution makes one
    attempt and returns one Failed result whose error is [e] and whose
    value is empty; there is no back-off sleep, the budget stays as it
    was, and the run still counts. *)
Theorem failure_without_retry (st : State) (task_id : string)
    (task : ScheduledTask) (h : Handler) (e : string) :
  acyclic st ->
  tasks st !! task_id = Some task ->
  max_runs_reached task = false ->
  actions st !! action task = Some h ->
  (forall n, h n (action_params task) = Raised e) ->
  retry_on_fail task = false \/ retry_count task <= 0 ->
  exists fuel st' r new task',
    _execute_task fuel task_id st = Some (st', Some r) /\
    status r = FAILED /\ error r = Some e /\ result r = VNone /\
    trace st' = trace st ++ new /\
    own_steps task_id new = [OwnAttempt; OwnFinal FAILED] /\
    last (results st') = Some r /\
    tasks st' !! task_id = Some task' /\
    retry_count task' = retry_count task /\
    run_count task' = run_count task + 1.
Proof.
  intros [rk Hrk] Ht Hcap Hact Hraise Hoff.
  destruct (attempt_unfold rk st task_id task Hrk Ht Hcap)
    as (f0 & st1 & Hext & Hc & Ht1 & Hun).
  destruct Hext as (Hacts & _). destruct Hc as (_ & new1 & Htr1 & Hnew1).
  specialize (Hun f0 (Nat.le_refl _)).
  unfold action_phase in Hun. cbv zeta in Hun.
  rewrite (task_object_stored _ _ _ _ Ht1), Hacts, Hact, Hraise in Hun.
  assert (retry_on_fail task && (0 <? retry_count task) = false) as Hno.
  { destruct Hoff as [-> | Hle]; [done|].
    apply andb_false_iff. right. by apply Z.ltb_ge. }
  rewrite Hno in Hun.
  destruct (finalize_facts task_id (now st) FAILED VNone (Some e)
              (invoked task_id task st1) task Ht1)
    as (r & st' & Hfin & Hid & Hst & Hres & Herr & Ht' & Htr & Hown & Hlast).
  rewrite Hfin in Hun.
  exists (S f0), st', r,
    (new1 ++ [EvInvoke task_id (action_params task) (tasks st1)]
       ++ [EvFinal r; EvSave (tasks st')]),
    (mark_run (now st) task).
  split_and!; try done.
  - rewrite Htr. simpl. rewrite Htr1. by rewrite <- !app_assoc.
  - rewrite !own_steps_app, Hown, own_steps_invoke.
    rewrite (own_steps_foreign _ _ _ Hnew1); [done|lia].
Qed.

Lemma failure_without_retry_witness :
  exists fuel st' r new task',
    _execute_task fuel "job"
      (demo_engine {["job" := demo_task "job" "fail" [] 0 None 0 None]} ∅ ∅)
      = Some (st', Some r) /\
    status r = FAILED /\ error r = Some "boom" /\ result r = VNone /\
    trace st' = [] ++ new /\
    own_steps "job" new = [OwnAttempt; OwnFinal FAILED] /\
    last (results st') = Some r /\
    tasks st' !! "job" = Some task' /\
    retry_count task' = 0 /\
    run_count task' = 0 + 1.
Proof.
  apply (failure_without_retry
           (demo_engine {["job" := demo_task "job" "fail" [] 0 None 0 None]} ∅ ∅)
           "job" (demo_task "job" "fail" [] 0 None 0 None) failing_handler "boom").
  - apply acyclic_single.
  - reflexivity.
  - reflexivity.
  - reflexivity.
  - reflexivity.
  - right. simpl. lia.
Defined.

(** ** The retry budget *)

Lemma budgets_shrink_refl m : budgets_shrink m m.
Proof. intros x t Ht. exists t. split_and!; [done|lia|done]. Qed.

Lemma budgets_shrink_alter f k m0 m :
  (forall t, retry_count (f t) = retry_count t) ->
  budgets_shrink m0 m -> budgets_shrink m0 (alter f k m).
Proof.
  intros Hf Hm x t' Hlook. destruct (decide (x = k)) as [->|Hne].
  - rewrite lookup_alter_eq in Hlook.
    destruct (m !! k) as [t1|] eqn:E; [|done]. simpl in Hlook.
    inversion Hlook; subst. rewrite Hf. by apply Hm.
  - rewrite lookup_alter_ne in Hlook by done. by apply Hm.
Qed.

Lemma budgets_shrink_retry k task m0 m :
  m !! k = Some task -> 0 < retry_count task ->
  budgets_shrink m0 m ->
  budgets_shrink m0 (alter (set_retry_count (retry_count task - 1)) k m).
Proof.
  intros Hk Hpos Hm x t' Hlook. destruct (decide (x = k)) as [->|Hne].
  - rewrite lookup_alter_eq, Hk in Hlook. simpl in Hlook.
    inversion Hlook; subst. simpl.
    destruct (Hm k task Hk) as (t0 & Ht0 & Hle & Hnonneg).
    exists t0. split_and!; [done|lia|lia].
  - rewrite lookup_alter_ne in Hlook by done. by apply Hm.
Qed.

Section Budget.
Variable m0 : gmap string ScheduledTask.

Lemma budgets_disable task_id st :
  budgets_shrink m0 (tasks st) -> budgets_shrink m0 (tasks (disable_task task_id st).1).
Proof.
  intros Hm. destruct (tasks_disable task_id st) as [-> | ->]; [done|].
  by apply budgets_shrink_alter.
Qed.

Lemma budgets_retry task_id task st :
  tasks st !! task_id = Some task -> retry_on_fail task = true ->
  0 < retry_count task ->
  budgets_shrink m0 (tasks st) ->
  budgets_shrink m0 (tasks (retry_state task_id task st)).
Proof. intros Ht _ Hpos Hm. simpl. by apply budgets_shrink_retry. Qed.

Lemma budgets_finalize task_id start s v err st :
  budgets_shrink m0 (tasks st) ->
  budgets_shrink m0 (tasks (finalize task_id start s v err st).1).
Proof. intros Hm. simpl. by apply budgets_shrink_alter. Qed.

Lemma budgets_inject task_id data st :
  budgets_shrink m0 (tasks st) ->
  budgets_shrink m0 (tasks (inject_event_data task_id data st)).
Proof. intros Hm. simpl. by apply budgets_shrink_alter. Qed.
End Budget.

(** X11.  Nothing the engine runs gives a retry back: after an execution
    of a task, an event emission or a workflow run, every registered task
    has at most the retries it had before, and a budget that was not
    negative has not become negative.  (Retries spent on one firing are
    missing at the next.) *)
Theorem retry_budget_never_restored (st st' : State) :
  (exists fuel task_id r, _execute_task fuel task_id st = Some (st', r)) \/
  (exists fuel event_name data fired,
     emit_event fuel event_name data st = Some (st', fired)) \/
  (exists fuel workflow_id out,
     run_workflow fuel workflow_id st = Some (st', out)) ->
  budgets_shrink (tasks st) (tasks st').
Proof.
  pose proof (budgets_disable (tasks st)) as Hdis.
  pose proof (budgets_retry (tasks st)) as Hretry.
  assert (forall task_id task start s v err st0,
            tasks st0 !! task_id = Some task ->
            (s = COMPLETED /\ err = None) \/ (s = FAILED /\ is_Some err /\ v = VNone) ->
            budgets_shrink (tasks st) (tasks st0) ->
            budgets_shrink (tasks st) (tasks (finalize task_id start s v err st0).1))
    as Hfin.
  { intros. by apply budgets_finalize. }
  pose proof (budgets_inject (tasks st)) as Hinj.
  pose proof (budgets_shrink_refl (tasks st)) as Hrefl.
  intros [(fuel & task_id & r & Hex)|[(fuel & ev & data & fired & Hev)
                                     |(fuel & wid & out & Hwf)]].
  - by eapply (_execute_task_guarded
                 (fun s => budgets_shrink (tasks st) (tasks s))).
  - unfold emit_event in Hev.
    by eapply (emit_loop_guarded
                 (fun s => budgets_shrink (tasks st) (tasks s))).
  - unfold run_workflow in Hwf. destruct (workflows st !! wid).
    + by eapply (workflow_loop_guarded
                   (fun s => budgets_shrink (tasks st) (tasks s))).
    + by inversion Hwf; subst.
Qed.

Lemma retry_budget_never_restored_witness :
  exists st' r,
    _execute_task 3 "job" retry_demo = Some (st', r) /\
    budgets_shrink (tasks retry_demo) (tasks st').
Proof.
  do 2 eexists. split; [vm_compute; reflexivity|].
  apply retry_budget_never_restored. left.
  exists 3%nat, "job". eexists. vm_compute. reflexivity.
Defined.

(** X12.  The dispatcher does not look at [enabled]: a disabled task that
    is dispatched (as a workflow step, as a dependency, or by a job left in
    the trigger engine) runs like any other, yields a result, has its run
    counted, and stays disabled. *)
Theorem disabled_task_still_runs (st : State) (task_id : string)
    (task : ScheduledTask) :
  acyclic st ->
  tasks st !! task_id = Some task ->
  enabled task = false ->
  max_runs_reached task = false ->
  exists fuel st' r task',
    _execute_task fuel task_id st = Some (st', Some r) /\
    res_task_id r = task_id /\
    last (results st') = Some r /\
    tasks st' !! task_id = Some task' /\
    run_count task' = run_count task + 1 /\
    enabled task' = false.
Proof.
  intros [rk Hrk] Ht Hoff Hcap.
  destruct (firing_counts rk task_id (Z.to_nat (retry_count task)) st task
              Hrk Ht Hcap (Nat.le_refl _))
    as (fuel & st' & r & task' & Hex & Ht' & Hrun & Hen & _ & Hid & Hlast).
  exists fuel, st', r, task'. split_and!; try done. by rewrite Hen.
Qed.

Lemma disabled_task_still_runs_witness :
  exists fuel st' r task',
    _execute_task fuel "job" disabled_demo = Some (st', Some r) /\
    res_task_id r = "job" /\
    last (results st') = Some r /\
    tasks st' !! "job" = Some task' /\
    run_count task' = 0 + 1 /\
    enabled task' = false.
Proof.
  apply (disabled_task_still_runs disabled_demo "job"
           (set_enabled false (demo_task "job" "ok" [] 3 None 0 None)));
    try reflexivity.
  apply acyclic_flat. intros t task Hlook. simpl in Hlook.
  by apply lookup_singleton_Some in Hlook as [_ <-].
Defined.

(** ** What an execution leaves alone *)

Lemma static_fields_refl t : static_fields t t.
Proof. by repeat split. Qed.

Lemma store_frame_refl m : store_frame m m.
Proof.
  intros x. destruct (m !! x); [|done]. split; [apply static_fields_refl|done].
Qed.

Lemma store_frame_trans m1 m2 m3 :
  store_frame m1 m2 -> store_frame m2 m3 -> store_frame m1 m3.
Proof.
  intros H12 H23 x. specialize (H12 x). specialize (H23 x).
  destruct (m1 !! x) as [t1|], (m2 !! x) as [t2|], (m3 !! x) as [t3|]; try done.
  destruct H12 as [S12 E12], H23 as [S23 E23]. split; [|by auto].
  unfold static_fields in *. destruct_and!. split_and!; congruence.
Qed.

Lemma store_frame_alter f task_id m :
  (forall t, static_fields t (f t) /\ (enabled (f t) = true -> enabled t = true)) ->
  store_frame m (alter f task_id m).
Proof.
  intros Hf x. destruct (decide (x = task_id)) as [->|Hne].
  - rewrite lookup_alter_eq. destruct (m !! task_id); simpl; [apply Hf|done].
  - rewrite lookup_alter_ne by done. apply store_frame_refl.
Qed.

Lemma frame_refl st : frame st st.
Proof. split_and!; try done. apply store_frame_refl. Qed.

Lemma frame_trans st1 st2 st3 : frame st1 st2 -> frame st2 st3 -> frame st1 st3.
Proof.
  intros (T12 & A12 & W12 & E12 & J12 & N12 & C12 & P12)
         (T23 & A23 & W23 & E23 & J23 & N23 & C23 & P23).
  split_and!; try congruence; try lia; try (by etrans).
  by eapply store_frame_trans.
Qed.

Lemma frame_disable task_id st : frame st (disable_task task_id st).1.
Proof.
  destruct (disable_task_fst task_id st) as [-> | ->]; [apply frame_refl|].
  split_and!; simpl; try done.
  - apply store_frame_alter. intros t. split; [by repeat split|done].
  - intros x [Hx _]%elem_of_difference. exact Hx.
  - by apply prefix_app_r.
Qed.

Lemma frame_invoked task_id task st : frame st (invoked task_id task st).
Proof.
  split_and!; simpl; try done; try lia.
  - apply store_frame_refl.
  - by apply prefix_app_r.
Qed.

Lemma frame_retry task_id task st : frame st (retry_state task_id task st).
Proof.
  split_and!; simpl; try done; try lia.
  - apply store_frame_alter. intros t. split; [by repeat split|done].
  - by apply prefix_app_r.
Qed.

Lemma frame_finalize task_id start s v err st :
  frame st (finalize task_id start s v err st).1.
Proof.
  split_and!; simpl; try done.
  - apply store_frame_alter. intros t. split; [by repeat split|done].
  - rewrite <- app_assoc. by apply prefix_app_r.
Qed.

(** X13.  What an execution of a task, and so a workflow run, leaves
    alone: it registers and removes no task, enables none, and writes none
    of a task's fields except [enabled], [last_run], [run_count] and
    [retry_count] -- in particular [next_run] is not refreshed by a run;
    it leaves the action registry, the workflows and the subscriptions as
    they are and adds no job; the clock and the call counter do not go
    back, and what was traced stays traced. *)
Theorem execution_frame :
  (forall fuel task_id st st' r,
     _execute_task fuel task_id st = Some (st', r) -> frame st st') /\
  (forall fuel workflow_id st st' out,
     run_workflow fuel workflow_id st = Some (st', out) -> frame st st').
Proof.
  split.
  - intros fuel task_id st st' r Hex.
    eapply (_execute_task_invariant (frame st)); [..|exact Hex|apply frame_refl];
      intros; (eapply frame_trans; [eassumption|]).
    + apply frame_disable.
    + apply frame_invoked.
    + apply frame_retry.
    + apply frame_finalize.
  - intros fuel wid st st' out Hwf. unfold run_workflow in Hwf.
    destruct (workflows st !! wid); [|inversion Hwf; subst; apply frame_refl].
    eapply (workflow_loop_invariant (frame st)); [..|exact Hwf|apply frame_refl];
      intros; (eapply frame_trans; [eassumption|]).
    + apply frame_disable.
    + apply frame_invoked.
    + apply frame_retry.
    + apply frame_finalize.
Qed.

Lemma execution_frame_witness :
  exists st' r,
    _execute_task 3 "job" retry_demo = Some (st', r) /\ frame retry_demo st'.
Proof.
  do 2 eexists. split; [vm_compute; reflexivity|].
  eapply (proj1 execution_frame 3%nat "job"). vm_compute. reflexivity.
Defined.

(** ** Events *)

(** X14.  Emitting an event that has no subscriber, or whose subscribers
    are all unregistered or disabled at that moment, does nothing at all:
    the engine is left exactly as it was and no task is dispatched.
    ([on_event] accepts ids of tasks that do not exist; such entries are
    passed over on every emission.) *)
Theorem emit_event_without_live_subscriber (fuel : nat) (event_name : string)
    (data : Value) (st : State) :
  (forall task_id,
     task_id ∈ default [] (event_handlers st !! event_name) ->
     live st task_id = false) ->
  emit_event fuel event_name data st = Some (st, []).
Proof.
  unfold emit_event. generalize (default [] (event_handlers st !! event_name)).
  intros task_ids. induction task_ids as [|t ts IH]; intros Hidle; [done|].
  simpl.
  assert (live st t = false) as Ht by (apply Hidle; left).
  assert (emit_loop fuel data ts st = Some (st, [])) as Hrest.
  { apply IH. intros x Hx. apply Hidle. by right. }
  unfold live in Ht. destruct (tasks st !! t) as [task|]; [|done].
  by rewrite Ht.
Qed.

Lemma emit_event_without_live_subscriber_witness :
  emit_event 0 "x" (VStr "payload")
    (on_event "x" "job" (on_event "x" "ghost" disabled_demo))
  = Some (on_event "x" "job" (on_event "x" "ghost" disabled_demo), []).
Proof.
  apply (emit_event_without_live_subscriber 0 "x" (VStr "payload")
           (on_event "x" "job" (on_event "x" "ghost" disabled_demo))).
  intros task_id Hin.
  assert (default [] (event_handlers
            (on_event "x" "job" (on_event "x" "ghost" disabled_demo)) !! "x")
          = ["ghost"; "job"]) as Hsubs by reflexivity.
  rewrite Hsubs in Hin.
  apply elem_of_cons in Hin as [->|Hin]; [reflexivity|].
  apply list_elem_of_singleton in Hin as ->. reflexivity.
Defined.

(** X15.  [on_event] does not look for duplicates: a task subscribed
    twice to an event is dispatched twice by each emission, after the
    subscribers that were there before and in the order of
    subscription. *)
Theorem duplicate_subscription_fires_twice (st : State)
    (event_name task_id : string) (data : Value) :
  acyclic st -> no_caps st -> live st task_id = true ->
  exists fuel st' fired,
    emit_event fuel event_name data
      (on_event event_name task_id (on_event event_name task_id st))
      = Some (st', fired) /\
    fired.*1 =
      filter (fun x => live st x = true)
        (default [] (event_handlers st !! event_name)) ++ [task_id; task_id] /\
    Forall (fun entry => is_Some entry.2) fired.
Proof.
  intros [rk Hrk] Hcaps Hlive.
  set (st2 := on_event event_name task_id (on_event event_name task_id st)).
  assert (default [] (event_handlers st2 !! event_name) =
          default [] (event_handlers st !! event_name) ++ [task_id; task_id])
    as Hsubs.
  { unfold st2. rewrite !on_event_subscribers. by rewrite <- app_assoc. }
  destruct (emit_loop_fan_out rk data
              (default [] (event_handlers st2 !! event_name)) st2)
    as (fuel & st' & fired & Hrun & _); [exact Hrk|].
  exists fuel, st', fired. split; [exact Hrun|].
  destruct (emit_loop_static _ _ _ _ _ _ Hrun) as [Hids Hsome]; [exact Hcaps|].
  split; [|done]. rewrite Hids, Hsubs, filter_app.
  change (fun x => live st2 x = true) with (fun x => live st x = true).
  f_equal. by rewrite !filter_cons, !decide_True.
Qed.

Lemma duplicate_subscription_fires_twice_witness :
  exists fuel st' fired,
    emit_event fuel "x" (VStr "payload")
      (on_event "x" "s1" (on_event "x" "s1" fan_demo))
      = Some (st', fired) /\
    fired.*1 = ["s1"; "s2"; "s3"] ++ ["s1"; "s1"] /\
    Forall (fun entry => is_Some entry.2) fired.
Proof.
  apply (duplicate_subscription_fires_twice fan_demo "x" "s1" (VStr "payload")).
  - apply acyclic_fan_demo.
  - intros x t Hx. left. unfold fan_demo, demo_engine in Hx. cbn [tasks] in Hx.
    apply lookup_insert_Some in Hx as [[_ <-]|[_ Hx]]; [done|].
    apply lookup_insert_Some in Hx as [[_ <-]|[_ Hx]]; [done|].
    by apply lookup_singleton_Some in Hx as [_ <-].
  - reflexivity.
Defined.

Lemma emit_loop_keeps_event_data fuel data :
  forall task_ids st st' fired (P : string -> Prop),
    emit_loop fuel data task_ids st = Some (st', fired) ->
    (forall x, P x ->
       exists t, tasks st !! x = Some t /\
                 action_params t !! "event_data" = Some data) ->
    forall x, P x \/ x ∈ fired.*1 ->
      exists t, tasks st' !! x = Some t /\
                action_params t !! "event_data" = Some data.
Proof.
  induction task_ids as [|t ts IH]; intros st st' fired P Hrun HP x Hx;
    simpl in Hrun.
  - inversion Hrun; subst. destruct Hx as [Hx|Hx]; [by apply HP|].
    by apply elem_of_nil in Hx.
  - destruct (tasks st !! t) as [task|] eqn:Ht; [|by eapply IH].
    destruct (enabled task); [|by eapply IH].
    destruct (_execute_task _ _ _) as [[s1 r1]|] eqn:E; [|done].
    destruct (emit_loop _ _ ts s1) as [[s2 f2]|] eqn:E2; [|done].
    inversion Hrun; subst. clear Hrun.
    apply (IH s1 st' f2 (fun y => P y \/ y = t) E2).
    + intros y Hy.
      assert (exists t0, tasks (inject_event_data t data st) !! y = Some t0 /\
                         action_params t0 !! "event_data" = Some data)
        as (t0 & Ht0 & Hdata).
      { simpl. destruct (decide (y = t)) as [->|Hne].
        - rewrite lookup_alter_eq, Ht. simpl. eexists. split; [done|].
          simpl. apply lookup_insert_eq.
        - rewrite lookup_alter_ne by done. destruct Hy as [Hy|Hy]; [|done].
          by apply HP. }
      apply _execute_task_extends in E as (_ & _ & _ & _ & Hev).
      destruct (store_evolves_lookup_fwd _ _ _ _ Hev Ht0)
        as (t1 & Ht1 & _ & Hparams & _).
      exists t1. split; [done|]. by rewrite Hparams.
    + rewrite fmap_cons in Hx. simpl in Hx.
      destruct Hx as [Hx|Hx]; [by left; left|].
      apply elem_of_cons in Hx as [->|Hx]; [by left; right|by right].
Qed.

(** X16.  The event data an emission hands to a subscriber is written
    into the task itself and never taken out again: when [emit_event]
    returns, every task it dispatched still carries the data under
    ["event_data"] in its stored [action_params], so later firings of the
    task -- scheduled ones included -- pass it to the handler too. *)
Theorem event_data_stays_in_action_params (fuel : nat) (event_name : string)
    (data : Value) (st st' : State) (fired : list (string * option TaskResult)) :
  emit_event fuel event_name data st = Some (st', fired) ->
  forall task_id, task_id ∈ fired.*1 ->
    exists t, tasks st' !! task_id = Some t /\
              action_params t !! "event_data" = Some data.
Proof.
  intros Hrun task_id Hin.
  eapply (emit_loop_keeps_event_data _ _ _ _ _ _ (fun _ => False) Hrun);
    [by intros|by right].
Qed.

Lemma event_data_stays_in_action_params_witness :
  exists st' fired,
    emit_event 2 "x" (VStr "payload") fan_demo = Some (st', fired) /\
    forall task_id, task_id ∈ fired.*1 ->
      exists t, tasks st' !! task_id = Some t /\
                action_params t !! "event_data" = Some (VStr "payload").
Proof.
  do 2 eexists. split; [vm_compute; reflexivity|].
  eapply (event_data_stays_in_action_params 2 "x" (VStr "payload") fan_demo).
  vm_compute. reflexivity.
Defined.

(** ** The built-in print action *)

Lemma persistent_failure rk task_id h e (b : nat) :
  forall st task,
    ranked rk st ->
    tasks st !! task_id = Some task ->
    max_runs_reached task = false ->
    actions st !! action task = Some h ->
    (forall n, h n (action_params task) = Raised e) ->
    (Z.to_nat (retry_count task) <= b)%nat ->
    exists fuel st' r task',
      _execute_task fuel task_id st = Some (st', Some r) /\
      res_task_id r = task_id /\ status r = FAILED /\ error r = Some e /\
      tasks st' !! task_id = Some task' /\
      run_count task' = run_count task + 1.
Proof.
  induction b as [|b IHb]; intros st task Hrk Ht Hcap Hact Hraise Hle.
  all: destruct (attempt_unfold rk st task_id task Hrk Ht Hcap)
    as (f0 & st1 & Hext & Hc & Ht1 & Hun).
  all: pose proof (ranked_extends _ _ _ Hrk Hext) as Hrk1.
  all: destruct Hext as (Hacts & _).
  all: unfold action_phase in Hun; cbv zeta in Hun;
    rewrite (task_object_stored _ _ _ _ Ht1), Hacts, Hact, Hraise in Hun.
  all: destruct (retry_on_fail task && (0 <? retry_count task)) eqn:Hretry.
  2,4: destruct (finalize_facts task_id (now st) FAILED VNone (Some e)
                   (invoked task_id task st1) task Ht1)
         as (r & st' & Hfin & Hid & Hst & _ & Herr & Ht' & _ & _ & _);
       exists (S f0), st', r, (mark_run (now st) task);
       rewrite (Hun f0) by lia; rewrite Hfin; by split_and!.
  all: apply andb_true_iff in Hretry as [_ Hpos]; apply Z.ltb_lt in Hpos.
  - lia.
  - destruct (IHb (retry_state task_id task (invoked task_id task st1))
                (set_retry_count (retry_count task - 1) task))
      as (f2 & st' & r & task' & Hex & Hid & Hst & Herr & Ht' & Hrun).
    + by apply ranked_retry.
    + by apply retry_state_lookup.
    + done.
    + simpl. by rewrite Hacts.
    + done.
    + simpl. lia.
    + exists (S (f0 `max` f2)), st', r, task'. split_and!; try done.
      rewrite Hun by lia. apply (_execute_task_mono f2); [lia|done].
Qed.

Lemma print_rejects_event_data type_error n params data :
  _action_print type_error n (<["event_data" := data]> params) =
  Raised (type_error (<["event_data" := data]> params)).
Proof.
  unfold _action_print. destruct (_ !! "message"); [|done].
  rewrite decide_False; [done|]. intros Hdom.
  assert ("event_data" ∈ dom (<["event_data" := data]> params)) as Hin.
  { apply elem_of_dom. rewrite lookup_insert_eq. by eexists. }
  rewrite Hdom in Hin. by apply elem_of_singleton in Hin.
Qed.

(** X17.  The built-in print action takes exactly one keyword,
    [message]; an emission adds ["event_data"] to the parameters of the
    task it dispatches.  So a subscriber whose action is the built-in
    print fails on every emission, with the TypeError of the rejected
    call; and because the event data stays in the task's parameters, every
    later firing of that task fails as well. *)
Theorem print_subscriber_fails (type_error : gmap string Value -> string)
    (st : State) (event_name task_id : string) (task : ScheduledTask)
    (data : Value) :
  acyclic st ->
  actions st !! "print" = Some (_action_print type_error) ->
  event_handlers st !! event_name = Some [task_id] ->
  tasks st !! task_id = Some task ->
  enabled task = true -> action task = "print" -> max_runs task = None ->
  exists fuel st' r,
    emit_event fuel event_name data st = Some (st', [(task_id, Some r)]) /\
    status r = FAILED /\
    error r = Some (type_error (<["event_data" := data]> (action_params task))) /\
    exists fuel2 st2 r2,
      _execute_task fuel2 task_id st' = Some (st2, Some r2) /\
      status r2 = FAILED /\
      error r2 = Some (type_error (<["event_data" := data]> (action_params task))).
Proof.
  intros [rk Hrk] Hprint Hsubs Ht Hen Hact Hmax.
  set (task0 := set_action_params (<["event_data" := data]> (action_params task)) task).
  set (st0 := inject_event_data task_id data st).
  assert (tasks st0 !! task_id = Some task0) as Ht0.
  { unfold st0. simpl. by rewrite lookup_alter_eq, Ht. }
  assert (ranked rk st0) as Hrk0 by (by apply ranked_inject).
  assert (forall t, max_runs t = None -> max_runs_reached t = false) as Hopen.
  { intros t Hnone. unfold max_runs_reached. by rewrite Hnone. }
  destruct (persistent_failure rk task_id (_action_print type_error)
              (type_error (<["event_data" := data]> (action_params task)))
              (Z.to_nat (retry_count task0)) st0 task0)
    as (fuel & st' & r & task' & Hex & _ & Hst & Herr & Ht' & _); try done.
  { by apply Hopen. }
  { unfold task0. simpl. by rewrite Hact. }
  { intros n. apply print_rejects_event_data. }
  pose proof (_execute_task_extends _ _ _ _ _ Hex) as Hext.
  assert (evolves task0 task') as (Hact' & Hparams' & Hmax' & _).
  { destruct Hext as (_ & _ & _ & _ & Hev). specialize (Hev task_id).
    by rewrite Ht0, Ht' in Hev. }
  destruct (persistent_failure rk task_id (_action_print type_error)
              (type_error (<["event_data" := data]> (action_params task)))
              (Z.to_nat (retry_count task')) st' task')
    as (fuel2 & st2 & r2 & _ & Hex2 & _ & Hst2 & Herr2 & _); try done.
  { by eapply ranked_extends. }
  { apply Hopen. by rewrite Hmax'. }
  { destruct Hext as (-> & _). rewrite Hact'. unfold task0. simpl.
    by rewrite Hact. }
  { intros n. rewrite Hparams'. apply print_rejects_event_data. }
  exists fuel, st', r. split_and!; try done.
  - unfold emit_event. rewrite Hsubs. simpl. rewrite Ht, Hen.
    fold st0. by rewrite Hex.
  - by exists fuel2, st2, r2.
Qed.

Lemma print_subscriber_fails_witness :
  exists fuel st' r,
    emit_event fuel "ping" (VInt 7) (print_demo (fun _ => "TypeError"))
      = Some (st', [("hello", Some r)]) /\
    status r = FAILED /\
    error r = Some "TypeError" /\
    exists fuel2 st2 r2,
      _execute_task fuel2 "hello" st' = Some (st2, Some r2) /\
      status r2 = FAILED /\
      error r2 = Some "TypeError".
Proof.
  apply (print_subscriber_fails (fun _ => "TypeError")
           (print_demo (fun _ => "TypeError")) "ping" "hello"
           (set_action_params {["message" := VStr "hi"]}
              (demo_task "hello" "print" [] 1 None 0 None)) (VInt 7));
    try reflexivity.
  apply acyclic_flat. intros t task Hlook. simpl in Hlook.
  by apply lookup_singleton_Some in Hlook as [_ <-].
Defined.

Lemma success_path rk st task_id task h v :
  ranked rk st ->
  tasks st !! task_id = Some task ->
  max_runs_reached task = false ->
  actions st !! action task = Some h ->
  (forall n, h n (action_params task) = Returned v) ->
  exists fuel st' r new task',
    _execute_task fuel task_id st = Some (st', Some r) /\
    status r = COMPLETED /\ result r = v /\ error r = None /\
    trace st' = trace st ++ new /\
    own_steps task_id new = [OwnAttempt; OwnFinal COMPLETED] /\
    last (results st') = Some r /\
    tasks st' !! task_id = Some task' /\
    retry_count task' = retry_count task /\
    run_count task' = run_count task + 1.
Proof.
  intros Hrk Ht Hcap Hact Hret.
  destruct (attempt_unfold rk st task_id task Hrk Ht Hcap)
    as (f0 & st1 & Hext & Hc & Ht1 & Hun).
  destruct Hext as (Hacts & _). destruct Hc as (_ & new1 & Htr1 & Hnew1).
  specialize (Hun f0 (Nat.le_refl _)).
  unfold action_phase in Hun. cbv zeta in Hun.
  rewrite (task_object_stored _ _ _ _ Ht1), Hacts, Hact, Hret in Hun.
  destruct (finalize_facts task_id (now st) COMPLETED v None
              (invoked task_id task st1) task Ht1)
    as (r & st' & Hfin & Hid & Hst & Hres & Herr & Ht' & Htr & Hown & Hlast).
  rewrite Hfin in Hun.
  exists (S f0), st', r,
    (new1 ++ [EvInvoke task_id (action_params task) (tasks st1)]
       ++ [EvFinal r; EvSave (tasks st')]),
    (mark_run (now st) task).
  split_and!; try done.
  - rewrite Htr. simpl. rewrite Htr1. by rewrite <- !app_assoc.
  - rewrite !own_steps_app, Hown, own_steps_invoke.
    rewrite (own_steps_foreign _ _ _ Hnew1); [done|lia].
Qed.

(** X18.  A task with the built-in print action whose parameters are
    exactly a [message] completes at the first attempt, and the result's
    value is the message. *)
Theorem print_task_returns_message (type_error : gmap string Value -> string)
    (st : State) (task_id : string) (task : ScheduledTask) (message : Value) :
  acyclic st ->
  actions st !! "print" = Some (_action_print type_error) ->
  tasks st !! task_id = Some task ->
  max_runs_reached task = false ->
  action task = "print" ->
  action_params task = {["message" := message]} ->
  exists fuel st' r new task',
    _execute_task fuel task_id st = Some (st', Some r) /\
    status r = COMPLETED /\ result r = message /\ error r = None /\
    trace st' = trace st ++ new /\
    own_steps task_id new = [OwnAttempt; OwnFinal COMPLETED] /\
    last (results st') = Some r /\
    tasks st' !! task_id = Some task' /\
    retry_count task' = retry_count task /\
    run_count task' = run_count task + 1.
Proof.
  intros [rk Hrk] Hprint Ht Hcap Hact Hparams.
  apply (success_path rk st task_id task (_action_print type_error));
    try done.
  - by rewrite Hact.
  - intros n. rewrite Hparams. unfold _action_print.
    rewrite lookup_singleton_eq. rewrite decide_True; [done|].
    apply dom_singleton_L.
Qed.

Lemma print_task_returns_message_witness :
  exists fuel st' r new task',
    _execute_task fuel "hello" (print_demo (fun _ => "TypeError"))
      = Some (st', Some r) /\
    status r = COMPLETED /\ result r = VStr "hi" /\ error r = None /\
    trace st' = [] ++ new /\
    own_steps "hello" new = [OwnAttempt; OwnFinal COMPLETED] /\
    last (results st') = Some r /\
    tasks st' !! "hello" = Some task' /\
    retry_count task' = 1 /\
    run_count task' = 0 + 1.
Proof.
  apply (print_task_returns_message (fun _ => "TypeError")
           (print_demo (fun _ => "TypeError")) "hello"
           (set_action_params {["message" := VStr "hi"]}
              (demo_task "hello" "print" [] 1 None 0 None)) (VStr "hi"));
    try reflexivity.
  apply acyclic_flat. intros t task Hlook. simpl in Hlook.
  by apply lookup_singleton_Some in Hlook as [_ <-].
Defined.

(** ** Workflows *)

Lemma step_at_linear pre x rest :
  step_at (linear_step <$> (pre ++ x :: rest)) (Z.of_nat (length pre))
    = Some (linear_step x).
Proof.
  unfold step_at. destruct (Z.leb_spec 0 (Z.of_nat (length pre))); [|lia].
  rewrite Nat2Z.id, list_lookup_fmap, list_lookup_middle by done. done.
Qed.

Lemma linear_workflow_loop rk :
  forall ids pre acc st,
    ranked rk st -> no_caps st ->
    (forall x, x ∈ ids -> is_Some (tasks st !! x)) ->
    exists fuel st' out,
      workflow_loop fuel (linear_step <$> (pre ++ ids)) (Z.of_nat (length pre))
        acc st = Some (st', inr (acc ++ out)) /\
      res_task_id <$> out = ids.
Proof.
  induction ids as [|x rest IH]; intros pre acc st Hrk Hcaps Hreg.
  - exists 1%nat, st, []. split; [|done]. rewrite workflow_loop_S.
    rewrite !app_nil_r, length_fmap. by rewrite Z.ltb_irrefl.
  - destruct (Hreg x) as [task Ht]; [left|].
    destruct (firing_counts rk x (Z.to_nat (retry_count task)) st task Hrk Ht)
      as (f1 & st1 & r & task' & Hex & _ & _ & _ & _ & Hid & _);
      [by eapply no_caps_not_reached|lia|].
    pose proof (_execute_task_extends _ _ _ _ _ Hex) as Hext.
    destruct (_execute_task_no_caps _ _ _ _ _ Hex Hcaps) as [Hcaps1 _].
    destruct (IH (pre ++ [x]) (acc ++ [r]) st1) as (f2 & st' & out & Hrun & Hids).
    + by eapply ranked_extends.
    + done.
    + intros y Hy. destruct (Hreg y) as [ty Hty]; [by right|].
      destruct Hext as (_ & _ & _ & _ & Hev).
      destruct (store_evolves_lookup_fwd _ _ _ _ Hev Hty) as (t' & -> & _).
      by eexists.
    + exists (S (f1 `max` f2)), st', (r :: out).
      split; [|by rewrite fmap_cons, Hid, Hids].
      rewrite workflow_loop_S.
      assert ((Z.of_nat (length pre)
                 <? Z.of_nat (length (linear_step <$> (pre ++ x :: rest)))) = true)
        as ->.
      { apply Z.ltb_lt. rewrite length_fmap, length_app. simpl. lia. }
      rewrite step_at_linear.
      rewrite (execute_step_mono f1 (f1 `max` f2) (linear_step x) st (st1, Some r));
        [|lia|exact Hex].
      assert (selected (linear_step x) r = Some (SelStr "next")) as ->.
      { unfold selected. by destruct (decide _). }
      rewrite next_pointer_next.
      apply (workflow_loop_mono f2); [lia|].
      rewrite <- !app_assoc, length_app, Nat2Z.inj_add in Hrun. exact Hrun.
Qed.

(** X19.  A workflow made by [create_workflow] from steps that all go on
    to the next step, on registered tasks without run caps and with
    well-founded dependencies: [run_workflow] on the returned id returns,
    and its result list holds one result per step, in the order of the
    steps. *)
Theorem linear_workflow_runs_every_step (st : State)
    (new_id name_ description_ : string) (ids : list string) :
  acyclic st -> no_caps st ->
  (forall x, x ∈ ids -> is_Some (tasks st !! x)) ->
  exists fuel st' out,
    run_workflow fuel
      (create_workflow new_id name_ (linear_step <$> ids) description_ st).2
      (create_workflow new_id name_ (linear_step <$> ids) description_ st).1
      = Some (st', inr out) /\
    res_task_id <$> out = ids.
Proof.
  intros [rk Hrk] Hcaps Hreg.
  destruct (linear_workflow_loop rk ids [] []
              (create_workflow new_id name_ (linear_step <$> ids) description_ st).1)
    as (fuel & st' & out & Hrun & Hids); [exact Hrk|exact Hcaps|exact Hreg|].
  exists fuel, st', out. split; [|done].
  unfold run_workflow. simpl. rewrite lookup_insert_eq. exact Hrun.
Qed.

Lemma linear_workflow_runs_every_step_witness :
  exists fuel st' out,
    run_workflow fuel
      (create_workflow "w1" "all" (linear_step <$> ["s2"; "s1"; "s2"])
         EmptyString fan_demo).2
      (create_workflow "w1" "all" (linear_step <$> ["s2"; "s1"; "s2"])
         EmptyString fan_demo).1
      = Some (st', inr out) /\
    res_task_id <$> out = ["s2"; "s1"; "s2"].
Proof.
  apply (linear_workflow_runs_every_step fan_demo "w1" "all" EmptyString
           ["s2"; "s1"; "s2"]).
  - apply acyclic_fan_demo.
  - intros x t Hx. left. unfold fan_demo, demo_engine in Hx. cbn [tasks] in Hx.
    apply lookup_insert_Some in Hx as [[_ <-]|[_ Hx]]; [done|].
    apply lookup_insert_Some in Hx as [[_ <-]|[_ Hx]]; [done|].
    by apply lookup_singleton_Some in Hx as [_ <-].
  - intros x Hx.
    apply elem_of_cons in Hx as [->|Hx]; [by eexists|].
    apply elem_of_cons in Hx as [->|Hx]; [by eexists|].
    apply list_elem_of_singleton in Hx as ->. by eexists.
Defined.

Lemma self_jump_diverges task_id a h step rest :
  step_task_id step = Some task_id ->
  on_success step = Some (SelInt 0) ->
  always_returns h ->
  forall fuel acc st,
    (exists task, tasks st !! task_id = Some task /\ dependencies task = [] /\
                  max_runs task = None /\ action task = a) ->
    actions st !! a = Some h ->
    workflow_loop fuel (step :: rest) 0 acc st = None.
Proof.
  intros Hid Hjump Hret.
  induction fuel as [|fuel IH]; intros acc st (task & Ht & Hdeps & Hmax & Ha) Hact;
    [done|].
  rewrite workflow_loop_S.
  assert ((0 <? Z.of_nat (length (step :: rest))) = true) as ->.
  { apply Z.ltb_lt. simpl. lia. }
  change (step_at (step :: rest) 0) with (Some step).
  unfold execute_step. rewrite Hid.
  destruct fuel as [|fuel]; [reflexivity|].
  destruct (Hret (calls st) (action_params task)) as [v Hv].
  destruct (leaf_success task_id h v st task) as
    (st' & r & Hex & _ & Hst & _ & _ & _ & _ & _ & Ht' & _); try done.
  { unfold max_runs_reached. by rewrite Hmax. }
  { by rewrite Ha. }
  apply (_execute_task_mono 1 (S fuel)) in Hex; [|lia].
  rewrite Hex.
  assert (selected step r = Some (SelInt 0)) as ->.
  { unfold selected. by rewrite decide_True. }
  rewrite next_pointer_int. apply IH.
  - exists (mark_run (now st) task). by split_and!.
  - apply _execute_task_extends in Hex as (-> & _). done.
Qed.

(** X20.  A workflow whose first step sends the step pointer back to 0
    when its task succeeds, on a task without dependencies and without a
    run cap whose handler always returns: [run_workflow] never returns.
    (The loop has no bound on the number of steps it runs.) *)
Theorem self_jumping_workflow_never_returns (st : State)
    (workflow_id task_id : string) (workflow : Workflow) (step : Step)
    (rest : list Step) (task : ScheduledTask) (h : Handler) :
  workflows st !! workflow_id = Some workflow ->
  steps workflow = step :: rest ->
  step_task_id step = Some task_id ->
  on_success step = Some (SelInt 0) ->
  tasks st !! task_id = Some task ->
  dependencies task = [] -> max_runs task = None ->
  actions st !! action task = Some h -> always_returns h ->
  forall fuel, run_workflow fuel workflow_id st = None.
Proof.
  intros Hwf Hsteps Hid Hjump Ht Hdeps Hmax Hact Hret fuel.
  unfold run_workflow. rewrite Hwf, Hsteps.
  eapply self_jump_diverges; try done. by exists task.
Qed.

Lemma self_jumping_workflow_never_returns_witness :
  always_returns ok_handler /\
  forall fuel, run_workflow fuel "w" (jump_demo 0) = None.
Proof.
  assert (always_returns ok_handler) as Hok.
  { intros n params. by exists VNone. }
  split; [exact Hok|].
  exact (self_jumping_workflow_never_returns (jump_demo 0) "w" "a"
           (jump_workflow 0)
           {| step_task_id := Some "a"; on_success := Some (SelInt 0);
              on_failure := None; step_name := None |} []
           (demo_task "a" "ok" [] 0 None 0 None) ok_handler
           eq_refl eq_refl eq_refl eq_refl eq_refl eq_refl eq_refl eq_refl Hok).
Defined.

(** X21.  A branch selector that is an integer below minus the number of
    steps ends the run with an IndexError, after the step that selected it
    has run and with the results gathered so far lost to the caller.  (A
    negative selector within that range is not rejected: it counts steps
    from the end.) *)
Theorem selector_below_range_raises (st : State) (workflow_id : string)
    (workflow : Workflow) (step : Step) (rest : list Step) (fuel : nat)
    (st1 : State) (r : TaskResult) (i : Z) :
  workflows st !! workflow_id = Some workflow ->
  steps workflow = step :: rest ->
  execute_step fuel step st = Some (st1, Some r) ->
  selected step r = Some (SelInt i) ->
  (i < - Z.of_nat (length (steps workflow)) ->
   run_workflow (S (S fuel)) workflow_id st
     = Some (st1, inl (IndexError "list index out of range"))) /\
  (- Z.of_nat (length (steps workflow)) <= i < 0 ->
   step_at (steps workflow) i
     = steps workflow !! Z.to_nat (Z.of_nat (length (steps workflow)) + i) /\
   is_Some (step_at (steps workflow) i)).
Proof.
  intros Hwf Hsteps Hex Hsel. split.
  - intros Hlow. unfold run_workflow. rewrite Hwf, Hsteps in *.
    rewrite workflow_loop_S.
    assert ((0 <? Z.of_nat (length (step :: rest))) = true) as ->.
    { apply Z.ltb_lt. simpl. lia. }
    change (step_at (step :: rest) 0) with (Some step). cbv beta iota.
    rewrite (execute_step_mono fuel (S fuel) step st (st1, Some r)); [|lia|exact Hex].
    rewrite Hsel, next_pointer_int, workflow_loop_S.
    assert ((i <? Z.of_nat (length (step :: rest))) = true) as ->.
    { apply Z.ltb_lt. lia. }
    unfold step_at.
    destruct (Z.leb_spec 0 i); [lia|].
    by destruct (Z.leb_spec 0 (Z.of_nat (length (step :: rest)) + i)); [lia|].
  - intros [Hlow Hneg]. unfold step_at.
    destruct (Z.leb_spec 0 i); [lia|].
    destruct (Z.leb_spec 0 (Z.of_nat (length (steps workflow)) + i)); [|lia].
    split; [done|]. apply lookup_lt_is_Some. lia.
Qed.

Lemma selector_below_range_raises_witness :
  exists st1,
    run_workflow 3 "w" (jump_demo (-2))
      = Some (st1, inl (IndexError "list index out of range")).
Proof.
  eexists.
  refine (proj1 (selector_below_range_raises (jump_demo (-2)) "w"
                   (jump_workflow (-2))
                   {| step_task_id := Some "a"; on_success := Some (SelInt (-2));
                      on_failure := None; step_name := None |} [] 1 _ _ (-2)
                   _ _ _ _) _).
  - reflexivity.
  - reflexivity.
  - vm_compute. reflexivity.
  - reflexivity.
  - simpl. lia.
Defined.

(** ** Snapshots *)

Lemma get_req_missing {A} (conv : Value -> option A) data key :
  data !! key = None -> get_req conv data key = None.
Proof. intros Hnone. unfold get_req. by rewrite Hnone. Qed.

Lemma from_dict_needs fromisoformat current data key :
  key ∈ ["id"; "name"; "trigger_type"; "trigger_config"; "action"] ->
  data !! key = None ->
  from_dict fromisoformat current data = None.
Proof.
  intros Hkey Hnone. unfold from_dict.
  repeat match goal with
         | |- (?m ≫= _) = None =>
           let E := fresh "E" in destruct m eqn:E; simpl; [|done]
         end.
  exfalso.
  repeat (apply elem_of_cons in Hkey as [->|Hkey]);
    [..|by apply elem_of_nil in Hkey].
  all: match goal with
       | H : get_req _ ?d ?k = Some _, Hn : ?d !! ?k = None |- _ =>
         by rewrite (get_req_missing _ _ _ Hn) in H
       end.
Qed.

(** X22.  [from_dict] needs exactly five keys.  A dictionary that holds
    only [id], [name], [trigger_type], [trigger_config] and [action]
    deserialises, every other field taking its default: enabled, created
    now, never run, no run cap, three retries at sixty seconds, no tags and
    no dependencies.  A dictionary that lacks one of the five, or whose
    trigger type is not the value of a TriggerType member, does not
    deserialise. *)
Theorem from_dict_required_keys (fromisoformat : string -> option datetime)
    (current : datetime) :
  (forall id_ name_ action_ trigger_type_ trigger_config_,
     from_dict fromisoformat current
       (minimal_dict id_ name_ action_ trigger_type_ trigger_config_)
     = Some {| id := id_; name := name_; description := EmptyString;
               trigger_type := trigger_type_; trigger_config := trigger_config_;
               action := action_; action_params := ∅; enabled := true;
               created_at := current; last_run := None; next_run := None;
               run_count := 0; max_runs := None; retry_on_fail := true;
               retry_count := 3; retry_delay := 60; tags := [];
               dependencies := [] |}) /\
  (forall data key,
     key ∈ ["id"; "name"; "trigger_type"; "trigger_config"; "action"] ->
     data !! key = None ->
     from_dict fromisoformat current data = None) /\
  (forall data s,
     data !! "trigger_type" = Some (VStr s) ->
     (forall t, s <> trigger_value t) ->
     from_dict fromisoformat current data = None).
Proof.
  split_and!.
  - intros id_ name_ action_ tt cfg.
    unfold from_dict, get_req, get_or, read_created_at, read_last_run,
      read_max_runs, minimal_dict.
    change (list_to_map _ !! "id") with (Some (VStr id_)).
    change (list_to_map _ !! "name") with (Some (VStr name_)).
    change (list_to_map _ !! "trigger_type") with (Some (VStr (trigger_value tt))).
    change (list_to_map _ !! "trigger_config") with (Some (VDict cfg)).
    change (list_to_map _ !! "action") with (Some (VStr action_)).
    change (list_to_map _ !! "description") with (@None Value).
    change (list_to_map _ !! "action_params") with (@None Value).
    change (list_to_map _ !! "enabled") with (@None Value).
    change (list_to_map _ !! "created_at") with (@None Value).
    change (list_to_map _ !! "last_run") with (@None Value).
    change (list_to_map _ !! "run_count") with (@None Value).
    change (list_to_map _ !! "max_runs") with (@None Value).
    change (list_to_map _ !! "tags") with (@None Value).
    change (list_to_map _ !! "dependencies") with (@None Value).
    unfold as_trigger_type. simpl. by rewrite TriggerType_of_value_value.
  - apply from_dict_needs.
  - intros data s Hs Hunknown. unfold from_dict.
    assert (get_req as_trigger_type data "trigger_type" = None) as Htt.
    { unfold get_req, as_trigger_type. rewrite Hs. simpl.
      destruct (TriggerType_of_value s) as [t|] eqn:E; [|done].
      exfalso. apply (Hunknown t). unfold TriggerType_of_value in E.
      repeat case_decide; by simplify_eq. }
    repeat match goal with
           | |- (?m ≫= _) = None =>
             let E := fresh "E" in destruct m eqn:E; simpl; [|done]
           end.
    congruence.
Qed.

Lemma from_dict_required_keys_witness :
  from_dict clock_fromisoformat 7%nat
    (minimal_dict "t" "tick" "print" INTERVAL {["minutes" := VInt 5]})
  = Some (built_task "t" "tick" "print" INTERVAL {["minutes" := VInt 5]} ∅ None
            7%nat None) /\
  from_dict clock_fromisoformat 7%nat
    (delete "action" (minimal_dict "t" "tick" "print" INTERVAL ∅)) = None /\
  from_dict clock_fromisoformat 7%nat
    (<["trigger_type" := VStr "weekly"]> (minimal_dict "t" "tick" "print" INTERVAL ∅))
  = None.
Proof.
  destruct (from_dict_required_keys clock_fromisoformat 7%nat)
    as (Hmin & Hmissing & Hunknown).
  split_and!.
  - apply Hmin.
  - apply (Hmissing _ "action"); [|reflexivity].
    do 4 right. left.
  - apply (Hunknown _ "weekly"); [reflexivity|]. by intros [].
Defined.




Lemma foldl_reloaded (l : list (string * ScheduledTask)) :
  forall (m0 : gmap string ScheduledTask) x,
    NoDup l.*1 -> (forall k t, (k, t) ∈ l -> id t = k) ->
    foldl (fun m t => <[id t := reloaded t]> m) m0 l.*2 !! x =
    match (list_to_map l : gmap string ScheduledTask) !! x with
    | Some t => Some (reloaded t)
    | None => m0 !! x
    end.
Proof.
  induction l as [|[k t] l IH]; intros m0 x Hnd Hk; [done|].
  rewrite fmap_cons in Hnd. apply NoDup_cons in Hnd as [Hnotin Hnd].
  assert (id t = k) as Hid by (apply Hk; left).
  rewrite fmap_cons. simpl. rewrite IH; [|done|intros; apply Hk; by right].
  rewrite Hid. destruct (decide (x = k)) as [->|Hne].
  - by rewrite (not_elem_of_list_to_map_1 _ _ Hnotin), !lookup_insert_eq.
  - by rewrite !lookup_insert_ne.
Qed.

(** X24.  Saving an engine whose tasks are stored under their own ids
    and loading the snapshot into another engine brings every task back
    under its id, with [next_run] cleared and the retry settings at their
    defaults; ids the snapshot does not hold keep what the loading engine
    had; into an empty engine the load gives exactly the saved table in
    that form.  The load schedules nothing: the job set is as before. *)
Theorem save_load_round_trip
    (isoformat : datetime -> string) (fromisoformat : string -> option datetime)
    (st st0 : State) :
  (forall d, fromisoformat (isoformat d) = Some d) ->
  (forall d, isoformat d <> EmptyString) ->
  keyed (tasks st) ->
  (forall x,
     tasks (load fromisoformat (save isoformat st) st0) !! x =
     match tasks st !! x with
     | Some t => Some (reloaded t)
     | None => tasks st0 !! x
     end) /\
  (tasks st0 = ∅ ->
   tasks (load fromisoformat (save isoformat st) st0) = reloaded <$> tasks st) /\
  jobs (load fromisoformat (save isoformat st) st0) = jobs st0.
Proof.
  intros Hiso Hne Hk.
  assert (forall x,
            tasks (load fromisoformat (save isoformat st) st0) !! x =
            match tasks st !! x with
            | Some t => Some (reloaded t)
            | None => tasks st0 !! x
            end) as Hlook.
  { intros x. unfold load, save. simpl.
    rewrite (load_entries_to_dict isoformat fromisoformat Hiso Hne).
    rewrite foldl_reloaded.
    - by rewrite list_to_map_to_list.
    - apply NoDup_fst_map_to_list.
    - intros k t Hin. apply elem_of_map_to_list in Hin. by apply Hk. }
  split_and!; [done| |done].
  intros Hempty. apply map_eq. intros x.
  rewrite Hlook, lookup_fmap, Hempty.
  by destruct (tasks st !! x).
Qed.

Lemma save_load_round_trip_witness :
  (forall x,
     tasks (load clock_fromisoformat (save clock_isoformat retry_demo) ghost_demo)
       !! x =
     match tasks retry_demo !! x with
     | Some t => Some (reloaded t)
     | None => tasks ghost_demo !! x
     end) /\
  (tasks ghost_demo = ∅ ->
   tasks (load clock_fromisoformat (save clock_isoformat retry_demo) ghost_demo)
     = reloaded <$> tasks retry_demo) /\
  jobs (load clock_fromisoformat (save clock_isoformat retry_demo) ghost_demo)
    = jobs ghost_demo.
Proof.
  apply (save_load_round_trip clock_isoformat clock_fromisoformat retry_demo
           ghost_demo).
  - apply clock_iso_roundtrip.
  - apply clock_iso_nonempty.
  - intros k t Hlook. simpl in Hlook.
    apply lookup_singleton_Some in Hlook as [<- <-]. reflexivity.
Defined.

(** ** Builders *)

Lemma add_task_triggered task st :
  enabled task = true -> _create_trigger task = true ->
  (add_task task st).2 = id task /\
  tasks (add_task task st).1 !! id task =
    Some (set_next_run
            (next_fire st (trigger_type task) (trigger_config task) (now st)) task) /\
  jobs (add_task task st).1 = {[id task]} ∪ jobs st.
Proof.
  intros Hen Htr. unfold add_task. rewrite Hen. split; [done|].
  destruct (_schedule_task_enabled (id task) task
              (with_tasks (insert (id task) task) st)) as [Ht Hj];
    [simpl; apply lookup_insert_eq|done|].
  rewrite Htr in Ht, Hj. cbn [fst].
  change (tasks (_save_tasks ?s)) with (tasks s).
  change (jobs (_save_tasks ?s)) with (jobs s).
  rewrite Ht, Hj. split; [|done].
  simpl. by rewrite lookup_alter_eq, lookup_insert_eq.
Qed.




Lemma acyclic_add_leaf task st :
  acyclic st -> dependencies task = [] -> acyclic (add_task task st).1.
Proof.
  intros [rk Hrk] Hleaf.
  exists (fun x => if decide (x = id task) then 0%nat else S (rk x)).
  destruct (add_task_effect task st) as (_ & (stored & Hstored & Hsame & _) & Hother & _).
  unfold get_task in *.
  assert (dependencies stored = []) as Hdeps.
  { change (dependencies stored) with (dependencies (set_next_run None stored)).
    by rewrite Hsame. }
  intros t tk d dk Ht Hd Hdk Hnever.
  destruct (decide (t = id task)) as [->|Hnet].
  - rewrite Hstored in Ht. inversion Ht; subst.
    rewrite Hdeps in Hd. by apply elem_of_nil in Hd.
  - rewrite Hother in Ht by done.
    destruct (decide (d = id task)) as [->|Hned]; [lia|].
    rewrite Hother in Hdk by done.
    pose proof (Hrk t tk d dk Ht Hd Hdk Hnever). lia.
Qed.

Lemma fire_times_S fuel n task_id st :
  fire_times fuel (S n) task_id st =
  match _execute_task fuel task_id st with
  | Some (st1, r) =>
    match fire_times fuel n task_id st1 with
    | Some (st2, rs) => Some (st2, r :: rs)
    | None => None
    end
  | None => None
  end.
Proof. reflexivity. Qed.

Lemma fire_capped_job task_id fuel (m : nat) :
  forall st task st2 rs,
    tasks st !! task_id = Some task ->
    max_runs_reached task = true ->
    fire_times (S fuel) (S m) task_id st = Some (st2, rs) ->
    task_id ∉ jobs st2.
Proof.
  induction m as [|m IH]; intros st task st2 rs Ht Hcap Hfire.
  all: rewrite fire_times_S, _execute_task_S, Ht, Hcap in Hfire.
  all: assert ((disable_task task_id st).1 =
               _save_tasks (remove_job task_id
                 (with_tasks (alter (set_enabled false) task_id) st))) as Hoff
         by (unfold disable_task; by rewrite Ht).
  - inversion Hfire; subst. rewrite Hoff. simpl.
    intros [_ Hx]%elem_of_difference. apply Hx. by apply elem_of_singleton.
  - destruct (fire_times (S fuel) (S m) task_id (disable_task task_id st).1)
      as [[s2 rs2]|] eqn:E; [|done].
    inversion Hfire; subst.
    eapply (IH _ (set_enabled false task)); [|exact Hcap|exact E].
    rewrite Hoff. simpl. by rewrite lookup_alter_eq, Ht.
Qed.

(** X26.  A task made by [schedule_once] runs once and no more: in an
    engine with well-founded dependencies its first firing yields a result;
    every later firing yields nothing and adds nothing to the result log,
    and from the second firing on the task is disabled and holds no job,
    its run count staying at 1. *)
Theorem schedule_once_fires_once (isoformat : datetime -> string)
    (new_id action_ : string) (run_at : datetime)
    (params : option (gmap string Value)) (name_ : option string) (st : State) :
  acyclic st ->
  exists fuel st1 r,
    _execute_task fuel new_id
      (schedule_once isoformat new_id action_ run_at params name_ st).1
      = Some (st1, Some r) /\
    res_task_id r = new_id /\
    forall fuel2 m, exists st2 task2,
      fire_times (S fuel2) (S m) new_id st1 = Some (st2, replicate (S m) None) /\
      results st2 = results st1 /\
      tasks st2 !! new_id = Some task2 /\
      run_count task2 = 1 /\ enabled task2 = false /\ new_id ∉ jobs st2.
Proof.
  intros Hacyclic.
  unfold schedule_once, create_task.
  match goal with
  | |- context [add_task ?t _] => set (task0 := t)
  end.
  destruct (add_task_triggered task0 st) as (_ & Hstored & _);
    [reflexivity|reflexivity|].
  destruct (acyclic_add_leaf task0 st Hacyclic) as [rk Hrk]; [reflexivity|].
  set (st0 := (add_task task0 st).1) in *. clearbody st0.
  match type of Hstored with
  | _ = Some ?t => set (stored := t) in *
  end.
  destruct (firing_counts rk new_id (Z.to_nat (retry_count stored)) st0 stored)
    as (fuel & st1 & r & task1 & Hex & Ht1 & Hrun & _ & Hmax & Hid & _);
    [exact Hrk|exact Hstored|reflexivity|lia|].
  exists fuel, st1, r. split_and!; [exact Hex|exact Hid|].
  assert (max_runs_reached task1 = true) as Hcap.
  { unfold max_runs_reached. rewrite Hmax, Hrun. reflexivity. }
  intros fuel2 m.
  destruct (fire_capped new_id fuel2 (S m) st1 task1 Ht1 Hcap)
    as (st2 & task2 & Hfire & Hres & Ht2 & Hrun2 & Hen2).
  exists st2, task2. split_and!; try done.
  - rewrite Hrun2, Hrun. reflexivity.
  - eapply (fire_capped_job new_id fuel2 m st1 task1); [exact Ht1|exact Hcap|exact Hfire].
Qed.

Lemma schedule_once_fires_once_witness :
  exists fuel st1 r,
    _execute_task fuel "abcd1234"
      (schedule_once clock_isoformat "abcd1234" "ok" 5%nat None None retry_demo).1
      = Some (st1, Some r) /\
    res_task_id r = "abcd1234" /\
    forall fuel2 m, exists st2 task2,
      fire_times (S fuel2) (S m) "abcd1234" st1
        = Some (st2, replicate (S m) None) /\
      results st2 = results st1 /\
      tasks st2 !! "abcd1234" = Some task2 /\
      run_count task2 = 1 /\ enabled task2 = false /\ "abcd1234" ∉ jobs st2.
Proof.
  apply (schedule_once_fires_once clock_isoformat "abcd1234" "ok" 5%nat None None
           retry_demo).
  apply acyclic_single.
Defined.

(** ** From the dispatcher to the queries *)

Lemma _execute_task_result fuel :
  forall task_id st st' r,
    _execute_task fuel task_id st = Some (st', Some r) ->
    res_task_id r = task_id /\ last (results st') = Some r.
Proof.
  induction fuel as [|fuel IH]; intros task_id st st' r Hex; [done|].
  rewrite _execute_task_S in Hex.
  destruct (tasks st !! task_id) as [task|]; [|done].
  destruct (max_runs_reached task); [done|].
  destruct (run_dependencies _ _ st) as [st1|]; [|done].
  unfold action_phase in Hex. cbv zeta in Hex.
  assert (forall s v err st0,
            Some (finalize task_id (now st) s v err st0) = Some (st', Some r) ->
            res_task_id r = task_id /\ last (results st') = Some r) as Hfin.
  { intros s v err st0 Heq. unfold finalize in Heq. simplify_eq. simpl.
    split; [done|apply append_result_last]. }
  destruct (actions st1 !! _) as [h|]; [|by eapply Hfin].
  destruct (h _ _) as [v|e]; [by eapply Hfin|].
  destruct (_ && _); [by eapply IH|by eapply Hfin].
Qed.

Lemma last_filter {A} (P : A -> Prop) `{!forall x, Decision (P x)} (l : list A) x :
  last l = Some x -> P x -> last (filter P l) = Some x.
Proof.
  intros [l' ->]%last_Some HP.
  by rewrite filter_app, filter_cons, decide_True, filter_nil, last_snoc.
Qed.

Lemma last_last_n {A} (n : Z) (l : list A) x :
  0 <= n -> last l = Some x -> last (last_n n l) = Some x.
Proof.
  intros Hn [l' ->]%last_Some. unfold last_n.
  destruct (Z.ltb_spec 0 n) as [Hpos|Hzero].
  - rewrite length_app. simpl. rewrite drop_app_le by lia. apply last_snoc.
  - replace n with 0 by lia. simpl. apply last_snoc.
Qed.

(** X27.  What the dispatcher returns is what the queries report: after
    an execution that returned a result, [get_results] for that task --
    with no status filter or with the result's own status, and any
    non-negative limit -- ends with that result, and [get_task_stats] gives
    its start time as [last_run] and its status as [last_status]. *)
Theorem latest_result_is_reported (fuel : nat) (task_id : string)
    (st st' : State) (r : TaskResult) (status_ : option TaskStatus) (limit : Z) :
  _execute_task fuel task_id st = Some (st', Some r) ->
  0 <= limit ->
  status_ = None \/ status_ = Some (status r) ->
  last (get_results (Some task_id) status_ limit st') = Some r /\
  exists stats,
    get_task_stats task_id st' = Some stats /\
    stats_last_run stats = start_time r /\
    last_status stats = status_value (status r).
Proof.
  intros Hex Hlimit Hstatus.
  destruct (_execute_task_result _ _ _ _ _ Hex) as [Hid Hlast]. split.
  - unfold get_results. apply last_last_n; [done|].
    assert (last (if String.eqb task_id EmptyString then results st'
                  else filter (fun r0 => res_task_id r0 = task_id) (results st'))
            = Some r) as Hby_task.
    { destruct (String.eqb task_id EmptyString); [done|]. by apply last_filter. }
    destruct Hstatus as [-> | ->]; [done|]. by apply last_filter.
  - unfold get_task_stats. cbv zeta.
    rewrite (last_filter (fun r0 => res_task_id r0 = task_id) _ r Hlast Hid).
    by eexists.
Qed.

Lemma latest_result_is_reported_witness :
  exists st' r,
    _execute_task 3 "job" retry_demo = Some (st', Some r) /\
    last (get_results (Some "job") (Some FAILED) 100 st') = Some r /\
    exists stats,
      get_task_stats "job" st' = Some stats /\
      stats_last_run stats = start_time r /\
      last_status stats = "failed".
Proof.
  do 2 eexists. split; [vm_compute; reflexivity|].
  refine (latest_result_is_reported 3 "job" retry_demo _ _ (Some FAILED) 100 _ _ _).
  - vm_compute. reflexivity.
  - lia.
  - right. reflexivity.
Defined.

Lemma run_dependencies_skip exec deps st :
  (forall d dep, d ∈ deps -> tasks st !! d = Some dep -> is_Some (last_run dep)) ->
  run_dependencies exec deps st = Some st.
Proof.
  induction deps as [|d deps IH]; intros Hran; [done|]. simpl.
  assert (run_dependencies exec deps st = Some st) as Hrest.
  { apply IH. intros d' dep Hin. apply Hran. by right. }
  destruct (tasks st !! d) as [dep|] eqn:Hd; [|done].
  destruct (Hran d dep) as [when Hwhen]; [by left|done|]. by rewrite Hwhen.
Qed.

(** X28.  A dependency runs at most once on behalf of its dependents:
    when every registered dependency of a task has a [last_run] -- whatever
    the outcome of that run was -- an execution of the task calls no
    dependency at all.  With a handler that returns, it consists of the one
    handler call of the task itself and the finalisation: one Completed
    result appended to the log. *)
Theorem dependencies_that_ran_are_skipped (st : State) (task_id : string)
    (task : ScheduledTask) (h : Handler) (v : Value) :
  tasks st !! task_id = Some task ->
  max_runs_reached task = false ->
  (forall d dep, d ∈ dependencies task -> tasks st !! d = Some dep ->
     is_Some (last_run dep)) ->
  actions st !! action task = Some h ->
  h (calls st) (action_params task) = Returned v ->
  exists st' r,
    _execute_task 1 task_id st = Some (st', Some r) /\
    status r = COMPLETED /\ result r = v /\
    trace st' =
      trace st ++ [EvInvoke task_id (action_params task) (tasks st);
                   EvFinal r; EvSave (tasks st')] /\
    results st' = append_result r (results st) /\
    calls st' = S (calls st).
Proof.
  intros Ht Hcap Hran Hact Hret.
  rewrite _execute_task_S, Ht, Hcap, run_dependencies_skip by done.
  unfold action_phase. cbv zeta.
  rewrite (task_object_stored _ _ _ _ Ht), Hact, Hret.
  destruct (finalize_facts task_id (now st) COMPLETED v None
              (invoked task_id task st) task Ht)
    as (r & st' & Hfin & Hid & Hst & Hres & Herr & Ht' & Htr & Hown & Hlast).
  destruct (finalize_result _ _ _ _ _ _ _ _ Hfin)
    as (_ & _ & _ & Hcalls & _ & _ & Hlog).
  rewrite Hfin. exists st', r. split_and!; try done.
  rewrite Htr. simpl. by rewrite <- app_assoc.
Qed.

Lemma dependencies_that_ran_are_skipped_witness :
  exists st' r,
    _execute_task 1 "T" ran_deps_demo = Some (st', Some r) /\
    status r = COMPLETED /\ result r = VNone /\
    trace st' =
      trace ran_deps_demo ++
      [EvInvoke "T" (action_params (demo_task "T" "ok" ["D"; "gone"] 0 None 0 None))
         (tasks ran_deps_demo);
       EvFinal r; EvSave (tasks st')] /\
    results st' = append_result r (results ran_deps_demo) /\
    calls st' = S (calls ran_deps_demo).
Proof.
  apply (dependencies_that_ran_are_skipped ran_deps_demo "T"
           (demo_task "T" "ok" ["D"; "gone"] 0 None 0 None) ok_handler VNone);
    try reflexivity.
  intros d dep Hd Hlook. unfold ran_deps_demo, demo_engine in Hlook.
  cbn [tasks] in Hlook.
  apply lookup_insert_Some in Hlook as [[<- <-]|[_ Hlook]].
  - apply elem_of_cons in Hd as [Hd|Hd]; [done|].
    by apply list_elem_of_singleton in Hd.
  - apply lookup_singleton_Some in Hlook as [_ <-]. by eexists.
Defined.

(** ** Dependency cycles *)

Section Knot.
Variable members : gset string.
Variable m : gmap string ScheduledTask.
Hypothesis m_knot : forall c, c ∈ members ->
  exists task d,
    m !! c = Some task /\ last_run task = None /\
    max_runs_reached task = false /\
    d ∈ dependencies task /\ d ∈ members.




End Knot.


